(** * YouTube transcript analyser: a shallow embedding of [app.py]

    The program is a small Flask application.  It resolves a YouTube URL to
    a video identifier ([extract_video_id]), fetches the captions of the video
    ([get_transcript]), asks an LLM for a JSON analysis of the transcript and
    recovers the JSON object from the free text the LLM answers
    ([analyze_transcript]), and answers questions on a transcript
    ([answer_question]).  Two request handlers ([index], [ask_question_route])
    compose these.

    Layout of the development:
    - [PyStr]: Python [str] values and the string methods the program calls;
    - [PyVal]: Python values, exceptions, truthiness;
    - [Json]: [json.loads] of CPython 3.11;
    - [Urllib]: [urllib.parse.urlparse] and [parse_qs] of CPython 3.11;
    - [Effects]: the trace-passing monad in which the program runs;
    - [App]: the functions of [app.py], in the order of the file;
    - the vocabulary of the statements;
    - the properties, by component, with the numbered statements [C1] to
      [C10] among them;
    - further properties of the handlers, of the URL resolver and of the
      JSON recovery, numbered [X1] and up.

    The external collaborators (the transcript service and the LLM) are
    parameters of the program; the Unicode tables and the IP address grammar
    consulted by [urllib] are parameters of [Urllib]; the room the call
    stack leaves to [json.loads] and [str] on values other than strings are
    parameters of the interpreter. *)

From Stdlib Require Import Ascii String.
From Stdlib Require Import List NArith ZArith Bool Lia PeanoNat.
Import ListNotations.

Set Implicit Arguments.

(* ================================================================= *)
(** ** Python strings *)

Module PyStr.

(** A Python [str] is a sequence of Unicode code points. *)
Definition char := N.
Definition str := list char.

Definition ord (a : ascii) : char := N_of_ascii a.
Arguments ord a%_char.

(** [lit "abc"] is the Python literal ['abc'] (ASCII literals only). *)
Definition lit (s : string) : str := map ord (list_ascii_of_string s).
Arguments lit s%_string.

(** The double quote, which a Rocq literal cannot hold undoubled. *)
Definition dq : char := 34%N.
Definition backslash : char := 92%N.
Definition newline : char := 10%N.

Definition chr_eqb (a b : char) : bool := N.eqb a b.

Fixpoint str_eqb (a b : str) : bool :=
  match a, b with
  | [], [] => true
  | x :: a', y :: b' => chr_eqb x y && str_eqb a' b'
  | _, _ => false
  end.

(** [c in s] for a one-character [c]. *)
Definition contains (s : str) (c : char) : bool := existsb (chr_eqb c) s.

(** [s[a:b]] for non-negative [a] and [b]. *)
Definition slice (s : str) (a b : nat) : str := firstn (b - a) (skipn a s).

(** [s[a:]] for non-negative [a]. *)
Definition slice_from (s : str) (a : nat) : str := skipn a s.

(** [s[:-1]]. *)
Definition drop_last (s : str) : str := removelast s.

(** [s.startswith(p)]. *)
Fixpoint startswith (s p : str) {struct p} : bool :=
  match p, s with
  | [], _ => true
  | y :: p', x :: s' => chr_eqb x y && startswith s' p'
  | _ :: _, [] => false
  end.

(** Index of the first occurrence of [c] in [s]. *)
Fixpoint index_of (c : char) (s : str) : option nat :=
  match s with
  | [] => None
  | x :: s' => if chr_eqb x c then Some 0
               else option_map S (index_of c s')
  end.

(** Index of the last occurrence of [c] in [s]. *)
Fixpoint last_index_of (c : char) (s : str) : option nat :=
  match s with
  | [] => None
  | x :: s' => match last_index_of c s' with
               | Some i => Some (S i)
               | None => if chr_eqb x c then Some 0 else None
               end
  end.

(** [s.find(c)], [s.find(c, start)] and [s.rfind(c)] for a one-character
    [c]: an index, or [-1]. *)
Definition find (s : str) (c : char) : Z :=
  match index_of c s with
  | Some i => Z.of_nat i
  | None => (-1)%Z
  end.

Definition find_from (s : str) (c : char) (start : nat) : Z :=
  match index_of c (skipn start s) with
  | Some i => Z.of_nat (start + i)
  | None => (-1)%Z
  end.

Definition rfind (s : str) (c : char) : Z :=
  match last_index_of c s with
  | Some i => Z.of_nat i
  | None => (-1)%Z
  end.

(** [str.isspace] on one character: the code points CPython's
    [_PyUnicode_IsWhitespace] accepts. *)
Definition isspace (c : char) : bool :=
  ((9 <=? c) && (c <=? 13) || (28 <=? c) && (c <=? 32)
   || (c =? 133) || (c =? 160) || (c =? 5760)
   || (8192 <=? c) && (c <=? 8202)
   || (c =? 8232) || (c =? 8233) || (c =? 8239) || (c =? 8287)
   || (c =? 12288))%N.

Fixpoint dropwhile (p : char -> bool) (s : str) : str :=
  match s with
  | [] => []
  | x :: s' => if p x then dropwhile p s' else s
  end.

Fixpoint takewhile (p : char -> bool) (s : str) : str :=
  match s with
  | [] => []
  | x :: s' => if p x then x :: takewhile p s' else []
  end.

(** [s.lstrip()], [s.rstrip()], [s.strip()]. *)
Definition lstrip (s : str) : str := dropwhile isspace s.
Definition rstrip (s : str) : str := rev (dropwhile isspace (rev s)).
Definition strip (s : str) : str := rstrip (lstrip s).

(** [s.replace(c, '')] and [s.replace(c, d)] for one-character [c], [d]. *)
Definition remove_char (c : char) (s : str) : str :=
  filter (fun x => negb (chr_eqb x c)) s.
Definition replace_char (c d : char) (s : str) : str :=
  map (fun x => if chr_eqb x c then d else x) s.

(** [s.split(c)] for a one-character separator: never empty. *)
Fixpoint split (c : char) (s : str) : list str :=
  match s with
  | [] => [[]]
  | x :: s' =>
      if chr_eqb x c then [] :: split c s'
      else match split c s' with
           | w :: ws => (x :: w) :: ws
           | [] => [[x]]
           end
  end.

(** [s.partition(c)]: the part before the first [c], whether [c] was
    found, the part after it. *)
Definition partition (c : char) (s : str) : str * bool * str :=
  match index_of c s with
  | Some i => (firstn i s, true, skipn (S i) s)
  | None => (s, false, [])
  end.

(** [s.rpartition(c)]: the part before the last [c], whether [c] was
    found, the part after it (all of [s] when [c] does not occur). *)
Definition rpartition (c : char) (s : str) : str * bool * str :=
  match last_index_of c s with
  | Some i => (firstn i s, true, skipn (S i) s)
  | None => ([], false, s)
  end.

(** [sep.join(parts)]. *)
Definition join (sep : str) (parts : list str) : str :=
  match parts with
  | [] => []
  | p :: ps => fold_left (fun acc q => acc ++ sep ++ q) ps p
  end.

(** ['%d' % n]. *)
Fixpoint digits_of_pos (fuel : nat) (n : N) (acc : str) : str :=
  match fuel with
  | O => acc
  | S fuel' =>
      let acc' := (48 + n mod 10)%N :: acc in
      if (n <? 10)%N then acc' else digits_of_pos fuel' (n / 10)%N acc'
  end.

Definition str_of_N (n : N) : str := digits_of_pos (S (N.to_nat (N.log2 n))) n [].
Definition str_of_nat (n : nat) : str := str_of_N (N.of_nat n).

(** ASCII case folding of one character, [c.lower()] for ASCII [c]. *)
Definition ascii_lower (c : char) : char :=
  if ((65 <=? c) && (c <=? 90))%N then (c + 32)%N else c.

Definition isascii (c : char) : bool := (c <? 128)%N.
Definition is_ascii_alpha (c : char) : bool :=
  ((65 <=? c) && (c <=? 90) || (97 <=? c) && (c <=? 122))%N.
Definition is_ascii_digit (c : char) : bool := ((48 <=? c) && (c <=? 57))%N.

End PyStr.
Import PyStr.

(* ================================================================= *)
(** ** Python values and exceptions *)

Module PyVal.

(** A Python [float] read from text is kept as the text it was read from;
    no floating-point arithmetic is done on it. *)
Inductive pyfloat :=
| FNaN
| FPosInf
| FNegInf
| FLit (lexeme : str).

(** The values [json.loads] builds and the handlers pass around.  A [dict]
    keeps its keys in insertion order. *)
#[warnings="-register-all"]
Inductive pyvalue :=
| PyNone
| PyBool (b : bool)
| PyInt (z : Z)
| PyFloat (f : pyfloat)
| PyStr (s : str)
| PyList (l : list pyvalue)
| PyDict (d : list (str * pyvalue)).

(** [d[k] = v]: the value of an existing key is replaced in place, a new key
    goes to the end. *)
Fixpoint dict_setitem (A : Type) (d : list (str * A)) (k : str) (v : A)
  : list (str * A) :=
  match d with
  | [] => [(k, v)]
  | (k', v') :: d' =>
      if str_eqb k' k then (k', v) :: d'
      else (k', v') :: dict_setitem d' k v
  end.

(** [d.get(k)]. *)
Fixpoint dict_get (A : Type) (d : list (str * A)) (k : str) : option A :=
  match d with
  | [] => None
  | (k', v) :: d' => if str_eqb k' k then Some v else dict_get d' k
  end.

(** The digits of a float literal, without sign, point and exponent. *)
Definition mantissa_digits (lexeme : str) : str :=
  filter is_ascii_digit
    (takewhile (fun c => negb (chr_eqb c (ord "e") || chr_eqb c (ord "E")))
       lexeme).

Fixpoint N_of_digits (ds : str) (acc : N) : N :=
  match ds with
  | [] => acc
  | d :: ds' => N_of_digits ds' (10 * acc + (d - 48))%N
  end.

(** The decimal exponent of a float literal [int.frac e exp], counted from
    the last mantissa digit. *)
Definition decimal_exponent (lexeme : str) : Z :=
  let no_e := fun c => negb (chr_eqb c (ord "e") || chr_eqb c (ord "E")) in
  let mant := takewhile no_e lexeme in
  let frac := match index_of (ord ".") mant with
              | Some i => length mant - S i
              | None => 0
              end in
  let exp := match dropwhile no_e lexeme with
             | _ :: sgn :: ds =>
                 if chr_eqb sgn (ord "-")
                 then (- Z.of_N (N_of_digits ds 0))%Z
                 else if chr_eqb sgn (ord "+")
                      then Z.of_N (N_of_digits ds 0)
                      else Z.of_N (N_of_digits (sgn :: ds) 0)
             | _ => 0%Z
             end in
  (exp - Z.of_nat frac)%Z.

(** Whether [float(lexeme)] is zero: the mantissa is zero, or the value
    rounds to zero in binary64 (it is at most [2^-1075]). *)
Definition float_is_zero (f : pyfloat) : bool :=
  match f with
  | FNaN | FPosInf | FNegInf => false
  | FLit lexeme =>
      let m := Z.of_N (N_of_digits (mantissa_digits lexeme) 0) in
      let e := decimal_exponent lexeme in
      if (m =? 0)%Z then true
      else if (e <? 0)%Z then (m * 2 ^ 1075 <=? 10 ^ (- e))%Z
      else false
  end.

(** [bool(v)]. *)
Definition truthy (v : pyvalue) : bool :=
  match v with
  | PyNone => false
  | PyBool b => b
  | PyInt z => negb (z =? 0)%Z
  | PyFloat f => negb (float_is_zero f)
  | PyStr s => match s with [] => false | _ => true end
  | PyList l => match l with [] => false | _ => true end
  | PyDict d => match d with [] => false | _ => true end
  end.

(** [bool(x)] for [x] a [str] or [None]. *)
Definition truthy_opt (x : option str) : bool :=
  match x with
  | Some (_ :: _) => true
  | _ => false
  end.

(** The exceptions the program meets.  [JSONDecodeError] is a subclass of
    [ValueError], and a [ValueError] that is not a [JSONDecodeError] is not
    caught by [except json.JSONDecodeError]; [OtherException] stands for any
    other subclass of [Exception] raised by an external collaborator, with
    its [str(e)]. *)
Inductive exn :=
| JSONDecodeError (msg : str) (doc : str) (pos : nat)
| ValueError (msg : str)
| IndexError (msg : str)
| AttributeError (msg : str)
| RecursionError (msg : str)
| OtherException (msg : str).

(** [doc.count('\n', 0, pos)]. *)
Definition count_newlines (doc : str) (pos : nat) : nat :=
  length (filter (chr_eqb newline) (firstn pos doc)).

(** [pos - doc.rfind('\n', 0, pos)]. *)
Definition colno (doc : str) (pos : nat) : Z :=
  (Z.of_nat pos - rfind (firstn pos doc) newline)%Z.

(** [str(e)].  For a [JSONDecodeError] it is
    ['%s: line %d column %d (char %d)' % (msg, lineno, colno, pos)]. *)
Definition exn_str (e : exn) : str :=
  match e with
  | JSONDecodeError msg doc pos =>
      msg ++ lit ": line " ++ str_of_nat (count_newlines doc pos + 1)
          ++ lit " column " ++ str_of_N (Z.to_N (colno doc pos))
          ++ lit " (char " ++ str_of_nat pos ++ lit ")"
  | ValueError msg => msg
  | IndexError msg => msg
  | AttributeError msg => msg
  | RecursionError msg => msg
  | OtherException msg => msg
  end.

(** [isinstance(e, json.JSONDecodeError)]. *)
Definition is_JSONDecodeError (e : exn) : bool :=
  match e with
  | JSONDecodeError _ _ _ => true
  | _ => false
  end.

(** The outcome of evaluating a Python expression. *)
Inductive outcome (A : Type) :=
| Return (a : A)
| Raise (e : exn).
Arguments Return {A} a.
Arguments Raise {A} e.

(** [l[i]]. *)
Definition getitem (A : Type) (l : list A) (i : nat) : outcome A :=
  match nth_error l i with
  | Some x => Return x
  | None => Raise (IndexError (lit "list index out of range"))
  end.

(** [type(v).__name__]. *)
Definition type_name (v : pyvalue) : str :=
  match v with
  | PyNone => lit "NoneType"
  | PyBool _ => lit "bool"
  | PyInt _ => lit "int"
  | PyFloat _ => lit "float"
  | PyStr _ => lit "str"
  | PyList _ => lit "list"
  | PyDict _ => lit "dict"
  end.

(** [data.get(key)]: the value of the key or [None] when [data] is a
    [dict]; no other value that a JSON body gives has an attribute
    [get]. *)
Definition value_get (data : pyvalue) (key : str) : outcome pyvalue :=
  match data with
  | PyDict d =>
      Return (match dict_get d key with Some v => v | None => PyNone end)
  | _ =>
      Raise (AttributeError
               (lit "'" ++ type_name data
                  ++ lit "' object has no attribute 'get'"))
  end.

(** What the program takes from the interpreter it runs in. *)
Record interpreter := {
  (** [json.loads] enters an object or an array through
      [Py_EnterRecursiveCall]: when the program calls it, the recursion limit
      (1000 by default) and the depth of the call stack leave room for
      [S nesting_room] objects and arrays inside one another (994 at the
      top of a script, fewer in a request handler; the model takes it that
      there is room for one at least) *)
  nesting_room : nat;
  (** [str(v)] for a value [v] that is not a [str]: its text, or the
      exception the conversion raises *)
  str_of_value : pyvalue -> outcome str
}.

(** [format(v, '')], what an f-string puts for [{v}]: a [str] as it is,
    [str(v)] otherwise. *)
Definition format_value (py : interpreter) (v : pyvalue) : outcome str :=
  match v with
  | PyStr s => Return s
  | _ => str_of_value py v
  end.

(** [sys.get_int_max_str_digits()], which the program leaves at its
    default: [int(s)] raises [ValueError] when [s] has more digits. *)
Definition int_max_str_digits : nat := 4300.

Definition msg_int_limit (digits : nat) : str :=
  lit "Exceeds the limit (" ++ str_of_nat int_max_str_digits
    ++ lit " digits) for integer string conversion: value has "
    ++ str_of_nat digits
    ++ lit " digits; use sys.set_int_max_str_digits() to increase the limit".

End PyVal.
Import PyVal.

(* ================================================================= *)
(** ** [json.loads]

    The decoder of CPython 3.11 as [json.loads(s)] runs it with default
    arguments: [json.decoder.JSONDecoder.decode], [raw_decode], the scanner
    ([scan_once]), [JSONObject], [JSONArray] and [scanstring], with the
    error messages and positions of the C accelerator.  Numbers follow
    [NUMBER_RE].  Two exceptions that are not [JSONDecodeError] come out of
    the scanner: the [ValueError] of [int] on an integer of more than
    [int_max_str_digits] digits, and the [RecursionError] of an object or
    array nested deeper than the interpreter has room for. *)

Module Json.

(** What a scan ends with: a value and the index after it, [StopIteration],
    a [JSONDecodeError] ([Failed], the document is added by [json_loads]),
    or another exception ([Raised]). *)
Inductive scan_result (A : Type) :=
| Scanned (v : A) (next : nat)
| StopIteration (idx : nat)
| Failed (msg : str) (pos : nat)
| Raised (e : exn)
| OutOfFuel.
Arguments Scanned {A} v next.
Arguments StopIteration {A} idx.
Arguments Failed {A} msg pos.
Arguments Raised {A} e.
Arguments OutOfFuel {A}.

(** [WHITESPACE_STR = ' \t\n\r']. *)
Definition is_json_ws (c : char) : bool :=
  ((c =? 32) || (c =? 9) || (c =? 10) || (c =? 13))%N.

(** [WHITESPACE.match(s, idx).end()]. *)
Definition _w (s : str) (idx : nat) : nat :=
  Nat.min idx (length s) + length (takewhile is_json_ws (skipn idx s)).

(** [s[idx] == c], false when [idx] is out of range. *)
Definition char_is (s : str) (idx : nat) (c : char) : bool :=
  match nth_error s idx with
  | Some x => chr_eqb x c
  | None => false
  end.

Definition hex_val (c : char) : option N :=
  if is_ascii_digit c then Some (c - 48)%N
  else if ((97 <=? c) && (c <=? 102))%N then Some (c - 87)%N
  else if ((65 <=? c) && (c <=? 70))%N then Some (c - 55)%N
  else None.

Definition hex4 (a b c d : char) : option N :=
  match hex_val a, hex_val b, hex_val c, hex_val d with
  | Some x, Some y, Some z, Some t => Some (((x * 16 + y) * 16 + z) * 16 + t)%N
  | _, _, _, _ => None
  end.

Definition is_high_surrogate (u : N) : bool := ((55296 <=? u) && (u <=? 56319))%N.
Definition is_low_surrogate (u : N) : bool := ((56320 <=? u) && (u <=? 57343))%N.
Definition join_surrogates (u u2 : N) : N :=
  (65536 + ((u - 55296) * 1024 + (u2 - 56320)))%N.

(** [BACKSLASH]. *)
Definition unescape (e : char) : option char :=
  if chr_eqb e dq then Some dq
  else if chr_eqb e backslash then Some backslash
  else if chr_eqb e (ord "/") then Some (ord "/")
  else if chr_eqb e (ord "b") then Some 8%N
  else if chr_eqb e (ord "f") then Some 12%N
  else if chr_eqb e (ord "n") then Some 10%N
  else if chr_eqb e (ord "r") then Some 13%N
  else if chr_eqb e (ord "t") then Some 9%N
  else None.

Definition msg_unterminated : str := lit "Unterminated string starting at".
Definition msg_control : str := lit "Invalid control character at".
Definition msg_escape : str := lit "Invalid \escape".
Definition msg_uXXXX : str := lit "Invalid \uXXXX escape".
Definition msg_property_name : str :=
  lit "Expecting property name enclosed in double quotes".
Definition msg_colon : str := lit "Expecting ':' delimiter".
Definition msg_comma : str := lit "Expecting ',' delimiter".
Definition msg_value : str := lit "Expecting value".
Definition msg_extra : str := lit "Extra data".
Definition msg_bom : str := lit "Unexpected UTF-8 BOM (decode using utf-8-sig)".
Definition msg_too_deep (what : str) : str :=
  lit "maximum recursion depth exceeded while decoding a JSON " ++ what
    ++ lit " from a unicode string".

(** The loop of [scanstring(s, end, strict=True)]: [rest] is [s[pos:]],
    [begin] the index of the opening quote, [acc] the characters decoded so
    far, last first. *)
Fixpoint scanstring_from (begin : nat) (rest : str) (pos : nat) (acc : str)
  : scan_result str :=
  match rest with
  | [] => Failed msg_unterminated begin
  | c :: rest1 =>
      if chr_eqb c dq then Scanned (rev acc) (S pos)
      else if chr_eqb c backslash then
        match rest1 with
        | [] => Failed msg_unterminated begin
        | e :: rest2 =>
            if chr_eqb e (ord "u") then
              match rest2 with
              | h1 :: h2 :: h3 :: h4 :: ((_ :: _) as rest3) =>
                  match hex4 h1 h2 h3 h4 with
                  | None => Failed msg_uXXXX (S pos)
                  | Some u =>
                      let single := scanstring_from begin rest3 (pos + 6) (u :: acc) in
                      if is_high_surrogate u then
                        match rest3 with
                        | b :: u' :: g1 :: g2 :: g3 :: g4 :: ((_ :: _) as rest4) =>
                            if chr_eqb b backslash && chr_eqb u' (ord "u") then
                              match hex4 g1 g2 g3 g4 with
                              | None => Failed msg_uXXXX (pos + 7)
                              | Some u2 =>
                                  if is_low_surrogate u2
                                  then scanstring_from begin rest4 (pos + 12)
                                         (join_surrogates u u2 :: acc)
                                  else single
                              end
                            else single
                        | _ => single
                        end
                      else single
                  end
              | _ => Failed msg_uXXXX (S pos)
              end
            else
              match unescape e with
              | Some ch => scanstring_from begin rest2 (pos + 2) (ch :: acc)
              | None => Failed msg_escape pos
              end
        end
      else if (c <=? 31)%N then Failed msg_control pos
      else scanstring_from begin rest1 (S pos) (c :: acc)
  end.

(** [scanstring(s, end)], [end] being the index after the opening quote. *)
Definition scanstring (s : str) (end_ : nat) : scan_result str :=
  scanstring_from (end_ - 1) (skipn end_ s) end_ [].

(** [NUMBER_RE.match(s, idx)] on [rest = s[idx:]], with the conversion of
    the match by [int] or [float]: the value, or the [ValueError] of [int]
    on more than [int_max_str_digits] digits, and the length of the
    match. *)
Definition match_number (rest : str) : option (outcome pyvalue * nat) :=
  let '(neg, r0) :=
    match rest with
    | c :: r => if chr_eqb c (ord "-") then (true, r) else (false, rest)
    | [] => (false, rest)
    end in
  match r0 with
  | [] => None
  | d :: r1 =>
      let int_digits :=
        if chr_eqb d (ord "0") then Some [d]
        else if is_ascii_digit d then Some (d :: takewhile is_ascii_digit r1)
        else None in
      match int_digits with
      | None => None
      | Some ints =>
          let r2 := skipn (length ints) r0 in
          let frac :=
            match r2 with
            | p :: ((f :: _) as r3) =>
                if chr_eqb p (ord ".") && is_ascii_digit f
                then p :: takewhile is_ascii_digit r3 else []
            | _ => []
            end in
          let r4 := skipn (length frac) r2 in
          let exp :=
            match r4 with
            | e :: r5 =>
                if chr_eqb e (ord "e") || chr_eqb e (ord "E") then
                  let '(sgn, r6) :=
                    match r5 with
                    | g :: r =>
                        if chr_eqb g (ord "-") || chr_eqb g (ord "+")
                        then ([g], r) else ([], r5)
                    | [] => ([], r5)
                    end in
                  match takewhile is_ascii_digit r6 with
                  | [] => []
                  | ds => e :: sgn ++ ds
                  end
                else []
            | [] => []
            end in
          let sign := if neg then [ord "-"] else [] in
          let lexeme := sign ++ ints ++ frac ++ exp in
          match frac, exp with
          | [], [] =>
              if int_max_str_digits <? length ints
              then Some (Raise (ValueError (msg_int_limit (length ints))),
                         length lexeme)
              else
                let n := Z.of_N (N_of_digits ints 0) in
                Some (Return (PyInt (if neg then (- n)%Z else n)),
                      length lexeme)
          | _, _ => Some (Return (PyFloat (FLit lexeme)), length lexeme)
          end
      end
  end.

(** [_scan_once(string, idx)], with [JSONObject] and [JSONArray]:
    [object_members] and [array_items] are their [while] loops, entered at
    the first key, respectively the first item.  [depth] is the number of
    objects and arrays that can still be entered; [fuel] bounds the calls
    and is never used up ([scan_fuel]). *)
Fixpoint scan_once (fuel depth : nat) (s : str) (idx : nat)
  : scan_result pyvalue :=
  match fuel with
  | O => OutOfFuel
  | S fuel' =>
      match nth_error s idx with
      | None => StopIteration idx
      | Some nextchar =>
          if chr_eqb nextchar dq then
            match scanstring s (idx + 1) with
            | Scanned v next => Scanned (PyStr v) next
            | StopIteration i => StopIteration i
            | Failed m p => Failed m p
            | Raised e => Raised e
            | OutOfFuel => OutOfFuel
            end
          else if chr_eqb nextchar (ord "{") then
            match depth with
            | O => Raised (RecursionError (msg_too_deep (lit "object")))
            | S depth' =>
                let i := _w s (idx + 1) in
                if char_is s i (ord "}") then Scanned (PyDict []) (i + 1)
                else object_members fuel' depth' s i []
            end
          else if chr_eqb nextchar (ord "[") then
            match depth with
            | O => Raised (RecursionError (msg_too_deep (lit "array")))
            | S depth' =>
                let i := _w s (idx + 1) in
                if char_is s i (ord "]") then Scanned (PyList []) (i + 1)
                else array_items fuel' depth' s i []
            end
          else if chr_eqb nextchar (ord "n")
                  && str_eqb (slice s idx (idx + 4)) (lit "null")
          then Scanned PyNone (idx + 4)
          else if chr_eqb nextchar (ord "t")
                  && str_eqb (slice s idx (idx + 4)) (lit "true")
          then Scanned (PyBool true) (idx + 4)
          else if chr_eqb nextchar (ord "f")
                  && str_eqb (slice s idx (idx + 5)) (lit "false")
          then Scanned (PyBool false) (idx + 5)
          else
            match match_number (skipn idx s) with
            | Some (Return res, len) => Scanned res (idx + len)
            | Some (Raise e, _) => Raised e
            | None =>
                if chr_eqb nextchar (ord "N")
                   && str_eqb (slice s idx (idx + 3)) (lit "NaN")
                then Scanned (PyFloat FNaN) (idx + 3)
                else if chr_eqb nextchar (ord "I")
                        && str_eqb (slice s idx (idx + 8)) (lit "Infinity")
                then Scanned (PyFloat FPosInf) (idx + 8)
                else if chr_eqb nextchar (ord "-")
                        && str_eqb (slice s idx (idx + 9)) (lit "-Infinity")
                then Scanned (PyFloat FNegInf) (idx + 9)
                else StopIteration idx
            end
      end
  end

with object_members (fuel depth : nat) (s : str) (idx : nat)
       (pairs : list (str * pyvalue)) : scan_result pyvalue :=
  match fuel with
  | O => OutOfFuel
  | S fuel' =>
      if negb (char_is s idx dq) then Failed msg_property_name idx
      else
        match scanstring s (idx + 1) with
        | Scanned key next =>
            let i := _w s next in
            if negb (char_is s i (ord ":")) then Failed msg_colon i
            else
              match scan_once fuel' depth s (_w s (i + 1)) with
              | Scanned value next' =>
                  let pairs' := dict_setitem pairs key value in
                  let j := _w s next' in
                  if char_is s j (ord "}") then Scanned (PyDict pairs') (j + 1)
                  else if negb (char_is s j (ord ",")) then Failed msg_comma j
                  else object_members fuel' depth s (_w s (j + 1)) pairs'
              | StopIteration k => StopIteration k
              | Failed m p => Failed m p
              | Raised e => Raised e
              | OutOfFuel => OutOfFuel
              end
        | StopIteration k => StopIteration k
        | Failed m p => Failed m p
        | Raised e => Raised e
        | OutOfFuel => OutOfFuel
        end
  end

with array_items (fuel depth : nat) (s : str) (idx : nat)
       (values : list pyvalue) : scan_result pyvalue :=
  match fuel with
  | O => OutOfFuel
  | S fuel' =>
      match scan_once fuel' depth s idx with
      | Scanned value next =>
          let values' := values ++ [value] in
          let j := _w s next in
          if char_is s j (ord "]") then Scanned (PyList values') (j + 1)
          else if negb (char_is s j (ord ",")) then Failed msg_comma j
          else array_items fuel' depth s (_w s (j + 1)) values'
      | StopIteration k => StopIteration k
      | Failed m p => Failed m p
      | Raised e => Raised e
      | OutOfFuel => OutOfFuel
      end
  end.

(** Fuel for a document [s]: a nested value costs two units (one for the
    scanner, one for the loop of its container) and takes one character. *)
Definition fuel_for (s : str) : nat := S (2 * length s).

(** What an exhausted scanner stands for; the fuel of [json_loads] is never
    used up ([scan_fuel]). *)
Definition out_of_fuel : exn :=
  RecursionError (lit "maximum recursion depth exceeded").

(** [json.loads(s)]: the BOM check of [json.loads], then
    [JSONDecoder.decode] with [raw_decode] inlined. *)
Definition json_loads (py : interpreter) (s : str) : outcome pyvalue :=
  if startswith s [65279%N]
  then Raise (JSONDecodeError msg_bom s 0)
  else
    match scan_once (fuel_for s) (S (nesting_room py)) s (_w s 0) with
    | StopIteration i => Raise (JSONDecodeError msg_value s i)
    | Failed m p => Raise (JSONDecodeError m s p)
    | Raised e => Raise e
    | OutOfFuel => Raise out_of_fuel
    | Scanned obj end_ =>
        let end' := _w s end_ in
        if negb (end' =? length s) then Raise (JSONDecodeError msg_extra s end')
        else Return obj
    end.

End Json.
Import Json.

(* ================================================================= *)
(** ** [urllib.parse]

    [urlparse], the [hostname] property of its result and [parse_qs], as in
    [Lib/urllib/parse.py] of CPython 3.11, for [str] arguments and default
    keyword arguments. *)

Module Urllib.

Inductive ip_version := IPv4 | IPv6.

(** What [urllib.parse] takes from other modules and from the Unicode
    database. *)
Record tables := {
  (** [s.lower()] for an [s] that is not all ASCII *)
  unicode_lower : str -> str;
  (** [unicodedata.normalize('NFKC', s)] *)
  normalize_NFKC : str -> str;
  (** [ipaddress.ip_address(s)]: the version of the address, or the
      [ValueError] raised for a text that is no address *)
  ip_address : str -> outcome ip_version
}.

Record ParseResult := {
  scheme : str;
  netloc : str;
  path : str;
  params : str;
  query : str;
  fragment : str
}.

(** [s.lower()]. *)
Definition lower (T : tables) (s : str) : str :=
  if forallb isascii s then map ascii_lower s else unicode_lower T s.

(** [scheme_chars]. *)
Definition is_scheme_char (c : char) : bool :=
  is_ascii_alpha c || is_ascii_digit c
  || chr_eqb c (ord "+") || chr_eqb c (ord "-") || chr_eqb c (ord ".").

(** [_WHATWG_C0_CONTROL_OR_SPACE]. *)
Definition is_c0_control_or_space (c : char) : bool := (c <=? 32)%N.

(** [_UNSAFE_URL_BYTES_TO_REMOVE], removed one after the other. *)
Definition remove_unsafe (url : str) : str :=
  remove_char 10%N (remove_char 13%N (remove_char 9%N url)).

Definition uses_params : list str :=
  [lit ""; lit "ftp"; lit "hdl"; lit "prospero"; lit "http"; lit "imap";
   lit "https"; lit "shttp"; lit "rtsp"; lit "rtspu"; lit "sip"; lit "sips";
   lit "mms"; lit "sftp"; lit "tel"].

(** [s.split(c, 1)], for an [s] in which [c] occurs. *)
Definition split1 (c : char) (s : str) : str * str :=
  let '(before, _, after) := partition c s in (before, after).

(** [_splitnetloc(url, 2)]. *)
Definition _splitnetloc (url : str) (start : nat) : str * str :=
  let delim :=
    fold_left
      (fun delim c =>
         let wdelim := find_from url c start in
         if (0 <=? wdelim)%Z then Nat.min delim (Z.to_nat wdelim) else delim)
      [ord "/"; ord "?"; ord "#"] (length url) in
  (slice url start delim, slice_from url delim).

(** The regular expression [\Av[a-fA-F0-9]+\..+\Z] of
    [_check_bracketed_host], on a text without line breaks. *)
Definition is_hex_digit (c : char) : bool :=
  is_ascii_digit c || ((97 <=? c) && (c <=? 102))%N
  || ((65 <=? c) && (c <=? 70))%N.

Definition matches_ipvfuture (hostname : str) : bool :=
  match hostname with
  | v :: rest =>
      chr_eqb v (ord "v")
      && match takewhile is_hex_digit rest, dropwhile is_hex_digit rest with
         | _ :: _, dot :: _ :: _ => chr_eqb dot (ord ".")
         | _, _ => false
         end
  | [] => false
  end.

Definition invalid_ipv6_url : exn := ValueError (lit "Invalid IPv6 URL").

Section WithTables.

Variable T : tables.

Definition _check_bracketed_host (hostname : str) : outcome unit :=
  if startswith hostname (lit "v") then
    if negb (matches_ipvfuture hostname)
    then Raise (ValueError (lit "IPvFuture address is invalid"))
    else Return tt
  else
    match ip_address T hostname with
    | Raise e => Raise e
    | Return IPv4 =>
        Raise (ValueError (lit "An IPv4 address cannot be in brackets"))
    | Return IPv6 => Return tt
    end.

Definition _check_bracketed_netloc (netloc : str) : outcome unit :=
  let '(_, _, hostname_and_port) := rpartition (ord "@") netloc in
  let '(before_bracket, have_open_br, bracketed) :=
    partition (ord "[") hostname_and_port in
  if have_open_br then
    match before_bracket with
    | _ :: _ => Raise invalid_ipv6_url
    | [] =>
        let '(hostname, _, port) := partition (ord "]") bracketed in
        match port with
        | c :: _ =>
            if negb (chr_eqb c (ord ":")) then Raise invalid_ipv6_url
            else _check_bracketed_host hostname
        | [] => _check_bracketed_host hostname
        end
    end
  else
    let '(hostname, _, port) := partition (ord ":") hostname_and_port in
    _check_bracketed_host hostname.

Definition _checknetloc (netloc : str) : outcome unit :=
  if match netloc with [] => true | _ => forallb isascii netloc end
  then Return tt
  else
    let n := remove_char (ord "?")
               (remove_char (ord "#")
                  (remove_char (ord ":") (remove_char (ord "@") netloc))) in
    let netloc2 := normalize_NFKC T n in
    if str_eqb n netloc2 then Return tt
    else if existsb (contains netloc2)
              [ord "/"; ord "?"; ord "#"; ord "@"; ord ":"]
    then Raise (ValueError (lit "netloc '" ++ netloc
                  ++ lit "' contains invalid characters under NFKC normalization"))
    else Return tt.

(** [urlsplit(url)]: scheme, netloc, path, query, fragment. *)
Definition urlsplit (url : str) : outcome (str * str * str * str * str) :=
  let url := dropwhile is_c0_control_or_space url in
  let url := remove_unsafe url in
  let i := find url (ord ":") in
  let '(scheme, url) :=
    if (0 <? i)%Z
       && match url with c :: _ => isascii c && is_ascii_alpha c | [] => false end
       && forallb is_scheme_char (slice url 0 (Z.to_nat i))
    then (map ascii_lower (slice url 0 (Z.to_nat i)),
          slice_from url (Z.to_nat i + 1))
    else ([], url) in
  let split_netloc :=
    if str_eqb (slice url 0 2) (lit "//") then
      let '(netloc, url) := _splitnetloc url 2 in
      if (contains netloc (ord "[") && negb (contains netloc (ord "]")))
         || (contains netloc (ord "]") && negb (contains netloc (ord "[")))
      then Raise invalid_ipv6_url
      else if contains netloc (ord "[") && contains netloc (ord "]") then
        match _check_bracketed_netloc netloc with
        | Raise e => Raise e
        | Return _ => Return (netloc, url)
        end
      else Return (netloc, url)
    else Return ([], url) in
  match split_netloc with
  | Raise e => Raise e
  | Return (netloc, url) =>
      let '(url, fragment) :=
        if contains url (ord "#") then split1 (ord "#") url else (url, []) in
      let '(url, query) :=
        if contains url (ord "?") then split1 (ord "?") url else (url, []) in
      match _checknetloc netloc with
      | Raise e => Raise e
      | Return _ => Return (scheme, netloc, url, query, fragment)
      end
  end.

(** [_splitparams(url)], for a [url] in which [;] occurs. *)
Definition _splitparams (url : str) : str * str :=
  if contains url (ord "/") then
    let i := find_from url (ord ";") (Z.to_nat (rfind url (ord "/"))) in
    if (i <? 0)%Z then (url, [])
    else (slice url 0 (Z.to_nat i), slice_from url (Z.to_nat i + 1))
  else
    let i := find url (ord ";") in
    (slice url 0 (Z.to_nat i), slice_from url (Z.to_nat i + 1)).

(** [urlparse(url)]. *)
Definition urlparse (url : str) : outcome ParseResult :=
  match urlsplit url with
  | Raise e => Raise e
  | Return (scheme, netloc, url, query, fragment) =>
      let '(url, params) :=
        if existsb (str_eqb scheme) uses_params && contains url (ord ";")
        then _splitparams url else (url, []) in
      Return {| scheme := scheme; netloc := netloc; path := url;
                params := params; query := query; fragment := fragment |}
  end.

(** The first component of [_hostinfo]. *)
Definition _hostinfo (r : ParseResult) : str :=
  let '(_, _, hostinfo) := rpartition (ord "@") (netloc r) in
  let '(_, have_open_br, bracketed) := partition (ord "[") hostinfo in
  if have_open_br then
    let '(hostname, _, _) := partition (ord "]") bracketed in hostname
  else
    let '(hostname, _, _) := partition (ord ":") hostinfo in hostname.

(** The [hostname] property. *)
Definition hostname (r : ParseResult) : option str :=
  match _hostinfo r with
  | [] => None
  | h =>
      let '(h', percent, zone) := partition (ord "%") h in
      Some (lower T h' ++ (if percent then [ord "%"] else []) ++ zone)
  end.

End WithTables.

(** [bytes.decode('utf-8', 'replace')]: an ill-formed sequence is replaced
    by U+FFFD up to its first offending byte. *)
Definition is_continuation (b : N) : bool := ((128 <=? b) && (b <? 192))%N.
Definition replacement : char := 65533%N.

Fixpoint utf8_decode_replace (bs : list N) : str :=
  match bs with
  | [] => []
  | b0 :: r0 =>
      let invalid_start := replacement :: utf8_decode_replace r0 in
      if (b0 <? 128)%N then b0 :: utf8_decode_replace r0
      else if (b0 <? 194)%N then invalid_start
      else if (b0 <? 224)%N then
        match r0 with
        | [] => [replacement]
        | b1 :: r1 =>
            if is_continuation b1
            then ((b0 - 192) * 64 + (b1 - 128))%N :: utf8_decode_replace r1
            else invalid_start
        end
      else if (b0 <? 240)%N then
        match r0 with
        | [] => [replacement]
        | b1 :: r1 =>
            if negb (is_continuation b1)
               || (if (b1 <? 160)%N then (b0 =? 224)%N else (b0 =? 237)%N)
            then invalid_start
            else
              match r1 with
              | [] => [replacement]
              | b2 :: r2 =>
                  if is_continuation b2
                  then (((b0 - 224) * 64 + (b1 - 128)) * 64 + (b2 - 128))%N
                         :: utf8_decode_replace r2
                  else replacement :: utf8_decode_replace r1
              end
        end
      else if (b0 <? 245)%N then
        match r0 with
        | [] => [replacement]
        | b1 :: r1 =>
            if negb (is_continuation b1)
               || (if (b1 <? 144)%N then (b0 =? 240)%N else (b0 =? 244)%N)
            then invalid_start
            else
              match r1 with
              | [] => [replacement]
              | b2 :: r2 =>
                  if negb (is_continuation b2)
                  then replacement :: utf8_decode_replace r1
                  else
                    match r2 with
                    | [] => [replacement]
                    | b3 :: r3 =>
                        if is_continuation b3
                        then ((((b0 - 240) * 64 + (b1 - 128)) * 64
                               + (b2 - 128)) * 64 + (b3 - 128))%N
                               :: utf8_decode_replace r3
                        else replacement :: utf8_decode_replace r2
                    end
              end
        end
      else invalid_start
  end.

(** [unquote_to_bytes(string)] for an ASCII [string]. *)
Definition unquote_to_bytes (string : str) : list N :=
  match split (ord "%") string with
  | first :: ((_ :: _) as items) =>
      first ++
      flat_map
        (fun item =>
           match item with
           | h1 :: h2 :: rest =>
               match hex_val h1, hex_val h2 with
               | Some a, Some b => (a * 16 + b)%N :: rest
               | _, _ => ord "%" :: item
               end
           | _ => ord "%" :: item
           end) items
  | _ => string
  end.

(** The loop of [unquote] over [_asciire.split(string)]: each maximal run
    of ASCII characters is unquoted and decoded, the other characters are
    kept.  [run] is the current ASCII run, last character first. *)
Fixpoint unquote_runs (s : str) (run : str) : str :=
  match s with
  | [] => utf8_decode_replace (unquote_to_bytes (rev run))
  | c :: s' =>
      if isascii c then unquote_runs s' (c :: run)
      else utf8_decode_replace (unquote_to_bytes (rev run))
             ++ c :: unquote_runs s' []
  end.

(** [unquote(string)]. *)
Definition unquote (string : str) : str :=
  if negb (contains string (ord "%")) then string
  else unquote_runs string [].

(** [parse_qsl(qs)]. *)
Definition parse_qsl (qs : str) : list (str * str) :=
  let query_args := match qs with [] => [] | _ => split (ord "&") qs end in
  flat_map
    (fun name_value =>
       match name_value with
       | [] => []
       | _ =>
           match partition (ord "=") name_value with
           | (_, false, _) => []
           | (nv0, true, nv1) =>
               match nv1 with
               | [] => []
               | _ =>
                   [(unquote (replace_char (ord "+") (ord " ") nv0),
                     unquote (replace_char (ord "+") (ord " ") nv1))]
               end
           end
       end) query_args.

(** [parse_qs(qs)]: a [dict] from names to the list of their values. *)
Definition parse_qs (qs : str) : list (str * list str) :=
  fold_left
    (fun parsed_result '(name, value) =>
       match dict_get parsed_result name with
       | Some values => dict_setitem parsed_result name (values ++ [value])
       | None => dict_setitem parsed_result name [value]
       end)
    (parse_qsl qs) [].

End Urllib.
Import Urllib.

(* ================================================================= *)
(** ** Effects

    The program prints to the console and calls two external services.  A
    computation takes the trace of the events so far and gives an outcome
    and the extended trace.  Calls of [json.loads] are recorded as well, so
    that the number and the order of parse attempts can be stated. *)

Module Effects.

Inductive event :=
| Printed (line : str)
| CalledGetTranscript (video_id : str) (languages : list str)
| CalledGenerateContent (prompt : str)
| CalledJsonLoads (s : str).

Definition trace := list event.

Definition M (A : Type) : Type := trace -> outcome A * trace.

Definition ret (A : Type) (a : A) : M A := fun tr => (Return a, tr).

Definition raise (A : Type) (e : exn) : M A := fun tr => (Raise e, tr).

Definition bind (A B : Type) (m : M A) (k : A -> M B) : M B :=
  fun tr =>
    match m tr with
    | (Return a, tr') => k a tr'
    | (Raise e, tr') => (Raise e, tr')
    end.

(** An event, then the outcome of the call it records. *)
Definition perform (A : Type) (ev : event) (res : outcome A) : M A :=
  fun tr => (res, tr ++ [ev]).

(** [print(line)]. *)
Definition print (line : str) : M unit := perform (Printed line) (Return tt).

(** The outcome of a pure expression. *)
Definition lift (A : Type) (res : outcome A) : M A := fun tr => (res, tr).

(** [try: body except C as e: handler(e)], [handles e] telling whether [e]
    is an instance of [C]. *)
Definition try_except (A : Type) (body : M A) (handles : exn -> bool)
  (handler : exn -> M A) : M A :=
  fun tr =>
    match body tr with
    | (Raise e, tr') => if handles e then handler e tr' else (Raise e, tr')
    | r => r
    end.

(** All the exceptions of the model are instances of [Exception]. *)
Definition is_Exception (e : exn) : bool := true.

End Effects.
Import Effects.

Declare Scope py_scope.
Delimit Scope py_scope with py.
Notation "x <- m ;; k" := (bind m (fun x => k))
  (at level 61, m at next level, right associativity) : py_scope.
Notation "m ;;; k" := (bind m (fun _ => k))
  (at level 61, right associativity) : py_scope.
Open Scope py_scope.

(* ================================================================= *)
(** ** The application *)

Module App.

(** One caption fragment of the transcript service; the program reads its
    ['text'] only. *)
Record caption := { text : str }.

(** The object [gemini_model.generate_content] returns; reading its [text]
    property may raise. *)
Record llm_response := { response_text : outcome str }.

(** The external collaborators. *)
Record services := {
  (** [YouTubeTranscriptApi.get_transcript(video_id, languages=...)] *)
  youtube_get_transcript : str -> list str -> outcome (list caption);
  (** [gemini_model.generate_content(prompt)] *)
  generate_content : str -> outcome llm_response
}.

Inductive http_method := GET | POST.

(** A request to [/]: its method and [request.form.get("video_url")]. *)
Record index_request := {
  method : http_method;
  form_video_url : option str
}.

(** A request to [/ask_question]: what [request.get_json()] gives, the
    value of the JSON body ([None] for the body [null]) or the exception
    Flask raises on a body that is not JSON. *)
Record ask_request := { get_json : outcome pyvalue }.

Inductive response :=
| PlainText (body : str) (status : nat)
| RenderTemplate (name : str) (analysis : option pyvalue)
| Jsonify (payload : pyvalue) (status : nat).

(** [x in l] for [x] a [str] or [None] and [l] a list of [str]. *)
Definition opt_in (x : option str) (l : list str) : bool :=
  match x with
  | Some s => existsb (str_eqb s) l
  | None => false
  end.

Definition quoted (s : string) : str := [dq] ++ lit s ++ [dq].
Arguments quoted s%_string.

(** The f-string of [analyze_transcript]. *)
Definition analysis_prompt (transcript : str) : str :=
  join [newline]
    [ [];
      lit "    Analyze the following YouTube video transcript and return your response as a strict JSON object with the following structure:";
      [];
      lit "    {";
      lit "      " ++ quoted "summary" ++ lit ": "
        ++ quoted "A concise summary of the video content." ++ lit ",";
      lit "      " ++ quoted "keypoints" ++ lit ": ["
        ++ quoted "Important point 1" ++ lit ", "
        ++ quoted "Important point 2" ++ lit ", ...],";
      lit "      " ++ quoted "topics" ++ lit ": [" ++ quoted "Topic 1"
        ++ lit ", " ++ quoted "Topic 2" ++ lit ", ...],";
      lit "      " ++ quoted "topic_explanations" ++ lit ": {";
      lit "        " ++ quoted "Topic 1" ++ lit ": "
        ++ quoted "A brief explanation of Topic 1 based on the transcript."
        ++ lit ",";
      lit "        " ++ quoted "Topic 2" ++ lit ": "
        ++ quoted "A brief explanation of Topic 2 based on the transcript."
        ++ lit ",";
      lit "        ...";
      lit "      },";
      lit "      " ++ quoted "transcript" ++ lit ": "
        ++ quoted "The full transcript of the video.";
      lit "    }";
      [];
      lit "    For each topic identified, provide a concise explanation of two to three lines based on the information present in the transcript.";
      [];
      lit "    Transcript: " ++ transcript;
      lit "    " ].

(** The f-string of [answer_question]. *)
Definition answer_prompt (question transcript : str) : str :=
  join [newline]
    [ [];
      lit "    Based on the following YouTube video transcript, answer the question asked by the user.";
      lit "    Keep your answer concise and directly related to the content of the transcript.";
      [];
      lit "    Transcript: " ++ transcript;
      [];
      lit "    Question: " ++ question;
      [];
      lit "    Answer:";
      lit "    " ].

(** [{"error": message}]. *)
Definition error_dict (message : str) : pyvalue :=
  PyDict [(lit "error", PyStr message)].

Definition fallback_answer : str :=
  lit "Sorry, I could not generate an answer at this time.".

Section Program.

Variable T : tables.
Variable py : interpreter.
Variable svc : services.

(** [extract_video_id(url)]. *)
Definition extract_video_id (url : str) : outcome (option str) :=
  match urlparse T url with
  | Raise e => Raise e
  | Return parsed_url =>
      if opt_in (hostname T parsed_url) [lit "youtu.be"]
      then Return (Some (slice_from (path parsed_url) 1))
      else if opt_in (hostname T parsed_url)
                [lit "www.youtube.com"; lit "youtube.com"]
      then
        if str_eqb (path parsed_url) (lit "/watch") then
          let qs := parse_qs (query parsed_url) in
          getitem (match dict_get qs (lit "v") with
                   | Some values => map Some values
                   | None => [None]
                   end) 0
        else if startswith (path parsed_url) (lit "/embed/") then
          match getitem (split (ord "/") (path parsed_url)) 2 with
          | Return seg => Return (Some seg)
          | Raise e => Raise e
          end
        else if startswith (path parsed_url) (lit "/v/") then
          match getitem (split (ord "/") (path parsed_url)) 2 with
          | Return seg => Return (Some seg)
          | Raise e => Raise e
          end
        else Return None
      else Return None
  end.

(** [get_transcript(video_id, lang_code)]. *)
Definition get_transcript (video_id lang_code : str) : M (option str) :=
  try_except
    (transcript_list <-
       perform (CalledGetTranscript video_id [lang_code])
         (youtube_get_transcript svc video_id [lang_code]) ;;
     let transcript := join (lit " ") (map text transcript_list) in
     ret (Some transcript))
    is_Exception
    (fun e =>
       print (lit "Error fetching transcript: " ++ exn_str e) ;;;
       ret None).

(** [json.loads(s)], recorded in the trace. *)
Definition loads (s : str) : M pyvalue :=
  perform (CalledJsonLoads s) (json_loads py s).

(** The [while temp_string:] loop of [analyze_transcript]: [Some] of the
    value the loop returns from the function with, [None] when the loop
    ends.  [fuel] bounds the iterations; the length of [temp_string] is
    enough ([refine_fuel]).  An exception of [json.loads] that is not a
    [JSONDecodeError] leaves the loop and the function's inner [try]
    statements. *)
Fixpoint refine (fuel : nat) (temp_string : str) : M (option pyvalue) :=
  match fuel, temp_string with
  | S fuel', _ :: _ =>
      try_except
        (analysis <- loads temp_string ;; ret (Some analysis))
        is_JSONDecodeError
        (fun _ => refine fuel' (drop_last temp_string))
  | _, _ => ret None
  end.

(** The inner [try] statement of [analyze_transcript] (the block under
    "Attempt more robust JSON parsing"), run on the trimmed text. *)
Definition json_recovery (raw_text : str) : M pyvalue :=
  try_except
    (let start_index := find raw_text (ord "{") in
     let end_index := rfind raw_text (ord "}") in
     if negb (start_index =? -1)%Z && negb (end_index =? -1)%Z
        && (start_index <? end_index)%Z
     then
       let json_string :=
         slice raw_text (Z.to_nat start_index) (Z.to_nat (end_index + 1)) in
       try_except
         (loads json_string)
         is_JSONDecodeError
         (fun e_inner =>
            found <- refine (length json_string) json_string ;;
            match found with
            | Some analysis => ret analysis
            | None =>
                print (lit "JSON Decode Error (Iterative Refinement): "
                         ++ exn_str e_inner) ;;;
                ret (error_dict
                       (lit "The model's response was not valid JSON after refinement: "
                          ++ exn_str e_inner))
            end)
     else
       print (lit "Could not find valid JSON boundaries in the raw response.") ;;;
       ret (error_dict (lit "The model's response did not contain valid JSON.")))
    is_JSONDecodeError
    (fun json_err =>
       print (lit "JSON Decode Error (Robust Parsing): " ++ exn_str json_err) ;;;
       ret (error_dict
              (lit "The model's response was not valid JSON: "
                 ++ exn_str json_err))).

(** [analyze_transcript(transcript)]. *)
Definition analyze_transcript (transcript : str) : M pyvalue :=
  let prompt := analysis_prompt transcript in
  try_except
    (response <-
       perform (CalledGenerateContent prompt) (generate_content svc prompt) ;;
     text <- lift (response_text response) ;;
     let raw_text := strip text in
     print (lit "Raw Gemini Response (Analysis):" ++ [newline] ++ lit " "
              ++ raw_text) ;;;
     json_recovery raw_text)
    is_Exception
    (fun e =>
       print (lit "Gemini API error (Analysis): " ++ exn_str e) ;;;
       ret (error_dict (exn_str e))).

(** [answer_question(question, transcript)]. *)
Definition answer_question (question transcript : str) : M str :=
  let prompt := answer_prompt question transcript in
  try_except
    (response <-
       perform (CalledGenerateContent prompt) (generate_content svc prompt) ;;
     text <- lift (response_text response) ;;
     ret (strip text))
    is_Exception
    (fun e =>
       print (lit "Gemini API error (Answering): " ++ exn_str e) ;;;
       ret fallback_answer).

(** The two statements of [index] that fetch the transcript: English
    first, Hindi when the English result is falsy. *)
Definition fetch_with_fallback (video_id : str) : M (option str) :=
  transcript <- get_transcript video_id (lit "en") ;;
  if negb (truthy_opt transcript)
  then get_transcript video_id (lit "hi")
  else ret transcript.

(** The [if analysis:] statement of [index]. *)
Definition respond_analysis (analysis : pyvalue) : response :=
  if truthy analysis
  then RenderTemplate (lit "result.html") (Some analysis)
  else PlainText
         (lit "Error analyzing the transcript using Google Gemini API.") 500.

(** The handler of [/].  [extract_video_id(None)], for a form without
    [video_url], is [None]: [urlparse] reads [None] as the empty URL. *)
Definition index (request : index_request) : M response :=
  match method request with
  | POST =>
      let video_url := form_video_url request in
      video_id <- lift (match video_url with
                        | Some url => extract_video_id url
                        | None => Return None
                        end) ;;
      match video_id with
      | None | Some [] =>
          ret (PlainText (lit "Invalid YouTube URL provided.") 400)
      | Some video_id =>
          transcript <- fetch_with_fallback video_id ;;
          match transcript with
          | Some ((_ :: _) as transcript) =>
              analysis <- analyze_transcript transcript ;;
              ret (respond_analysis analysis)
          | _ =>
              ret (PlainText
                     (lit "Unable to extract transcript from the video. It may be unavailable in the specified languages.")
                     500)
          end
      end
  | GET => ret (RenderTemplate (lit "index.html") None)
  end.

(** [answer_question(question, transcript)] on arbitrary values: the
    f-string formats the transcript, then the question, before the [try]
    statement is entered. *)
Definition answer_question_of (question transcript : pyvalue) : M str :=
  transcript_text <- lift (format_value py transcript) ;;
  question_text <- lift (format_value py question) ;;
  answer_question question_text transcript_text.

(** The handler of [/ask_question]. *)
Definition ask_question_route (request : ask_request) : M response :=
  data <- lift (get_json request) ;;
  question <- lift (value_get data (lit "question")) ;;
  transcript <- lift (value_get data (lit "transcript")) ;;
  if negb (truthy question) || negb (truthy transcript)
  then ret (Jsonify (error_dict (lit "Missing question or transcript.")) 400)
  else
    answer <- answer_question_of question transcript ;;
    ret (Jsonify (PyDict [(lit "answer", PyStr answer)]) 200).

End Program.

End App.
Import App.

(* ================================================================= *)
(** * The vocabulary of the statements *)

(** ** Traces *)

(** A computation appends events to the trace, all of which satisfy [P]. *)
Definition emits (A : Type) (P : event -> Prop) (m : M A) : Prop :=
  forall tr, exists evs, snd (m tr) = tr ++ evs /\ Forall P evs.

(** The calls of the transcript service in a list of events: the video and
    the languages of each, in order. *)
Definition transcript_calls (evs : list event) : list (str * list str) :=
  flat_map (fun ev => match ev with
                      | CalledGetTranscript video_id languages =>
                          [(video_id, languages)]
                      | _ => []
                      end) evs.

(** The event is not a call of the transcript service. *)
Definition not_transcript_call (ev : event) : Prop :=
  match ev with
  | CalledGetTranscript _ _ => False
  | _ => True
  end.

(** The event is not a call of [json.loads], or it is one on a text that
    begins with [{]. *)
Definition loads_only_objects (ev : event) : Prop :=
  match ev with
  | CalledJsonLoads p => startswith p (lit "{") = true
  | _ => True
  end.

(** ** The JSON recovery *)

(** The local variables [start_index] and [end_index] of the recovery. *)
Definition start_index (raw_text : str) : Z := find raw_text (ord "{").
Definition end_index (raw_text : str) : Z := rfind raw_text (ord "}").

(** The test [start_index != -1 and end_index != -1 and
    start_index < end_index]. *)
Definition has_boundaries (raw_text : str) : bool :=
  negb (start_index raw_text =? -1)%Z && negb (end_index raw_text =? -1)%Z
  && (start_index raw_text <? end_index raw_text)%Z.

(** The local variable [json_string]: the text from the first [{] to the
    last [}]. *)
Definition candidate (raw_text : str) : str :=
  slice raw_text (Z.to_nat (start_index raw_text))
    (Z.to_nat (end_index raw_text + 1)).

(** [firstn k c], [firstn (k - 1) c], ..., [firstn n c]: what is left of
    [firstn k c] while its final character is removed [k - n] times. *)
Fixpoint prefixes_down (k n : nat) (c : str) : list str :=
  match k with
  | O => []
  | S k' => if k <? n then [] else firstn k c :: prefixes_down k' n c
  end.

(** The lines [analyze_transcript] prints and the error records it
    returns. *)
Definition msg_raw_response (raw_text : str) : str :=
  lit "Raw Gemini Response (Analysis):" ++ [newline] ++ lit " " ++ raw_text.
Definition msg_llm_error (e : exn) : str :=
  lit "Gemini API error (Analysis): " ++ exn_str e.
Definition msg_no_boundaries : str :=
  lit "Could not find valid JSON boundaries in the raw response.".
Definition err_no_json : pyvalue :=
  error_dict (lit "The model's response did not contain valid JSON.").
Definition msg_refinement (e_inner : exn) : str :=
  lit "JSON Decode Error (Iterative Refinement): " ++ exn_str e_inner.
Definition err_refinement (e_inner : exn) : pyvalue :=
  error_dict (lit "The model's response was not valid JSON after refinement: "
                ++ exn_str e_inner).

(** The text [Here is the result: {"summary":"ok"} trailing junk]. *)
Definition example_raw : str :=
  lit "Here is the result: {" ++ quoted "summary" ++ lit ":" ++ quoted "ok"
    ++ lit "} trailing junk".

(** The text [{"summary":"ok"}]. *)
Definition example_json : str :=
  lit "{" ++ quoted "summary" ++ lit ":" ++ quoted "ok" ++ lit "}".

(** The text [{"a"}]: an object cut short between the first [{] and the
    last [}]. *)
Definition truncated_json : str := lit "{" ++ quoted "a" ++ lit "}".

(** The text [{"n":10...0.5x}] with 4300 zeros: without its last three
    characters it ends with an integer of 4301 digits. *)
Definition long_integer_json : str :=
  lit "{" ++ quoted "n" ++ lit ":1" ++ repeat (ord "0") 4300 ++ lit ".5x}".

(** What [json.loads] raises on [{"a"}], and on [{]. *)
Definition first_error_of_truncated : exn :=
  JSONDecodeError msg_colon truncated_json 4.
Definition last_error_of_truncated : exn :=
  JSONDecodeError msg_property_name (lit "{") 1.

(** ** The transcript fetcher *)

(** The fragments' texts with one space between consecutive ones, each
    text as it is. *)
Fixpoint space_joined (texts : list str) : str :=
  match texts with
  | [] => []
  | t :: rest =>
      match rest with
      | [] => t
      | _ :: _ => t ++ lit " " ++ space_joined rest
      end
  end.

(** What [get_transcript] returns for a video and a language. *)
Definition fetched (svc : services) (video_id lang_code : str) : option str :=
  match youtube_get_transcript svc video_id [lang_code] with
  | Return transcript_list => Some (space_joined (map text transcript_list))
  | Raise _ => None
  end.

(** What [get_transcript] adds to the trace: the call of the service, and
    the line printed when the service raises. *)
Definition fetch_events (svc : services) (video_id lang_code : str)
  : list event :=
  CalledGetTranscript video_id [lang_code]
  :: match youtube_get_transcript svc video_id [lang_code] with
     | Return _ => []
     | Raise e => [Printed (lit "Error fetching transcript: " ++ exn_str e)]
     end.

(** ** The handlers *)

(** A POST of the form with [video_url = url]. *)
Definition post (url : str) : index_request :=
  {| method := POST; form_video_url := Some url |}.

(** The answer of [index] when no transcript was fetched. *)
Definition unavailable : response :=
  PlainText
    (lit "Unable to extract transcript from the video. It may be unavailable in the specified languages.")
    500.

(** ** Services and tables to run the program on *)

(** An LLM that answers [raw] to every prompt, and a transcript service
    that has two caption fragments for every video. *)
Definition constant_services (raw : str) : services := {|
  youtube_get_transcript := fun _ _ =>
    Return [ {| text := lit "hello" |}; {| text := lit "world" |} ];
  generate_content := fun _ => Return {| response_text := Return raw |}
|}.

(** A transcript service with an empty English caption track and a Hindi
    one. *)
Definition empty_english_services : services := {|
  youtube_get_transcript := fun _ languages =>
    match languages with
    | [lang] => if str_eqb lang (lit "en") then Return []
                else Return [ {| text := lit "namaste" |} ]
    | _ => Raise (OtherException (lit "no transcript"))
    end;
  generate_content := fun _ => Return {| response_text := Return example_raw |}
|}.

(** An interpreter with the room of a call at the top of a script; its
    [str] knows [None] and the booleans, the examples format no other value
    that is not a [str]. *)
Definition script_interpreter : interpreter := {|
  nesting_room := 993;
  str_of_value := fun v =>
    match v with
    | PyNone => Return (lit "None")
    | PyBool true => Return (lit "True")
    | PyBool false => Return (lit "False")
    | PyStr s => Return s
    | _ => Raise (OtherException (lit "str of this value is not tabulated"))
    end
|}.

(** Tables for URLs whose host is ASCII and not in brackets: on such URLs
    [urlparse] consults none of them. *)
Definition ascii_tables : tables := {|
  unicode_lower := map ascii_lower;
  normalize_NFKC := fun s => s;
  ip_address := fun s =>
    Raise (ValueError (s ++ lit " does not appear to be an IPv4 or IPv6 address"))
|}.

(** ** The URL resolver *)

(** The values of the pairs named [k], in order. *)
Definition values_of (k : str) (pairs : list (str * str)) : list str :=
  map snd (filter (fun nv => str_eqb (fst nv) k) pairs).

(** What [extract_video_id] returns on a URL that [urlparse] accepts, as a
    function of the parsed URL. *)
Definition resolve (T : tables) (parsed_url : ParseResult) : option str :=
  let host := hostname T parsed_url in
  if opt_in host [lit "youtu.be"] then Some (slice_from (path parsed_url) 1)
  else if opt_in host [lit "www.youtube.com"; lit "youtube.com"] then
    if str_eqb (path parsed_url) (lit "/watch")
    then hd_error (values_of (lit "v") (parse_qsl (query parsed_url)))
    else if startswith (path parsed_url) (lit "/embed/")
            || startswith (path parsed_url) (lit "/v/")
    then nth_error (split (ord "/") (path parsed_url)) 2
    else None
  else None.

(** [unquote_plus]: [+] is read as a space, then percent-escapes are
    decoded. *)
Definition unquote_plus (s : str) : str :=
  unquote (replace_char (ord "+") (ord " ") s).

(** A field of the query counts when it has an [=] and a value that is not
    empty; its name and its value are what stands before and after the
    first [=], decoded. *)
Definition field (name_value : str) : option (str * str) :=
  match partition (ord "=") name_value with
  | (name, true, (_ :: _) as value) =>
      Some (unquote_plus name, unquote_plus value)
  | _ => None
  end.

(** The value of the first field that counts and is named [v]. *)
Fixpoint first_v (fields : list str) : option str :=
  match fields with
  | [] => None
  | f :: rest =>
      match field f with
      | Some (name, value) =>
          if str_eqb name (lit "v") then Some value else first_v rest
      | None => first_v rest
      end
  end.

(** The beginning of a watch URL. *)
Definition watch_prefix : str := lit "https://www.youtube.com/watch?v=".

(** The characters that a video identifier may hold for the resolver to
    return it as it is written: not [%] and [+] (decoded), not [#] and [&]
    (delimiters), not tab, line feed and carriage return (removed). *)
Definition plain_char (c : char) : bool :=
  negb (existsb (chr_eqb c)
          [ord "%"; ord "+"; ord "#"; ord "&"; 9%N; 10%N; 13%N]).

(** The part of [s] before its first [#], and the part after it. *)
Definition before_hash (s : str) : str :=
  match index_of (ord "#") s with
  | Some i => firstn i s
  | None => s
  end.

Definition after_hash (s : str) : str :=
  match index_of (ord "#") s with
  | Some i => skipn (S i) s
  | None => []
  end.

(** The steps of [urlsplit]: the scheme, the netloc, the fragment and the
    query are split off in turn ([urlsplit_eq]). *)
Definition scheme_split (url : str) : str * str :=
  let i := find url (ord ":") in
  if (0 <? i)%Z
     && match url with c :: _ => isascii c && is_ascii_alpha c | [] => false end
     && forallb is_scheme_char (slice url 0 (Z.to_nat i))
  then (map ascii_lower (slice url 0 (Z.to_nat i)),
        slice_from url (Z.to_nat i + 1))
  else ([], url).

Definition netloc_split (T : tables) (url : str) : outcome (str * str) :=
  if str_eqb (slice url 0 2) (lit "//") then
    let '(netloc, url) := _splitnetloc url 2 in
    if (contains netloc (ord "[") && negb (contains netloc (ord "]")))
       || (contains netloc (ord "]") && negb (contains netloc (ord "[")))
    then Raise invalid_ipv6_url
    else if contains netloc (ord "[") && contains netloc (ord "]") then
      match _check_bracketed_netloc T netloc with
      | Raise e => Raise e
      | Return _ => Return (netloc, url)
      end
    else Return (netloc, url)
  else Return ([], url).

Definition fragment_split (url : str) : str * str :=
  if contains url (ord "#") then split1 (ord "#") url else (url, []).

Definition query_split (url : str) : str * str :=
  if contains url (ord "?") then split1 (ord "?") url else (url, []).

(** ** What the handlers call and answer *)

(** The calls of the LLM in a list of events: the prompt of each, in
    order. *)
Definition llm_calls (evs : list event) : list str :=
  flat_map (fun ev => match ev with
                      | CalledGenerateContent prompt => [prompt]
                      | _ => []
                      end) evs.

(** The event is a printed line or a call of [json.loads]: no call of an
    external service. *)
Definition local_event (ev : event) : Prop :=
  match ev with
  | Printed _ | CalledJsonLoads _ => True
  | _ => False
  end.

(** The answer of [index] to a URL it cannot resolve. *)
Definition invalid_url : response :=
  PlainText (lit "Invalid YouTube URL provided.") 400.

(** The answer of [ask_question_route] to a body without a question or
    without a transcript. *)
Definition missing_fields : response :=
  Jsonify (error_dict (lit "Missing question or transcript.")) 400.

(** The transcript [index] goes on with: the English one unless it is
    absent or empty, the Hindi one then. *)
Definition chosen_transcript (svc : services) (video_id : str) : option str :=
  if truthy_opt (fetched svc video_id (lit "en"))
  then fetched svc video_id (lit "en")
  else fetched svc video_id (lit "hi").

(** What the two fetches of [index] add to the trace. *)
Definition fetches (svc : services) (video_id : str) : list event :=
  if truthy_opt (fetched svc video_id (lit "en"))
  then fetch_events svc video_id (lit "en")
  else fetch_events svc video_id (lit "en")
       ++ fetch_events svc video_id (lit "hi").

(** An LLM that fails with [e] on every prompt, and a transcript service
    that has two caption fragments for every video. *)
Definition failing_llm_services (e : exn) : services := {|
  youtube_get_transcript := fun _ _ =>
    Return [ {| text := lit "hello" |}; {| text := lit "world" |} ];
  generate_content := fun _ => Raise e
|}.

(** A transcript service without captions in any language. *)
Definition no_caption_services : services := {|
  youtube_get_transcript := fun _ _ =>
    Raise (OtherException (lit "no transcript"));
  generate_content := fun _ => Return {| response_text := Return example_raw |}
|}.

(** ** URLs with a plain host *)

(** A scheme as [urlsplit] recognises one: an ASCII letter first, then
    letters, digits, [+], [-] and [.]. *)
Definition valid_scheme (s : str) : bool :=
  match s with
  | c :: _ => isascii c && is_ascii_alpha c
  | [] => false
  end && forallb is_scheme_char s.

(** A character of a plain host name: ASCII, none of the delimiters of a
    URL or of a netloc, none of the characters [urlsplit] removes. *)
Definition host_char (c : char) : bool :=
  isascii c
  && negb (existsb (chr_eqb c)
             [ord "/"; ord "?"; ord "#"; ord "["; ord "]"; ord "@"; ord ":";
              ord "%"; 9%N; 10%N; 13%N]).

(** What follows the host in a URL: nothing, or a path, a query or a
    fragment. *)
Definition starts_component (r : str) : bool :=
  match r with
  | [] => true
  | c :: _ => existsb (chr_eqb c) [ord "/"; ord "?"; ord "#"]
  end.

(** What follows the path in a URL: nothing, or a query or a fragment. *)
Definition starts_query_or_fragment (r : str) : bool :=
  match r with
  | [] => true
  | c :: _ => existsb (chr_eqb c) [ord "?"; ord "#"]
  end.

(** A character that [urlparse] leaves in the path: not [?], [#] and [;]
    (delimiters), not tab, line feed and carriage return (removed). *)
Definition path_char (c : char) : bool :=
  negb (existsb (chr_eqb c) [ord "?"; ord "#"; ord ";"; 9%N; 10%N; 13%N]).

(** A character of one segment of the path. *)
Definition segment_char (c : char) : bool :=
  path_char c && negb (chr_eqb c (ord "/")).

(** The path, the query and the fragment [urlsplit] reads in what follows
    the host. *)
Definition path_of (r : str) : str :=
  fst (query_split (fst (fragment_split (remove_unsafe r)))).
Definition query_of (r : str) : str :=
  snd (query_split (fst (fragment_split (remove_unsafe r)))).
Definition fragment_of (r : str) : str :=
  snd (fragment_split (remove_unsafe r)).

(** The step of [urlparse] that splits the parameters off the path. *)
Definition params_split (scheme url : str) : str * str :=
  if existsb (str_eqb scheme) uses_params && contains url (ord ";")
  then _splitparams url else (url, []).

(** What follows a segment of the path: nothing, or the next segment. *)
Definition starts_segment (r : str) : bool :=
  match r with
  | [] => true
  | c :: _ => chr_eqb c (ord "/")
  end.

(** No two consecutive slashes. *)
Fixpoint no_double_slash (s : str) : bool :=
  match s with
  | a :: ((b :: _) as s') =>
      negb (chr_eqb a (ord "/") && chr_eqb b (ord "/")) && no_double_slash s'
  | _ => true
  end.

(** What [extract_video_id] returns for a host in lower case, a path and a
    query. *)
Definition resolve_parts (host path query : str) : option str :=
  if str_eqb host (lit "youtu.be") then Some (slice_from path 1)
  else if str_eqb host (lit "www.youtube.com") || str_eqb host (lit "youtube.com")
  then
    if str_eqb path (lit "/watch") then first_v (split (ord "&") query)
    else if startswith path (lit "/embed/") || startswith path (lit "/v/")
    then nth_error (split (ord "/") path) 2
    else None
  else None.

(** ** The scanner of [json.loads] *)

(** The exceptions of [json.loads] that are not [JSONDecodeError]: the
    [ValueError] of an integer of more than [int_max_str_digits] digits, and
    the [RecursionError] of an object or an array nested too deep. *)
Definition limit_error (e : exn) : Prop :=
  (exists digits,
      int_max_str_digits < digits /\ e = ValueError (msg_int_limit digits))
  \/ e = RecursionError (msg_too_deep (lit "object"))
  \/ e = RecursionError (msg_too_deep (lit "array")).

(** A character that may follow a value in an object or an array: JSON
    whitespace, [,], [}] or []]. *)
Definition is_delimiter (c : char) : bool :=
  is_json_ws c || chr_eqb c (ord ",") || chr_eqb c (ord "}")
  || chr_eqb c (ord "]").

(** There is a character at index [k] of [s], and it is a delimiter. *)
Definition delimited (s : str) (k : nat) : bool :=
  match nth_error s k with
  | Some c => is_delimiter c
  | None => false
  end.

(** The groups of [NUMBER_RE] as [match_number] reads them: the integer
    part at the head of [r0], the fraction at the head of [r2], the exponent
    at the head of [r4]. *)
Definition int_part (r0 : str) : option str :=
  match r0 with
  | [] => None
  | d :: r1 =>
      if chr_eqb d (ord "0") then Some [d]
      else if is_ascii_digit d then Some (d :: takewhile is_ascii_digit r1)
      else None
  end.

Definition frac_part (r2 : str) : str :=
  match r2 with
  | p :: ((f :: _) as r3) =>
      if chr_eqb p (ord ".") && is_ascii_digit f
      then p :: takewhile is_ascii_digit r3 else []
  | _ => []
  end.

Definition exp_part (r4 : str) : str :=
  match r4 with
  | e :: r5 =>
      if chr_eqb e (ord "e") || chr_eqb e (ord "E") then
        let '(sgn, r6) :=
          match r5 with
          | g :: r =>
              if chr_eqb g (ord "-") || chr_eqb g (ord "+")
              then ([g], r) else ([], r5)
          | [] => ([], r5)
          end in
        match takewhile is_ascii_digit r6 with
        | [] => []
        | ds => e :: sgn ++ ds
        end
      else []
  | [] => []
  end.

(** [match_number] after the sign. *)
Definition unsigned_number (neg : bool) (r0 : str)
  : option (outcome pyvalue * nat) :=
  match int_part r0 with
  | None => None
  | Some ints =>
      let r2 := skipn (length ints) r0 in
      let frac := frac_part r2 in
      let r4 := skipn (length frac) r2 in
      let exp := exp_part r4 in
      let sign := if neg then [ord "-"] else [] in
      let lexeme := sign ++ ints ++ frac ++ exp in
      match frac, exp with
      | [], [] =>
          if int_max_str_digits <? length ints
          then Some (Raise (ValueError (msg_int_limit (length ints))),
                     length lexeme)
          else
            let n := Z.of_N (N_of_digits ints 0) in
            Some (Return (PyInt (if neg then (- n)%Z else n)),
                  length lexeme)
      | _, _ => Some (Return (PyFloat (FLit lexeme)), length lexeme)
      end
  end.

(** The part of [scan_once] that reads a literal or a number at [idx],
    [nextchar] being the character there. *)
Definition scan_atom (s : str) (idx : nat) (nextchar : char)
  : scan_result pyvalue :=
  if chr_eqb nextchar (ord "n")
     && str_eqb (slice s idx (idx + 4)) (lit "null")
  then Scanned PyNone (idx + 4)
  else if chr_eqb nextchar (ord "t")
          && str_eqb (slice s idx (idx + 4)) (lit "true")
  then Scanned (PyBool true) (idx + 4)
  else if chr_eqb nextchar (ord "f")
          && str_eqb (slice s idx (idx + 5)) (lit "false")
  then Scanned (PyBool false) (idx + 5)
  else
    match match_number (skipn idx s) with
    | Some (Return res, len) => Scanned res (idx + len)
    | Some (Raise e, _) => Raised e
    | None =>
        if chr_eqb nextchar (ord "N")
           && str_eqb (slice s idx (idx + 3)) (lit "NaN")
        then Scanned (PyFloat FNaN) (idx + 3)
        else if chr_eqb nextchar (ord "I")
                && str_eqb (slice s idx (idx + 8)) (lit "Infinity")
        then Scanned (PyFloat FPosInf) (idx + 8)
        else if chr_eqb nextchar (ord "-")
                && str_eqb (slice s idx (idx + 9)) (lit "-Infinity")
        then Scanned (PyFloat FNegInf) (idx + 9)
        else StopIteration idx
    end.



(** The prefix of [s] that ends with its last [c]; empty when [c] does not
    occur in [s]. *)
Definition up_to_last (c : char) (s : str) : str :=
  match last_index_of c s with
  | Some i => firstn (S i) s
  | None => []
  end.

(** An answer in a Markdown fence, with a remark after it. *)
Definition fenced_body : str := quoted "summary" ++ lit ": " ++ quoted "ok".
Definition fenced_pre : str := lit "Sure! ```json" ++ [newline].
Definition fenced_post : str := [newline] ++ lit "``` (see {note} above)".

(* ================================================================= *)
(** * Properties *)

(** ** Strings *)

Lemma chr_eqb_eq (a b : char) : chr_eqb a b = true <-> a = b.
Proof. apply N.eqb_eq. Qed.

Lemma chr_eqb_refl (a : char) : chr_eqb a a = true.
Proof. apply N.eqb_refl. Qed.

Lemma chr_eqb_neq (a b : char) : chr_eqb a b = false <-> a <> b.
Proof. apply N.eqb_neq. Qed.

Lemma str_eqb_eq (a b : str) : str_eqb a b = true <-> a = b.
Proof.
  revert b; induction a as [|x a IH]; intros [|y b]; simpl.
  - split; reflexivity.
  - split; discriminate.
  - split; discriminate.
  - rewrite andb_true_iff, chr_eqb_eq, IH.
    split; [intros [-> ->]; reflexivity | intros H; inversion H; auto].
Qed.

Lemma str_eqb_refl (a : str) : str_eqb a a = true.
Proof. apply str_eqb_eq; reflexivity. Qed.

Lemma startswith_app (s p : str) :
  startswith s p = true <-> exists r, s = p ++ r.
Proof.
  revert s; induction p as [|y p IH]; intros s; simpl.
  - destruct s; split; eauto.
  - destruct s as [|x s]; simpl.
    + split; [discriminate | intros [r H]; discriminate].
    + rewrite andb_true_iff, chr_eqb_eq, IH. split.
      * intros [-> [r ->]]. exists r; reflexivity.
      * intros [r H]; inversion H; subst; eauto.
Qed.

Lemma index_of_not_in (c : char) (s : str) :
  index_of c s = None <-> ~ In c s.
Proof.
  induction s as [|x s IH]; simpl.
  - tauto.
  - destruct (chr_eqb x c) eqn:E.
    + apply chr_eqb_eq in E. split; [discriminate | intros H; exfalso; auto].
    + apply chr_eqb_neq in E. destruct (index_of c s); simpl.
      * split; [discriminate |].
        intros H; exfalso; apply H; right.
        destruct IH as [_ IH].
        destruct (in_dec N.eq_dec c s) as [Hin|Hnin]; [exact Hin|].
        specialize (IH Hnin); discriminate.
      * split; [| reflexivity]. intros _ [H|H]; [congruence |].
        destruct IH as [IH _]. apply IH; auto.
Qed.

Lemma last_index_of_not_in (c : char) (s : str) :
  last_index_of c s = None <-> ~ In c s.
Proof.
  induction s as [|x s IH]; simpl.
  - tauto.
  - destruct (last_index_of c s).
    + split; [discriminate |].
      intros H; exfalso; apply H; right.
      destruct (in_dec N.eq_dec c s) as [Hin|Hnin]; [exact Hin|].
      destruct IH as [_ IH]; specialize (IH Hnin); discriminate.
    + destruct (chr_eqb x c) eqn:E.
      * apply chr_eqb_eq in E. split; [discriminate | intros H; exfalso; auto].
      * apply chr_eqb_neq in E. split; [| reflexivity].
        intros _ [H|H]; [congruence |]. destruct IH as [IH _]; apply IH; auto.
Qed.

Lemma index_of_app (c : char) (a b : str) :
  index_of c (a ++ b) =
  match index_of c a with
  | Some i => Some i
  | None => option_map (Nat.add (length a)) (index_of c b)
  end.
Proof.
  induction a as [|x a IH]; simpl.
  - destruct (index_of c b); reflexivity.
  - destruct (chr_eqb x c); [reflexivity |].
    rewrite IH. destruct (index_of c a); simpl; [reflexivity |].
    destruct (index_of c b); reflexivity.
Qed.

Lemma last_index_of_app (c : char) (a b : str) :
  last_index_of c (a ++ b) =
  match last_index_of c b with
  | Some i => Some (length a + i)
  | None => last_index_of c a
  end.
Proof.
  induction a as [|x a IH]; simpl.
  - destruct (last_index_of c b); reflexivity.
  - rewrite IH. destruct (last_index_of c b); reflexivity.
Qed.

Lemma index_of_lt (c : char) (s : str) (i : nat) :
  index_of c s = Some i -> i < length s /\ nth_error s i = Some c.
Proof.
  revert i; induction s as [|x s IH]; simpl; intros i H; [discriminate |].
  destruct (chr_eqb x c) eqn:E.
  - inversion H; subst. apply chr_eqb_eq in E; subst. split; [lia | reflexivity].
  - destruct (index_of c s) as [j|]; simpl in H; [| discriminate].
    inversion H; subst. destruct (IH j eq_refl). split; [lia | assumption].
Qed.

(** *** Trimming *)

Lemma dropwhile_split (p : char -> bool) (s : str) :
  s = takewhile p s ++ dropwhile p s.
Proof.
  induction s as [|x s IH]; simpl; [reflexivity |].
  destruct (p x); simpl; [f_equal; exact IH | reflexivity].
Qed.

Lemma takewhile_all (p : char -> bool) (s : str) :
  forallb p (takewhile p s) = true.
Proof.
  induction s as [|x s IH]; simpl; [reflexivity |].
  destruct (p x) eqn:E; simpl; [rewrite E; exact IH | reflexivity].
Qed.

Lemma dropwhile_head (p : char -> bool) (s : str) (x : char) (r : str) :
  dropwhile p s = x :: r -> p x = false.
Proof.
  induction s as [|y s IH]; simpl; [discriminate |].
  destruct (p y) eqn:E; [exact IH |].
  intros H; inversion H; subst; exact E.
Qed.

(** [s.strip()] is [s] without a leading and a trailing run of
    whitespace, and neither begins nor ends with whitespace. *)
Lemma strip_spec (s : str) :
  exists ws1 ws2,
    s = ws1 ++ strip s ++ ws2
    /\ forallb isspace ws1 = true /\ forallb isspace ws2 = true
    /\ (forall x r, strip s = x :: r -> isspace x = false)
    /\ (forall x r, strip s = r ++ [x] -> isspace x = false).
Proof.
  unfold strip, rstrip, lstrip.
  pose (t := dropwhile isspace s).
  pose (w2 := rev (takewhile isspace (rev t))).
  change (dropwhile isspace s) with t.
  exists (takewhile isspace s), w2.
  assert (Ht : t = rev (dropwhile isspace (rev t)) ++ w2).
  { unfold w2. rewrite <- rev_app_distr, <- dropwhile_split, rev_involutive.
    reflexivity. }
  repeat split.
  - rewrite <- Ht. apply dropwhile_split.
  - apply takewhile_all.
  - rewrite forallb_forall. intros x Hx. apply in_rev in Hx.
    pose proof (takewhile_all isspace (rev t)) as H.
    rewrite forallb_forall in H. apply H, Hx.
  - intros x r H.
    apply (@dropwhile_head isspace s x (r ++ w2)).
    change (dropwhile isspace s) with t.
    etransitivity; [exact Ht |]. rewrite H. reflexivity.
  - intros x r H.
    apply (f_equal (@rev char)) in H.
    rewrite rev_involutive, rev_app_distr in H. simpl in H.
    eapply dropwhile_head; exact H.
Qed.

(** Trimming neither removes nor reorders the characters that are not
    whitespace: the searches of [json_recovery] give the same answers,
    shifted by the length [k] of the leading run. *)
Lemma find_strip (s : str) :
  exists k : nat, forall c : char,
    isspace c = false ->
    (find (strip s) c = -1 <-> find s c = -1)%Z
    /\ (rfind (strip s) c = -1 <-> rfind s c = -1)%Z
    /\ (find s c <> -1 -> find s c = find (strip s) c + Z.of_nat k)%Z
    /\ (rfind s c <> -1 -> rfind s c = rfind (strip s) c + Z.of_nat k)%Z.
Proof.
  destruct (strip_spec s) as (ws1 & ws2 & Hs & H1 & H2 & _).
  exists (length ws1). intros c Hc.
  assert (N1 : ~ In c ws1).
  { intros H. rewrite forallb_forall in H1. rewrite (H1 _ H) in Hc. discriminate. }
  assert (N2 : ~ In c ws2).
  { intros H. rewrite forallb_forall in H2. rewrite (H2 _ H) in Hc. discriminate. }
  unfold find, rfind.
  assert (I1 : index_of c ws1 = None) by (apply index_of_not_in; exact N1).
  assert (I2 : index_of c ws2 = None) by (apply index_of_not_in; exact N2).
  assert (L1 : last_index_of c ws1 = None) by (apply last_index_of_not_in; exact N1).
  assert (L2 : last_index_of c ws2 = None) by (apply last_index_of_not_in; exact N2).
  assert (Ei : index_of c s =
               option_map (Nat.add (length ws1)) (index_of c (strip s))).
  { rewrite Hs at 1. rewrite !index_of_app, I1, I2.
    destruct (index_of c (strip s)); reflexivity. }
  assert (El : last_index_of c s =
               option_map (Nat.add (length ws1)) (last_index_of c (strip s))).
  { rewrite Hs at 1. rewrite !last_index_of_app, L2.
    destruct (last_index_of c (strip s)); simpl; [reflexivity | exact L1]. }
  rewrite Ei, El.
  destruct (index_of c (strip s)) as [i|]; simpl;
    destruct (last_index_of c (strip s)) as [j|]; simpl;
    repeat split; intros; try lia; try congruence.
Qed.

Lemma firstn_extend (A : Type) (n : nat) (a t : list A) :
  n <= length a -> firstn n (a ++ t) = firstn n a.
Proof.
  intros H. rewrite firstn_app. replace (n - length a) with 0 by lia.
  cbn [firstn]. apply app_nil_r.
Qed.

(* ================================================================= *)
(** ** The JSON decoder *)

(** Case analysis on the scrutinee of the first [match] of a hypothesis. *)
Ltac break_match_in H :=
  match type of H with
  | context [match ?x with _ => _ end] => destruct x eqn:?; try discriminate H
  end.

(** *** An object is decoded to a [dict] *)

Lemma object_members_dict (fuel : nat) :
  forall depth s idx pairs v next,
    object_members fuel depth s idx pairs = Scanned v next ->
    exists d, v = PyDict d.
Proof.
  induction fuel as [|fuel IH]; intros depth s idx pairs v next H; simpl in H.
  - discriminate.
  - repeat break_match_in H.
    + inversion H; subst; eauto.
    + eapply IH; exact H.
Qed.

(** The scanner on an opening brace. *)
Lemma scan_once_object (fuel depth : nat) (s : str) (idx : nat) :
  nth_error s idx = Some (ord "{") ->
  scan_once (S fuel) (S depth) s idx =
  if char_is s (_w s (idx + 1)) (ord "}")
  then Scanned (PyDict []) (_w s (idx + 1) + 1)
  else object_members fuel depth s (_w s (idx + 1)) [].
Proof. intros H. simpl. rewrite H. reflexivity. Qed.

(** A document that begins with [{] decodes to a [dict], if it decodes. *)
Lemma json_loads_object (py : interpreter) (s : str) (v : pyvalue) :
  startswith s (lit "{") = true ->
  json_loads py s = Return v ->
  exists d, v = PyDict d.
Proof.
  intros Hs H. apply startswith_app in Hs. destruct Hs as [r ->].
  unfold json_loads in H.
  change (startswith (lit "{" ++ r) [65279%N]) with false in H.
  cbv iota in H.
  change (_w (lit "{" ++ r) 0) with 0 in H.
  unfold fuel_for in H.
  rewrite scan_once_object in H by reflexivity.
  destruct (if char_is _ _ _ then _ else _) as [obj end_| | | |] eqn:E in H;
    try discriminate.
  break_match_in H. inversion H; subst obj.
  break_match_in E.
  - inversion E; eauto.
  - eapply object_members_dict; exact E.
Qed.

(** *** The fuel of the scanner is enough *)

Lemma w_ge (s : str) (k : nat) :
  (k <= length s /\ k <= _w s k) \/ (length s < k /\ _w s k = length s).
Proof.
  unfold _w. destruct (Nat.le_gt_cases k (length s)) as [H|H].
  - left. rewrite Nat.min_l by exact H. lia.
  - right. rewrite Nat.min_r by lia. rewrite skipn_all2 by lia. simpl. lia.
Qed.

Lemma char_is_lt (s : str) (j : nat) (c : char) :
  char_is s j c = true -> j < length s.
Proof.
  unfold char_is. destruct (nth_error s j) eqn:E; [| discriminate].
  intros _. apply nth_error_Some. congruence.
Qed.

Lemma scanstring_from_next (n : nat) :
  forall begin rest pos acc v next,
    length rest <= n ->
    scanstring_from begin rest pos acc = Scanned v next -> pos < next.
Proof.
  induction n as [|n IH]; intros begin rest pos acc v next Hlen H;
    destruct rest as [|c rest1]; simpl in H, Hlen; try discriminate; try lia.
  repeat break_match_in H;
    try (inversion H; subst; lia);
    try (apply IH in H; [lia | simpl in *; lia]).
Qed.

Lemma scanstring_from_result (n : nat) :
  forall begin rest pos acc,
    length rest <= n ->
    (exists v next, scanstring_from begin rest pos acc = Scanned v next)
    \/ (exists m p, scanstring_from begin rest pos acc = Failed m p).
Proof.
  induction n as [|n IH]; intros begin rest pos acc Hlen;
    destruct rest as [|c rest1]; simpl in Hlen |- *; try lia; eauto.
  repeat match goal with
         | |- context [match ?x with _ => _ end] => destruct x eqn:?
         end; eauto; apply IH; simpl in *; lia.
Qed.

Lemma scanstring_next (s : str) (e : nat) (v : str) (next : nat) :
  scanstring s e = Scanned v next -> e < next.
Proof. unfold scanstring. apply scanstring_from_next with (n := length (skipn e s)). lia. Qed.

Lemma scanstring_result (s : str) (e : nat) :
  (exists v next, scanstring s e = Scanned v next)
  \/ (exists m p, scanstring s e = Failed m p).
Proof. unfold scanstring. apply scanstring_from_result with (n := length (skipn e s)). lia. Qed.

Lemma scanstring_not_out_of_fuel (s : str) (e : nat) :
  scanstring s e <> OutOfFuel.
Proof.
  destruct (scanstring_result s e) as [(v & n & H)|(m & p & H)];
    rewrite H; discriminate.
Qed.

Lemma nth_error_lt (A : Type) (l : list A) (i : nat) (x : A) :
  nth_error l i = Some x -> i < length l.
Proof. intros H. apply nth_error_Some. congruence. Qed.

(** Facts on the indices met while scanning, for [lia]. *)
Ltac scan_facts :=
  repeat match goal with
         | H : negb _ = false |- _ => apply negb_false_iff in H
         | H : char_is _ _ _ = true |- _ => apply char_is_lt in H
         | H : scanstring _ _ = Scanned _ _ |- _ => apply scanstring_next in H
         | H : nth_error _ _ = Some _ |- _ => apply nth_error_lt in H
         end;
  repeat match goal with
         | |- context [_w ?s ?k] =>
             lazymatch goal with
             | _ : (k <= length s /\ k <= _w s k) \/ _ |- _ => fail
             | _ => pose proof (w_ge s k)
             end
         | _ : context [_w ?s ?k] |- _ =>
             lazymatch goal with
             | _ : (k <= length s /\ k <= _w s k) \/ _ |- _ => fail
             | _ => pose proof (w_ge s k)
             end
         end.

Ltac scanned_inv H :=
  lazymatch type of H with
  | Scanned _ _ = Scanned _ _ => inversion H; subst; clear H
  | _ => idtac
  end.

(** With two units of fuel per remaining character the scanner does not
    run out, and it never moves backwards. *)
Lemma scan_fuel (fuel : nat) (s : str) :
  (forall depth idx,
      (2 * (length s - idx) + 1 <= fuel ->
       scan_once fuel depth s idx <> OutOfFuel)
      /\ (forall v next,
             scan_once fuel depth s idx = Scanned v next -> idx <= next))
  /\ (forall depth idx pairs,
         (2 * (length s - idx) + 2 <= fuel ->
          object_members fuel depth s idx pairs <> OutOfFuel)
         /\ (forall v next,
                object_members fuel depth s idx pairs = Scanned v next ->
                idx <= next))
  /\ (forall depth idx values,
         (2 * (length s - idx) + 2 <= fuel ->
          array_items fuel depth s idx values <> OutOfFuel)
         /\ (forall v next,
                array_items fuel depth s idx values = Scanned v next ->
                idx <= next)).
Proof.
  induction fuel as [|fuel (IHs & IHo & IHa)].
  - repeat split; intros; try lia; simpl in *; discriminate.
  - assert (Post : forall d i v n,
               scan_once fuel d s i = Scanned v n -> i <= n)
      by (intros d i v n; apply (proj2 (IHs d i))).
    split; [| split]; intros depth idx; [| intros pairs | intros values]; split;
      try (intros Hf H; simpl in H; repeat break_match_in H;
           match goal with
           | E : scanstring _ _ = OutOfFuel |- _ =>
               exact (scanstring_not_out_of_fuel _ _ E)
           | E : scan_once _ _ _ _ = OutOfFuel |- _ =>
               apply (proj1 (IHs _ _)) in E; [exact E |]
           | E : object_members _ _ _ _ _ = OutOfFuel |- _ =>
               apply (proj1 (IHo _ _ _)) in E; [exact E |]
           | E : array_items _ _ _ _ _ = OutOfFuel |- _ =>
               apply (proj1 (IHa _ _ _)) in E; [exact E |]
           end;
           repeat match goal with
                  | E : scan_once _ _ _ _ = Scanned _ _ |- _ => apply Post in E
                  end;
           scan_facts; lia);
      (intros v next H; simpl in H; repeat break_match_in H; scanned_inv H;
       try (apply (proj2 (IHo _ _ _)) in H);
       try (apply (proj2 (IHa _ _ _)) in H);
       repeat match goal with
              | E : scan_once _ _ _ _ = Scanned _ _ |- _ => apply Post in E
              end;
       scan_facts; lia).
Qed.

(** *** What [json.loads] raises *)

Lemma scanstring_not_raised (s : str) (e : nat) (x : exn) :
  scanstring s e <> Raised x.
Proof.
  destruct (scanstring_result s e) as [(v & n & H)|(m & p & H)];
    rewrite H; discriminate.
Qed.

Lemma match_number_raises (rest : str) (e : exn) (len : nat) :
  match_number rest = Some (Raise e, len) -> limit_error e.
Proof.
  unfold match_number. intros H.
  repeat break_match_in H;
    match goal with
    | L : (int_max_str_digits <? _) = true |- _ =>
        apply Nat.ltb_lt in L; inversion H; left; eauto
    end.
Qed.

(** The scanner raises nothing but the two limit errors. *)
Lemma scan_raises (fuel : nat) (s : str) (e : exn) :
  (forall depth idx, scan_once fuel depth s idx = Raised e -> limit_error e)
  /\ (forall depth idx pairs,
         object_members fuel depth s idx pairs = Raised e -> limit_error e)
  /\ (forall depth idx values,
         array_items fuel depth s idx values = Raised e -> limit_error e).
Proof.
  induction fuel as [|fuel (IHs & IHo & IHa)].
  - repeat split; intros; simpl in *; discriminate.
  - split; [| split]; intros depth idx; [| intros pairs | intros values];
      intros H; simpl in H; repeat break_match_in H;
      try match goal with
          | E : scanstring _ _ = Raised _ |- _ =>
              exfalso; exact (scanstring_not_raised _ _ E)
          end;
      try (inversion H; subst;
           first [ right; left; reflexivity
                 | right; right; reflexivity
                 | eapply match_number_raises; eassumption
                 | eapply IHs; eassumption ]);
      try (eapply IHo; exact H);
      try (eapply IHa; exact H).
Qed.

(** [json.loads] returns a value, raises [JSONDecodeError] on the document
    it was given, or raises a limit error: the fuel of the scanner is never
    exhausted. *)
Lemma json_loads_raises (py : interpreter) (s : str) (e : exn) :
  json_loads py s = Raise e ->
  (exists msg pos, e = JSONDecodeError msg s pos) \/ limit_error e.
Proof.
  unfold json_loads. intros H.
  destruct (startswith s [65279%N]); [inversion H; eauto |].
  destruct (scan_once (fuel_for s) (S (nesting_room py)) s (_w s 0))
    as [obj end_|i|m p|x|] eqn:E.
  - break_match_in H. inversion H; eauto.
  - inversion H; eauto.
  - inversion H; eauto.
  - inversion H; subst x. right.
    exact (proj1 (scan_raises (fuel_for s) s e) _ _ E).
  - exfalso.
    apply (proj1 (proj1 (scan_fuel (fuel_for s) s) (S (nesting_room py))
                    (_w s 0))) in E;
      [exact E |]. unfold fuel_for. lia.
Qed.

(** In particular the exception of an exhausted scanner is never raised. *)
Lemma json_loads_has_fuel (py : interpreter) (s : str) :
  json_loads py s <> Raise out_of_fuel.
Proof.
  intros H. apply json_loads_raises in H.
  destruct H as [(m & p & H)|[(n & _ & H)|[H|H]]];
    vm_compute in H; discriminate H.
Qed.

Lemma limit_error_not_decode (e : exn) :
  limit_error e -> is_JSONDecodeError e = false.
Proof. intros [(n & _ & ->)|[->| ->]]; reflexivity. Qed.

(** An exception of [json.loads] is a [JSONDecodeError] or a limit
    error. *)
Lemma json_loads_raise_cases (py : interpreter) (s : str) (e : exn) :
  json_loads py s = Raise e ->
  if is_JSONDecodeError e then True else limit_error e.
Proof.
  intros H. apply json_loads_raises in H.
  destruct H as [(m & p & ->)|L]; [exact Logic.I |].
  rewrite (limit_error_not_decode L). exact L.
Qed.

(** *** The scanner reads from left to right *)

Lemma takewhile_stop (p : char -> bool) (y : str) (d : char) (X : str) :
  p d = false -> takewhile p (y ++ d :: X) = takewhile p y.
Proof.
  intros Hd. induction y as [|c y IH]; simpl.
  - rewrite Hd. reflexivity.
  - destruct (p c); [rewrite IH |]; reflexivity.
Qed.

Lemma skipn_takewhile (p : char -> bool) (y Z : str) :
  skipn (length (takewhile p y)) (y ++ Z) = dropwhile p y ++ Z.
Proof.
  induction y as [|c y IH]; simpl; [reflexivity |].
  destruct (p c); [exact IH | reflexivity].
Qed.

Lemma delimiter_not_digit (d : char) :
  is_delimiter d = true -> is_ascii_digit d = false.
Proof.
  unfold is_delimiter, is_json_ws, chr_eqb. intros H.
  repeat (apply orb_true_iff in H; destruct H as [H|H]);
    apply N.eqb_eq in H; subst d; reflexivity.
Qed.

Lemma delimiter_not (d c : char) :
  is_delimiter d = true -> is_delimiter c = false -> chr_eqb d c = false.
Proof.
  intros Hd Hc. apply chr_eqb_neq. intros ->. congruence.
Qed.

Lemma match_number_eq (rest : str) :
  match_number rest =
  match rest with
  | c :: r => if chr_eqb c (ord "-") then unsigned_number true r
              else unsigned_number false rest
  | [] => None
  end.
Proof.
  unfold match_number, unsigned_number, int_part, frac_part, exp_part.
  destruct rest as [|c r]; [reflexivity |].
  destruct (chr_eqb c (ord "-")).
  - destruct r as [|d0 r1]; [reflexivity |].
    destruct (chr_eqb d0 (ord "0")); [reflexivity |].
    destruct (is_ascii_digit d0); reflexivity.
  - destruct (chr_eqb c (ord "0")); [reflexivity |].
    destruct (is_ascii_digit c); reflexivity.
Qed.

Lemma int_part_cut (d : char) (X X' y : str) :
  is_delimiter d = true ->
  int_part (y ++ d :: X) = int_part (y ++ d :: X')
  /\ forall ints, int_part (y ++ d :: X) = Some ints ->
       exists y2, forall Z, skipn (length ints) (y ++ d :: Z) = y2 ++ d :: Z.
Proof.
  intros Hd.
  pose proof (delimiter_not_digit d Hd) as Dd.
  assert (Dz : chr_eqb d (ord "0") = false) by (apply delimiter_not; auto).
  unfold int_part. destruct y as [|c y]; cbn [app].
  - rewrite Dz, Dd. split; [reflexivity | discriminate].
  - destruct (chr_eqb c (ord "0")).
    + split; [reflexivity |]. intros ints E. inversion E. exists y. reflexivity.
    + destruct (is_ascii_digit c); [| split; [reflexivity | discriminate]].
      rewrite !(@takewhile_stop is_ascii_digit y d _ Dd).
      split; [reflexivity |]. intros ints E. inversion E.
      exists (dropwhile is_ascii_digit y). intros Z.
      cbn [length skipn]. apply skipn_takewhile.
Qed.

Lemma frac_part_cut (d : char) (X X' y : str) :
  is_delimiter d = true ->
  frac_part (y ++ d :: X) = frac_part (y ++ d :: X')
  /\ exists y4, forall Z,
       skipn (length (frac_part (y ++ d :: X))) (y ++ d :: Z) = y4 ++ d :: Z.
Proof.
  intros Hd.
  pose proof (delimiter_not_digit d Hd) as Dd.
  assert (Dp : chr_eqb d (ord ".") = false) by (apply delimiter_not; auto).
  unfold frac_part. destruct y as [|p y]; cbn [app].
  - rewrite Dp. cbn [andb].
    split; [destruct X, X'; reflexivity |].
    exists []. intros Z. destruct X; reflexivity.
  - destruct y as [|f y]; cbn [app].
    + rewrite Dd, andb_false_r. split; [reflexivity |].
      exists [p]. reflexivity.
    + destruct (chr_eqb p (ord ".") && is_ascii_digit f).
      * change (f :: y ++ d :: X) with ((f :: y) ++ d :: X).
        change (f :: y ++ d :: X') with ((f :: y) ++ d :: X').
        rewrite !(@takewhile_stop is_ascii_digit (f :: y) d _ Dd).
        split; [reflexivity |].
        exists (dropwhile is_ascii_digit (f :: y)). intros Z.
        cbn [length skipn].
        change (f :: y ++ d :: Z) with ((f :: y) ++ d :: Z).
        apply skipn_takewhile.
      * split; [reflexivity |]. exists (p :: f :: y). reflexivity.
Qed.

Lemma exp_part_cut (d : char) (X X' y : str) :
  is_delimiter d = true ->
  exp_part (y ++ d :: X) = exp_part (y ++ d :: X').
Proof.
  intros Hd.
  pose proof (delimiter_not_digit d Hd) as Dd.
  assert (Dm : chr_eqb d (ord "-") = false) by (apply delimiter_not; auto).
  assert (De : chr_eqb d (ord "e") = false) by (apply delimiter_not; auto).
  assert (DE : chr_eqb d (ord "E") = false) by (apply delimiter_not; auto).
  assert (Dplus : chr_eqb d (ord "+") = false) by (apply delimiter_not; auto).
  unfold exp_part. destruct y as [|e y]; cbn [app].
  - rewrite De, DE. reflexivity.
  - destruct (chr_eqb e (ord "e") || chr_eqb e (ord "E")); [| reflexivity].
    destruct y as [|g y]; cbn [app].
    + rewrite Dm, Dplus. cbn [orb takewhile]. rewrite Dd. reflexivity.
    + destruct (chr_eqb g (ord "-") || chr_eqb g (ord "+")).
      * rewrite !(@takewhile_stop is_ascii_digit y d _ Dd). reflexivity.
      * change (g :: y ++ d :: X) with ((g :: y) ++ d :: X).
        change (g :: y ++ d :: X') with ((g :: y) ++ d :: X').
        rewrite !(@takewhile_stop is_ascii_digit (g :: y) d _ Dd). reflexivity.
Qed.

Lemma unsigned_number_cut (d : char) (X X' : str) (neg : bool) (y : str) :
  is_delimiter d = true ->
  unsigned_number neg (y ++ d :: X) = unsigned_number neg (y ++ d :: X').
Proof.
  intros Hd. unfold unsigned_number.
  destruct (int_part_cut d X X' y Hd) as [Ei Si]. rewrite <- Ei.
  destruct (int_part (y ++ d :: X)) as [ints|]; [| reflexivity].
  destruct (Si ints eq_refl) as [y2 S2]. cbv zeta. rewrite !S2.
  destruct (frac_part_cut d X X' y2 Hd) as [Ef [y4 S4]]. rewrite <- Ef, !S4.
  rewrite <- (exp_part_cut d X X' y4 Hd). reflexivity.
Qed.

(** What [match_number] matches does not depend on what follows the
    first delimiter. *)
Lemma match_number_cut (d : char) (X X' y : str) :
  is_delimiter d = true ->
  match_number (y ++ d :: X) = match_number (y ++ d :: X').
Proof.
  intros Hd.
  assert (Dm : chr_eqb d (ord "-") = false) by (apply delimiter_not; auto).
  rewrite !match_number_eq. destruct y as [|c y]; cbn [app].
  - rewrite Dm. apply (unsigned_number_cut d X X' false [] Hd).
  - destruct (chr_eqb c (ord "-")).
    + apply unsigned_number_cut, Hd.
    + apply (unsigned_number_cut d X X' false (c :: y) Hd).
Qed.

(** A string that [scanstring] reads to its closing quote is read the
    same when text is appended. *)
Lemma scanstring_from_extend (t : str) (n : nat) :
  forall begin rest pos acc v next,
    length rest <= n ->
    scanstring_from begin rest pos acc = Scanned v next ->
    scanstring_from begin (rest ++ t) pos acc = Scanned v next.
Proof.
  induction n as [|n IH]; intros begin rest pos acc v next Hlen H;
    destruct rest as [|c rest1]; simpl in Hlen; try discriminate H; try lia.
  cbn [app]. cbn [scanstring_from] in H |- *.
  destruct (chr_eqb c dq); [exact H |].
  destruct (chr_eqb c backslash).
  - destruct rest1 as [|e rest2]; [discriminate H |]. cbn [app].
    destruct (chr_eqb e (ord "u")).
    + destruct rest2 as [|h1 [|h2 [|h3 [|h4 [|x rest3]]]]]; try discriminate H.
      cbn [app]. destruct (hex4 h1 h2 h3 h4) as [u|]; [| discriminate H].
      assert (HB : scanstring_from begin (x :: rest3) (pos + 6) (u :: acc)
                   = Scanned v next ->
                   scanstring_from begin (x :: rest3 ++ t) (pos + 6) (u :: acc)
                   = Scanned v next).
      { intros HB. apply (IH begin (x :: rest3)); [simpl in *; lia | exact HB]. }
      destruct (is_high_surrogate u); [| exact (HB H)].
      destruct rest3 as [|u' [|g1 [|g2 [|g3 [|g4 [|y r4]]]]]].
      7:{ cbn [app].
          destruct (chr_eqb x backslash && chr_eqb u' (ord "u"));
            [| exact (HB H)].
          destruct (hex4 g1 g2 g3 g4) as [u2|]; [| discriminate H].
          destruct (is_low_surrogate u2); [| exact (HB H)].
          apply (IH begin (y :: r4)); [simpl in *; lia | exact H]. }
      all: pose proof (HB H) as HB'; clear HB;
        match type of HB' with ?b = _ => set (B' := b) in * end;
        clearbody B'; destruct (chr_eqb x backslash) eqn:Ex;
        [ apply chr_eqb_eq in Ex; subst x; cbn [scanstring_from] in H;
          change (chr_eqb backslash dq) with false in H;
          change (chr_eqb backslash backslash) with true in H;
          cbv iota in H; try discriminate H;
          match type of H with
          | context [chr_eqb ?a (ord "u")] =>
              destruct (chr_eqb a (ord "u")) eqn:Eu; [discriminate H |];
              repeat (cbn [app andb]; rewrite ?Eu; try exact HB';
                      match goal with
                      | |- context [match ?l with [] => _ | _ :: _ => _ end] =>
                          is_var l; destruct l
                      end)
          end
        | repeat (cbn [app andb]; try exact HB';
                  match goal with
                  | |- context [match ?l with [] => _ | _ :: _ => _ end] =>
                      is_var l; destruct l
                  end) ].
    + destruct (unescape e) as [ch|]; [| discriminate H].
      apply IH; [simpl in *; lia | exact H].
  - destruct (c <=? 31)%N; [discriminate H |].
    apply IH; [lia | exact H].
Qed.

Lemma scanstring_extend (s t : str) (e : nat) (v : str) (next : nat) :
  e <= length s ->
  scanstring s e = Scanned v next -> scanstring (s ++ t) e = Scanned v next.
Proof.
  intros He H. unfold scanstring in *.
  rewrite skipn_app. replace (e - length s) with 0 by lia. cbn [skipn].
  apply scanstring_from_extend with (n := length (skipn e s)); [lia | exact H].
Qed.

Lemma nth_error_extend (s t : str) (i : nat) (c : char) :
  nth_error s i = Some c -> nth_error (s ++ t) i = Some c.
Proof.
  intros H. rewrite nth_error_app1; [exact H |].
  apply nth_error_Some. congruence.
Qed.

Lemma char_is_extend (s t : str) (i : nat) (c : char) :
  i < length s -> char_is (s ++ t) i c = char_is s i c.
Proof. intros H. unfold char_is. rewrite nth_error_app1 by exact H. reflexivity. Qed.

Lemma takewhile_short (p : char -> bool) (a t : str) :
  length (takewhile p a) < length a -> takewhile p (a ++ t) = takewhile p a.
Proof.
  induction a as [|x a IH]; simpl; [lia |].
  destruct (p x); simpl; [| reflexivity].
  intros H. rewrite IH by lia. reflexivity.
Qed.

Lemma w_extend (s t : str) (k : nat) :
  _w s k < length s -> _w (s ++ t) k = _w s k.
Proof.
  unfold _w. intros H.
  assert (Hk : k < length s) by lia.
  rewrite length_app, !Nat.min_l by lia.
  rewrite skipn_app. replace (k - length s) with 0 by lia. cbn [skipn].
  rewrite takewhile_short; [reflexivity |].
  rewrite Nat.min_l in H by lia. rewrite length_skipn. lia.
Qed.

Lemma nth_error_skipn_cons (s : str) (i : nat) (c : char) :
  nth_error s i = Some c -> skipn i s = c :: skipn (S i) s.
Proof.
  revert i; induction s as [|x s IH]; intros [|i] H; try discriminate.
  - inversion H. reflexivity.
  - simpl in H. rewrite skipn_cons. apply IH. exact H.
Qed.

Lemma json_ws_delimiter (c : char) : is_json_ws c = true -> is_delimiter c = true.
Proof. intros H. unfold is_delimiter. rewrite H. reflexivity. Qed.

(** The character after a value that is followed, whitespace apart, by a
    delimiter is itself a delimiter. *)
Lemma w_delimited (s : str) (k : nat) (c : char) :
  char_is s (_w s k) c = true -> is_delimiter c = true -> delimited s k = true.
Proof.
  intros H Hc. pose proof (char_is_lt _ _ _ H) as L.
  unfold _w in *. 
  assert (Hk : k < length s) by lia.
  destruct (nth_error s k) as [x|] eqn:E;
    [| apply nth_error_None in E; lia].
  unfold delimited. rewrite E.
  rewrite (nth_error_skipn_cons _ _ E), Nat.min_l in H by lia.
  cbn [takewhile] in H. destruct (is_json_ws x) eqn:W.
  - apply json_ws_delimiter, W.
  - cbn [length] in H. rewrite Nat.add_0_r in H.
    unfold char_is in H. rewrite E in H. apply chr_eqb_eq in H. subst x. exact Hc.
Qed.

(** A slice that has its full length is not changed by appended text. *)
Lemma slice_extend (s t l : str) (a k : nat) :
  str_eqb (slice s a (a + k)) l = true -> length l = k ->
  slice (s ++ t) a (a + k) = slice s a (a + k).
Proof.
  intros H L. apply str_eqb_eq in H. unfold slice in *.
  replace (a + k - a) with k in * by lia.
  assert (Hl : length (firstn k (skipn a s)) = k) by (rewrite H; exact L).
  rewrite length_firstn, length_skipn in Hl.
  destruct k as [|k]; [reflexivity |].
  rewrite skipn_app. replace (a - length s) with 0 by lia. cbn [skipn].
  apply firstn_extend. rewrite length_skipn. lia.
Qed.

Lemma scan_once_atom (fuel depth : nat) (s : str) (idx : nat) :
  scan_once (S fuel) depth s idx =
  match nth_error s idx with
  | None => StopIteration idx
  | Some nextchar =>
      if chr_eqb nextchar dq then
        match scanstring s (idx + 1) with
        | Scanned v next => Scanned (PyStr v) next
        | StopIteration i => StopIteration i
        | Failed m p => Failed m p
        | Raised e => Raised e
        | OutOfFuel => OutOfFuel
        end
      else if chr_eqb nextchar (ord "{") then
        match depth with
        | O => Raised (RecursionError (msg_too_deep (lit "object")))
        | S depth' =>
            if char_is s (_w s (idx + 1)) (ord "}")
            then Scanned (PyDict []) (_w s (idx + 1) + 1)
            else object_members fuel depth' s (_w s (idx + 1)) []
        end
      else if chr_eqb nextchar (ord "[") then
        match depth with
        | O => Raised (RecursionError (msg_too_deep (lit "array")))
        | S depth' =>
            if char_is s (_w s (idx + 1)) (ord "]")
            then Scanned (PyList []) (_w s (idx + 1) + 1)
            else array_items fuel depth' s (_w s (idx + 1)) []
        end
      else scan_atom s idx nextchar
  end.
Proof. reflexivity. Qed.

Lemma match_number_none (c : char) (rest : str) :
  is_ascii_digit c = false -> chr_eqb c (ord "-") = false ->
  match_number (c :: rest) = None.
Proof.
  intros D M. rewrite match_number_eq, M. unfold unsigned_number, int_part.
  destruct (chr_eqb c (ord "0")) eqn:Z;
    [apply chr_eqb_eq in Z; subst c; discriminate D |].
  rewrite D. reflexivity.
Qed.

Lemma match_number_minus (c : char) (rest : str) :
  is_ascii_digit c = false ->
  match_number (ord "-" :: c :: rest) = None.
Proof.
  intros D. rewrite match_number_eq.
  change (chr_eqb (ord "-") (ord "-")) with true. cbv iota.
  unfold unsigned_number, int_part.
  destruct (chr_eqb c (ord "0")) eqn:Z;
    [apply chr_eqb_eq in Z; subst c; discriminate D |].
  rewrite D. reflexivity.
Qed.

(** A number that is followed by a delimiter is matched the same when text
    is appended. *)
Lemma match_number_extend (rest t : str) (res : outcome pyvalue) (len : nat) :
  match_number rest = Some (res, len) -> delimited rest len = true ->
  match_number (rest ++ t) = Some (res, len).
Proof.
  intros H D. unfold delimited in D.
  destruct (nth_error rest len) as [d|] eqn:E; [| discriminate].
  pose proof (nth_error_skipn_cons _ _ E) as S.
  rewrite <- (firstn_skipn len rest), S in H |- *.
  rewrite <- app_assoc. cbn [app].
  rewrite (match_number_cut d (skipn (Datatypes.S len) rest ++ t)
             (skipn (Datatypes.S len) rest) (firstn len rest) D).
  exact H.
Qed.

(** Evaluates the comparisons of two character literals. *)
Ltac eval_chr_eqb :=
  repeat match goal with
         | H : context [chr_eqb (ord ?a) (ord ?b)] |- _ =>
             let r := eval vm_compute in (chr_eqb (ord a) (ord b)) in
             change (chr_eqb (ord a) (ord b)) with r in H
         | |- context [chr_eqb (ord ?a) (ord ?b)] =>
             let r := eval vm_compute in (chr_eqb (ord a) (ord b)) in
             change (chr_eqb (ord a) (ord b)) with r
         end;
  cbn [andb] in *.

Lemma scan_atom_extend (s t : str) (idx : nat) (c : char) (v : pyvalue)
  (next : nat) :
  nth_error s idx = Some c ->
  scan_atom s idx c = Scanned v next -> delimited s next = true ->
  scan_atom (s ++ t) idx c = Scanned v next.
Proof.
  intros En H D.
  pose proof (nth_error_skipn_cons _ _ En) as Sk.
  assert (Sk' : skipn idx (s ++ t) = c :: (skipn (S idx) s ++ t)).
  { rewrite skipn_app, Sk.
    replace (idx - length s) with 0
      by (apply nth_error_lt in En; lia).
    reflexivity. }
  unfold scan_atom in *. rewrite Sk in H. rewrite Sk'.
  destruct (chr_eqb c (ord "n")) eqn:E1.
  { apply chr_eqb_eq in E1. subst c.
    rewrite !match_number_none in * by reflexivity. eval_chr_eqb.
    destruct (str_eqb (slice s idx (idx + 4)) (lit "null")) eqn:Es;
      [| discriminate H].
    rewrite (@slice_extend s t _ idx _ Es eq_refl), Es. exact H. }
  destruct (chr_eqb c (ord "t")) eqn:E2.
  { apply chr_eqb_eq in E2. subst c.
    rewrite !match_number_none in * by reflexivity. eval_chr_eqb.
    destruct (str_eqb (slice s idx (idx + 4)) (lit "true")) eqn:Es;
      [| discriminate H].
    rewrite (@slice_extend s t _ idx _ Es eq_refl), Es. exact H. }
  destruct (chr_eqb c (ord "f")) eqn:E3.
  { apply chr_eqb_eq in E3. subst c.
    rewrite !match_number_none in * by reflexivity. eval_chr_eqb.
    destruct (str_eqb (slice s idx (idx + 5)) (lit "false")) eqn:Es;
      [| discriminate H].
    rewrite (@slice_extend s t _ idx _ Es eq_refl), Es. exact H. }
  cbn [andb] in H |- *.
  destruct (chr_eqb c (ord "N")) eqn:E4.
  { apply chr_eqb_eq in E4. subst c.
    rewrite !match_number_none in * by reflexivity. eval_chr_eqb.
    destruct (str_eqb (slice s idx (idx + 3)) (lit "NaN")) eqn:Es;
      [| discriminate H].
    rewrite (@slice_extend s t _ idx _ Es eq_refl), Es. exact H. }
  destruct (chr_eqb c (ord "I")) eqn:E5.
  { apply chr_eqb_eq in E5. subst c.
    rewrite !match_number_none in * by reflexivity. eval_chr_eqb.
    destruct (str_eqb (slice s idx (idx + 8)) (lit "Infinity")) eqn:Es;
      [| discriminate H].
    rewrite (@slice_extend s t _ idx _ Es eq_refl), Es. exact H. }
  cbn [andb] in H |- *.
  destruct (match_number (c :: skipn (S idx) s)) as [[[res|x] len]|] eqn:Em.
  - inversion H; subst v next.
    rewrite <- Sk in Em.
    assert (D' : delimited (skipn idx s) len = true).
    { unfold delimited in *. rewrite nth_error_skipn. exact D. }
    pose proof (@match_number_extend _ t _ _ Em D') as Em'.
    rewrite Sk in Em'. cbn [app] in Em'. rewrite Em'. reflexivity.
  - discriminate H.
  - destruct (chr_eqb c (ord "-")) eqn:E6; [| discriminate H].
    cbn [andb] in H |- *. apply chr_eqb_eq in E6. subst c.
    destruct (str_eqb (slice s idx (idx + 9)) (lit "-Infinity")) eqn:Es;
      [| discriminate H].
    rewrite (@slice_extend s t _ idx _ Es eq_refl), Es.
    apply str_eqb_eq in Es. unfold slice in Es.
    replace (idx + 9 - idx) with 9 in Es by lia. rewrite Sk in Es.
    destruct (skipn (S idx) s) as [|i r]; [discriminate Es |].
    cbn [firstn] in Es. inversion Es. cbn [app].
    rewrite match_number_minus by reflexivity. exact H.
Qed.

Lemma object_members_eq (fuel depth : nat) (s : str) (idx : nat)
  (pairs : list (str * pyvalue)) :
  object_members (S fuel) depth s idx pairs =
  if negb (char_is s idx dq) then Failed msg_property_name idx
  else
    match scanstring s (idx + 1) with
    | Scanned key next =>
        if negb (char_is s (_w s next) (ord ":"))
        then Failed msg_colon (_w s next)
        else
          match scan_once fuel depth s (_w s (_w s next + 1)) with
          | Scanned value next' =>
              if char_is s (_w s next') (ord "}")
              then Scanned (PyDict (dict_setitem pairs key value))
                     (_w s next' + 1)
              else if negb (char_is s (_w s next') (ord ","))
              then Failed msg_comma (_w s next')
              else object_members fuel depth s (_w s (_w s next' + 1))
                     (dict_setitem pairs key value)
          | StopIteration k => StopIteration k
          | Failed m p => Failed m p
          | Raised e => Raised e
          | OutOfFuel => OutOfFuel
          end
    | StopIteration k => StopIteration k
    | Failed m p => Failed m p
    | Raised e => Raised e
    | OutOfFuel => OutOfFuel
    end.
Proof. reflexivity. Qed.

Lemma array_items_eq (fuel depth : nat) (s : str) (idx : nat)
  (values : list pyvalue) :
  array_items (S fuel) depth s idx values =
  match scan_once fuel depth s idx with
  | Scanned value next =>
      if char_is s (_w s next) (ord "]")
      then Scanned (PyList (values ++ [value])) (_w s next + 1)
      else if negb (char_is s (_w s next) (ord ","))
      then Failed msg_comma (_w s next)
      else array_items fuel depth s (_w s (_w s next + 1)) (values ++ [value])
  | StopIteration k => StopIteration k
  | Failed m p => Failed m p
  | Raised e => Raised e
  | OutOfFuel => OutOfFuel
  end.
Proof. reflexivity. Qed.

Lemma scan_once_starts (fuel depth : nat) (s : str) (idx : nat) (v : pyvalue)
  (next : nat) :
  scan_once fuel depth s idx = Scanned v next -> idx < length s.
Proof.
  destruct fuel as [|fuel]; [discriminate |]. rewrite scan_once_atom.
  destruct (nth_error s idx) eqn:E; [| discriminate].
  intros _. apply nth_error_lt in E. exact E.
Qed.

Lemma object_members_starts (fuel depth : nat) (s : str) (idx : nat)
  (pairs : list (str * pyvalue)) (v : pyvalue) (next : nat) :
  object_members fuel depth s idx pairs = Scanned v next -> idx < length s.
Proof.
  destruct fuel as [|fuel]; [discriminate |]. rewrite object_members_eq.
  destruct (char_is s idx dq) eqn:E; [| discriminate].
  intros _. apply char_is_lt in E. exact E.
Qed.

Lemma array_items_starts (fuel depth : nat) (s : str) (idx : nat)
  (values : list pyvalue) (v : pyvalue) (next : nat) :
  array_items fuel depth s idx values = Scanned v next -> idx < length s.
Proof.
  destruct fuel as [|fuel]; [discriminate |]. rewrite array_items_eq.
  destruct (scan_once fuel depth s idx) eqn:E; try discriminate.
  intros _. apply scan_once_starts in E. exact E.
Qed.

(** A value that the scanner reads in [s] is read the same, with any
    larger fuel, when text is appended to [s]: always for an object or an
    array, and for any other value when a delimiter follows it. *)
Lemma scan_extend (t : str) (s : str) (fuel : nat) :
  (forall depth idx v next,
      scan_once fuel depth s idx = Scanned v next ->
      char_is s idx (ord "{") = true \/ char_is s idx (ord "[") = true
      \/ delimited s next = true ->
      forall fuel', fuel <= fuel' ->
                    scan_once fuel' depth (s ++ t) idx = Scanned v next)
  /\ (forall depth idx pairs v next,
         object_members fuel depth s idx pairs = Scanned v next ->
         forall fuel', fuel <= fuel' ->
                       object_members fuel' depth (s ++ t) idx pairs
                       = Scanned v next)
  /\ (forall depth idx values v next,
         array_items fuel depth s idx values = Scanned v next ->
         forall fuel', fuel <= fuel' ->
                       array_items fuel' depth (s ++ t) idx values
                       = Scanned v next).
Proof.
  induction fuel as [|fuel (IHs & IHo & IHa)];
    [repeat split; intros; discriminate |].
  split; [| split].
  - intros depth idx v next H D [|f'] Hf; [lia |].
    assert (F : fuel <= f') by lia.
    rewrite scan_once_atom in H |- *.
    destruct (nth_error s idx) as [c|] eqn:En; [| discriminate H].
    rewrite (nth_error_extend s t idx En).
    pose proof (nth_error_lt _ _ En) as Li.
    destruct (chr_eqb c dq).
    { destruct (scanstring s (idx + 1)) as [sv nx| | | |] eqn:Es;
        try discriminate H.
      rewrite (@scanstring_extend s t (idx + 1) sv nx) by (try lia; exact Es).
      exact H. }
    destruct (chr_eqb c (ord "{")) eqn:Eo.
    { destruct depth as [|depth]; [discriminate H |].
      destruct (char_is s (_w s (idx + 1)) (ord "}")) eqn:Ec.
      - pose proof (char_is_lt _ _ _ Ec) as L.
        rewrite (w_extend s t (idx + 1) L), (char_is_extend s t _ L), Ec.
        exact H.
      - pose proof (object_members_starts _ _ _ _ _ H) as L.
        rewrite (w_extend s t (idx + 1) L), (char_is_extend s t _ L), Ec.
        apply IHo; assumption. }
    destruct (chr_eqb c (ord "[")) eqn:Ea.
    { destruct depth as [|depth]; [discriminate H |].
      destruct (char_is s (_w s (idx + 1)) (ord "]")) eqn:Ec.
      - pose proof (char_is_lt _ _ _ Ec) as L.
        rewrite (w_extend s t (idx + 1) L), (char_is_extend s t _ L), Ec.
        exact H.
      - pose proof (array_items_starts _ _ _ _ _ H) as L.
        rewrite (w_extend s t (idx + 1) L), (char_is_extend s t _ L), Ec.
        apply IHa; assumption. }
    apply scan_atom_extend; [exact En | exact H |].
    unfold char_is in D. rewrite En, Eo, Ea in D.
    destruct D as [D | [D | D]]; [discriminate | discriminate | exact D].
  - intros depth idx pairs v next H [|f'] Hf; [lia |].
    assert (F : fuel <= f') by lia.
    rewrite object_members_eq in H |- *.
    destruct (char_is s idx dq) eqn:Eq; [| discriminate H].
    pose proof (char_is_lt _ _ _ Eq) as Li.
    rewrite (char_is_extend s t _ Li), Eq. cbn [negb] in H |- *.
    destruct (scanstring s (idx + 1)) as [key nx| | | |] eqn:Es;
      try discriminate H.
    rewrite (@scanstring_extend s t (idx + 1) key nx) by (try lia; exact Es).
    destruct (char_is s (_w s nx) (ord ":")) eqn:Ec; [| discriminate H].
    pose proof (char_is_lt _ _ _ Ec) as Lc.
    rewrite (w_extend s t nx Lc), (char_is_extend s t _ Lc), Ec.
    cbn [negb] in H |- *.
    destruct (scan_once fuel depth s (_w s (_w s nx + 1)))
      as [value nx'| | | |] eqn:Ev;
      try discriminate H.
    pose proof (scan_once_starts _ _ _ _ Ev) as Lv.
    rewrite (w_extend s t (_w s nx + 1) Lv).
    assert (D : delimited s nx' = true
                /\ _w s nx' < length s).
    { destruct (char_is s (_w s nx') (ord "}")) eqn:Ej.
      - split; [apply (w_delimited s nx' _ Ej); reflexivity
               | apply (char_is_lt _ _ _ Ej)].
      - destruct (char_is s (_w s nx') (ord ",")) eqn:Ek; [| discriminate H].
        split; [apply (w_delimited s nx' _ Ek); reflexivity
               | apply (char_is_lt _ _ _ Ek)]. }
    destruct D as [D Lj].
    rewrite (IHs _ _ _ _ Ev (or_intror (or_intror D)) f' F).
    rewrite (w_extend s t nx' Lj), !(char_is_extend s t _ Lj).
    destruct (char_is s (_w s nx') (ord "}")); [exact H |].
    destruct (char_is s (_w s nx') (ord ",")); [| discriminate H].
    cbn [negb] in H |- *.
    pose proof (object_members_starts _ _ _ _ _ H) as Ln.
    rewrite (w_extend s t (_w s nx' + 1) Ln).
    apply IHo; assumption.
  - intros depth idx values v next H [|f'] Hf; [lia |].
    assert (F : fuel <= f') by lia.
    rewrite array_items_eq in H |- *.
    destruct (scan_once fuel depth s idx) as [value nx'| | | |] eqn:Ev;
      try discriminate H.
    assert (D : delimited s nx' = true
                /\ _w s nx' < length s).
    { destruct (char_is s (_w s nx') (ord "]")) eqn:Ej.
      - split; [apply (w_delimited s nx' _ Ej); reflexivity
               | apply (char_is_lt _ _ _ Ej)].
      - destruct (char_is s (_w s nx') (ord ",")) eqn:Ek; [| discriminate H].
        split; [apply (w_delimited s nx' _ Ek); reflexivity
               | apply (char_is_lt _ _ _ Ek)]. }
    destruct D as [D Lj].
    rewrite (IHs _ _ _ _ Ev (or_intror (or_intror D)) f' F).
    rewrite (w_extend s t nx' Lj), !(char_is_extend s t _ Lj).
    destruct (char_is s (_w s nx') (ord "]")); [exact H |].
    destruct (char_is s (_w s nx') (ord ",")); [| discriminate H].
    cbn [negb] in H |- *.
    pose proof (array_items_starts _ _ _ _ _ H) as Ln.
    rewrite (w_extend s t (_w s nx' + 1) Ln).
    apply IHa; assumption.
Qed.

Lemma object_members_bound (fuel : nat) (s : str) :
  forall depth idx pairs v next,
    object_members fuel depth s idx pairs = Scanned v next ->
    next <= length s.
Proof.
  induction fuel as [|fuel IH]; intros depth idx pairs v next H;
    [discriminate |].
  rewrite object_members_eq in H.
  destruct (negb (char_is s idx dq)); [discriminate H |].
  destruct (scanstring s (idx + 1)) as [key nx| | | |]; try discriminate H.
  destruct (negb (char_is s (_w s nx) (ord ":"))); [discriminate H |].
  destruct (scan_once fuel depth s (_w s (_w s nx + 1))) as [value nx'| | | |];
    try discriminate H.
  destruct (char_is s (_w s nx') (ord "}")) eqn:Ej.
  - inversion H; subst. apply char_is_lt in Ej. lia.
  - destruct (negb (char_is s (_w s nx') (ord ","))); [discriminate H |].
    eapply IH. exact H.
Qed.

Lemma takewhile_all_app (p : char -> bool) (a t : str) :
  forallb p a = true -> takewhile p (a ++ t) = a ++ takewhile p t.
Proof.
  induction a as [|x a IH]; [reflexivity |]. simpl.
  intros H. apply andb_true_iff in H as [Hx Ha].
  rewrite Hx, (IH Ha). reflexivity.
Qed.

Lemma takewhile_length (p : char -> bool) (t : str) :
  length (takewhile p t) = length t -> forallb p t = true.
Proof.
  induction t as [|x t IH]; [reflexivity |]. simpl.
  destruct (p x); simpl; [intros H; apply IH; lia | discriminate].
Qed.

Lemma forallb_takewhile (p : char -> bool) (t : str) :
  forallb p t = true -> takewhile p t = t.
Proof.
  induction t as [|x t IH]; [reflexivity |]. simpl.
  intros H. apply andb_true_iff in H as [Hx Ht].
  rewrite Hx, (IH Ht). reflexivity.
Qed.

(** The whitespace after a document that ends at [e], when text follows the
    document. *)
Lemma w_tail (s t : str) (e : nat) :
  e <= length s -> _w s e = length s ->
  _w (s ++ t) e = length s + length (takewhile is_json_ws t).
Proof.
  unfold _w. intros He W. rewrite Nat.min_l in W by exact He.
  rewrite length_app, Nat.min_l by lia.
  assert (A : forallb is_json_ws (skipn e s) = true).
  { apply takewhile_length. rewrite length_skipn. lia. }
  rewrite skipn_app. replace (e - length s) with 0 by lia. cbn [skipn].
  rewrite (takewhile_all_app _ _ t A), length_app, length_skipn. lia.
Qed.

(** [json.loads] on a valid object followed by text [t]: the object when
    [t] is JSON whitespace, and "Extra data" at the first other character
    of [t] otherwise. *)
Lemma json_loads_tail (py : interpreter) (obj t : str) (v : pyvalue) :
  startswith obj (lit "{") = true ->
  json_loads py obj = Return v ->
  json_loads py (obj ++ t) =
  if forallb is_json_ws t then Return v
  else Raise (JSONDecodeError msg_extra (obj ++ t)
                (length obj + length (takewhile is_json_ws t))).
Proof.
  intros Hs H. apply startswith_app in Hs. destruct Hs as [r ->].
  unfold json_loads in *.
  change (startswith (lit "{" ++ r) [65279%N]) with false in H.
  change (startswith ((lit "{" ++ r) ++ t) [65279%N]) with false.
  change (_w (lit "{" ++ r) 0) with 0 in H.
  change (_w ((lit "{" ++ r) ++ t) 0) with 0.
  cbv iota in H |- *.
  destruct (scan_once (fuel_for (lit "{" ++ r)) (S (nesting_room py))
              (lit "{" ++ r) 0)
    as [obj end_| | | |] eqn:E; try discriminate H.
  destruct (negb (_w (lit "{" ++ r) end_ =? length (lit "{" ++ r))) eqn:W;
    [discriminate H |].
  inversion H; subst obj.
  apply negb_false_iff, Nat.eqb_eq in W.
  assert (Le : end_ <= length (lit "{" ++ r)).
  { unfold fuel_for in E. rewrite scan_once_object in E by reflexivity.
    destruct (char_is (lit "{" ++ r) (_w (lit "{" ++ r) (0 + 1)) (ord "}")) eqn:C.
    - assert (Ee : _w (lit "{" ++ r) (0 + 1) + 1 = end_)
        by (inversion E; reflexivity).
      apply char_is_lt in C. lia.
    - apply object_members_bound in E. exact E. }
  rewrite (proj1 (scan_extend t (lit "{" ++ r) (fuel_for (lit "{" ++ r)))
             (S (nesting_room py)) 0 v end_ E (or_introl eq_refl)
             (fuel_for ((lit "{" ++ r) ++ t)))
    by (unfold fuel_for; rewrite (length_app (lit "{" ++ r) t); lia).
  rewrite (w_tail _ t Le W), (length_app (lit "{" ++ r) t).
  destruct (forallb is_json_ws t) eqn:A.
  - rewrite (forallb_takewhile _ _ A), Nat.eqb_refl. reflexivity.
  - destruct (Nat.eqb_spec (length (lit "{" ++ r) + length (takewhile is_json_ws t))
                (length (lit "{" ++ r) + length t)) as [Q|Q]; [| reflexivity].
    rewrite (takewhile_length is_json_ws t) in A by lia. discriminate A.
Qed.

Lemma firstn_takewhile (p : char -> bool) (t : str) :
  firstn (length (takewhile p t)) t = takewhile p t.
Proof.
  induction t as [|x t IH]; [reflexivity |]. simpl.
  destruct (p x); simpl; [rewrite IH |]; reflexivity.
Qed.

Lemma firstn_not_all (p : char -> bool) (t : str) (m : nat) :
  length (takewhile p t) < m -> m <= length t ->
  forallb p (firstn m t) = false.
Proof.
  revert m; induction t as [|x t IH]; intros m Hm Ht; simpl in *; [lia |].
  destruct m as [|m]; [lia |]. simpl.
  destruct (p x); [| reflexivity]. simpl in Hm. apply IH; lia.
Qed.

(* ================================================================= *)
(** ** The monad *)

Lemma bind_perform (A B : Type) (ev : event) (res : outcome A)
  (k : A -> M B) (tr : trace) :
  bind (perform ev res) k tr =
  match res with
  | Return a => k a (tr ++ [ev])
  | Raise e => (Raise e, tr ++ [ev])
  end.
Proof. unfold bind, perform. destruct res; reflexivity. Qed.

Lemma emits_ret (A : Type) (P : event -> Prop) (a : A) : emits P (ret a).
Proof. intros tr. exists []. simpl. rewrite app_nil_r. auto. Qed.

Lemma emits_perform (A : Type) (P : event -> Prop) (ev : event)
  (res : outcome A) : P ev -> emits P (perform ev res).
Proof. intros H tr. exists [ev]. simpl. auto. Qed.

Lemma emits_lift (A : Type) (P : event -> Prop) (res : outcome A) :
  emits P (lift res).
Proof. intros tr. exists []. simpl. rewrite app_nil_r. auto. Qed.

Lemma emits_bind (A B : Type) (P : event -> Prop) (m : M A) (k : A -> M B) :
  emits P m -> (forall a, emits P (k a)) -> emits P (bind m k).
Proof.
  intros Hm Hk tr. unfold bind.
  destruct (Hm tr) as (evs & E & F). destruct (m tr) as [[a|e] tr']; simpl in E.
  - destruct (Hk a tr') as (evs' & E' & F'). subst tr'.
    exists (evs ++ evs'). rewrite E', app_assoc. split; [reflexivity |].
    apply Forall_app; auto.
  - exists evs. simpl. auto.
Qed.

Lemma emits_try_except (A : Type) (P : event -> Prop) (body : M A)
  (handles : exn -> bool) (handler : exn -> M A) :
  emits P body -> (forall e, emits P (handler e)) ->
  emits P (try_except body handles handler).
Proof.
  intros Hb Hh tr. unfold try_except.
  destruct (Hb tr) as (evs & E & F). destruct (body tr) as [[a|e] tr']; simpl in E.
  - exists evs. simpl. auto.
  - destruct (handles e).
    + destruct (Hh e tr') as (evs' & E' & F'). subst tr'.
      exists (evs ++ evs'). rewrite E', app_assoc. split; [reflexivity |].
      apply Forall_app; auto.
    + exists evs. simpl. auto.
Qed.

(* ================================================================= *)
(** ** The JSON recovery of [analyze_transcript] *)

Lemma prefixes_down_above (k n : nat) (c : str) :
  k < n -> prefixes_down k n c = [].
Proof.
  destruct k as [|k]; simpl; [reflexivity |].
  intros H. destruct (Nat.ltb_spec (S k) n); [reflexivity | lia].
Qed.

Lemma loads_run (py : interpreter) (s : str) (tr : trace) :
  loads py s tr = (json_loads py s, tr ++ [CalledJsonLoads s]).
Proof. reflexivity. Qed.

(** One iteration of the loop. *)
Lemma refine_step (py : interpreter) (fuel : nat) (x : char) (t : str)
  (tr : trace) :
  refine py (S fuel) (x :: t) tr =
  match json_loads py (x :: t) with
  | Return analysis => (Return (Some analysis), tr ++ [CalledJsonLoads (x :: t)])
  | Raise e =>
      if is_JSONDecodeError e
      then refine py fuel (drop_last (x :: t)) (tr ++ [CalledJsonLoads (x :: t)])
      else (Raise e, tr ++ [CalledJsonLoads (x :: t)])
  end.
Proof.
  cbn [refine]. unfold try_except, bind. rewrite loads_run.
  destruct (json_loads py (x :: t)) as [v|e]; [reflexivity |].
  destruct (is_JSONDecodeError e); reflexivity.
Qed.

(** The fuel [refine] is given is enough: more fuel changes nothing. *)
Lemma refine_fuel (py : interpreter) (fuel : nat) :
  forall t tr,
    length t <= fuel -> refine py fuel t tr = refine py (length t) t tr.
Proof.
  induction fuel as [|fuel IH]; intros t tr H.
  - destruct t; [reflexivity | simpl in H; lia].
  - destruct t as [|x t]; [reflexivity |].
    change (length (x :: t)) with (S (length t)).
    rewrite !refine_step.
    destruct (json_loads py (x :: t)) as [v|e]; [reflexivity |].
    destruct (is_JSONDecodeError e); [| reflexivity].
    assert (L : length (drop_last (x :: t)) = length t).
    { unfold drop_last.
      rewrite <- (firstn_all (x :: t)) at 1.
      change (length (x :: t)) with (S (length t)).
      rewrite removelast_firstn by (simpl; lia).
      rewrite length_firstn. simpl. lia. }
    simpl in H.
    rewrite IH by lia. rewrite L. reflexivity.
Qed.

(** The loop, when a prefix parses and every longer one raises a
    [JSONDecodeError]: it returns the parse of that prefix, after trying
    every longer prefix, longest first. *)
Lemma refine_found (py : interpreter) (c : str) (n : nat) (v : pyvalue)
  (k : nat) :
  forall tr,
    1 <= n <= k -> k <= length c ->
    json_loads py (firstn n c) = Return v ->
    (forall m, n < m <= k ->
               exists e, json_loads py (firstn m c) = Raise e
                         /\ is_JSONDecodeError e = true) ->
    refine py k (firstn k c) tr =
    (Return (Some v), tr ++ map CalledJsonLoads (prefixes_down k n c)).
Proof.
  induction k as [|k IH]; intros tr Hn Hk Hv Hfail; [lia |].
  destruct c as [|x c]; [simpl in Hk; lia |].
  change (firstn (S k) (x :: c)) with (x :: firstn k c).
  rewrite refine_step.
  change (x :: firstn k c) with (firstn (S k) (x :: c)).
  cbn [prefixes_down]. destruct (Nat.ltb_spec (S k) n) as [Hlt|Hge]; [lia |].
  destruct (Nat.eq_dec n (S k)) as [->|Hne].
  - rewrite Hv. rewrite prefixes_down_above by lia. reflexivity.
  - destruct (Hfail (S k)) as (e & He & De); [lia |]. rewrite He, De.
    unfold drop_last. rewrite removelast_firstn by (simpl in Hk |- *; lia).
    rewrite IH; try lia; try assumption.
    + rewrite <- app_assoc. reflexivity.
    + intros m Hm. apply Hfail. lia.
Qed.

(** The loop, when a prefix makes [json.loads] raise an exception that is
    not a [JSONDecodeError] and every longer one raises a
    [JSONDecodeError]: the exception leaves the loop. *)
Lemma refine_raised (py : interpreter) (c : str) (n : nat) (e : exn)
  (k : nat) :
  forall tr,
    1 <= n <= k -> k <= length c ->
    json_loads py (firstn n c) = Raise e -> is_JSONDecodeError e = false ->
    (forall m, n < m <= k ->
               exists e', json_loads py (firstn m c) = Raise e'
                          /\ is_JSONDecodeError e' = true) ->
    refine py k (firstn k c) tr =
    (Raise e, tr ++ map CalledJsonLoads (prefixes_down k n c)).
Proof.
  induction k as [|k IH]; intros tr Hn Hk Hv Hnd Hfail; [lia |].
  destruct c as [|x c]; [simpl in Hk; lia |].
  change (firstn (S k) (x :: c)) with (x :: firstn k c).
  rewrite refine_step.
  change (x :: firstn k c) with (firstn (S k) (x :: c)).
  cbn [prefixes_down]. destruct (Nat.ltb_spec (S k) n) as [Hlt|Hge]; [lia |].
  destruct (Nat.eq_dec n (S k)) as [->|Hne].
  - rewrite Hv, Hnd. rewrite prefixes_down_above by lia. reflexivity.
  - destruct (Hfail (S k)) as (e' & He & De); [lia |]. rewrite He, De.
    unfold drop_last. rewrite removelast_firstn by (simpl in Hk |- *; lia).
    rewrite IH; try lia; try assumption.
    + rewrite <- app_assoc. reflexivity.
    + intros m Hm. apply Hfail. lia.
Qed.

(** The loop, when every prefix raises a [JSONDecodeError]: it ends after
    trying them all. *)
Lemma refine_exhausted (py : interpreter) (c : str) (k : nat) :
  forall tr,
    k <= length c ->
    (forall m, 1 <= m <= k ->
               exists e, json_loads py (firstn m c) = Raise e
                         /\ is_JSONDecodeError e = true) ->
    refine py k (firstn k c) tr =
    (Return None, tr ++ map CalledJsonLoads (prefixes_down k 1 c)).
Proof.
  induction k as [|k IH]; intros tr Hk Hfail.
  - simpl. rewrite app_nil_r. reflexivity.
  - destruct c as [|x c]; [simpl in Hk; lia |].
    change (firstn (S k) (x :: c)) with (x :: firstn k c).
    rewrite refine_step.
    change (x :: firstn k c) with (firstn (S k) (x :: c)).
    cbn [prefixes_down]. destruct (Nat.ltb_spec (S k) 1) as [Hlt|Hge]; [lia |].
    destruct (Hfail (S k)) as (e & He & De); [lia |]. rewrite He, De.
    unfold drop_last. rewrite removelast_firstn by (simpl in Hk |- *; lia).
    rewrite IH; try lia.
    + rewrite <- app_assoc. reflexivity.
    + intros m Hm. apply Hfail. lia.
Qed.

(** What the loop raises is a limit error of [json.loads]. *)
Lemma refine_raises (py : interpreter) (fuel : nat) :
  forall t tr e tr', refine py fuel t tr = (Raise e, tr') -> limit_error e.
Proof.
  induction fuel as [|fuel IH]; intros t tr e tr' H.
  - destruct t; discriminate H.
  - destruct t as [|x t]; [discriminate H |].
    rewrite refine_step in H.
    destruct (json_loads py (x :: t)) as [v|e0] eqn:E; [discriminate H |].
    pose proof (json_loads_raise_cases py _ E) as C.
    destruct (is_JSONDecodeError e0).
    + eapply IH. exact H.
    + inversion H; subst. exact C.
Qed.

(** [json_recovery], case by case. *)
Lemma json_recovery_eq (py : interpreter) (raw_text : str) (tr : trace) :
  json_recovery py raw_text tr =
  if has_boundaries raw_text then
    let c := candidate raw_text in
    let tr1 := tr ++ [CalledJsonLoads c] in
    match json_loads py c with
    | Return analysis => (Return analysis, tr1)
    | Raise e_inner =>
        if is_JSONDecodeError e_inner then
          match refine py (length c) c tr1 with
          | (Return (Some analysis), tr2) => (Return analysis, tr2)
          | (Return None, tr2) =>
              (Return (err_refinement e_inner),
               tr2 ++ [Printed (msg_refinement e_inner)])
          | (Raise e, tr2) => (Raise e, tr2)
          end
        else (Raise e_inner, tr1)
    end
  else (Return err_no_json, tr ++ [Printed msg_no_boundaries]).
Proof.
  unfold json_recovery, has_boundaries, candidate, start_index, end_index.
  unfold try_except at 1.
  destruct (negb (find raw_text (ord "{") =? -1)%Z
            && negb (rfind raw_text (ord "}") =? -1)%Z
            && (find raw_text (ord "{") <? rfind raw_text (ord "}"))%Z).
  - cbv zeta. unfold try_except, bind. rewrite loads_run.
    set (c := slice raw_text _ _).
    destruct (json_loads py c) as [v|e] eqn:E; [reflexivity |].
    destruct (is_JSONDecodeError e) eqn:D; [| rewrite D; reflexivity].
    destruct (refine py (length c) c (tr ++ [CalledJsonLoads c]))
      as [[found|e'] tr'] eqn:R.
    + destruct found; reflexivity.
    + apply refine_raises in R. rewrite (limit_error_not_decode R).
      reflexivity.
  - reflexivity.
Qed.

(** When the boundaries are found, the candidate begins with [{] and so
    does each of its non-empty prefixes. *)
Lemma candidate_starts_with_brace (raw_text : str) (n : nat) :
  has_boundaries raw_text = true -> 1 <= n ->
  startswith (firstn n (candidate raw_text)) (lit "{") = true.
Proof.
  unfold has_boundaries, candidate, start_index, end_index, find, rfind.
  intros H Hn.
  destruct (index_of (ord "{") raw_text) as [i|] eqn:Ei;
    [| simpl in H; discriminate].
  destruct (last_index_of (ord "}") raw_text) as [j|] eqn:Ej;
    [| rewrite andb_false_r in H; discriminate].
  apply andb_true_iff in H as [_ H]. apply Z.ltb_lt in H.
  apply index_of_lt in Ei as [Hi Hc].
  rewrite Nat2Z.id.
  replace (Z.to_nat (Z.of_nat j + 1)) with (S j) by lia.
  unfold slice.
  destruct (skipn i raw_text) as [|x r] eqn:Es.
  - apply (f_equal (@length char)) in Es. rewrite length_skipn in Es.
    simpl in Es. lia.
  - assert (x = ord "{").
    { rewrite <- (firstn_skipn i raw_text) in Hc.
      rewrite nth_error_app2 in Hc by (rewrite length_firstn; lia).
      rewrite length_firstn, Nat.min_l, Nat.sub_diag, Es in Hc by lia.
      simpl in Hc. inversion Hc. reflexivity. }
    subst x.
    replace (S j - i) with (S (j - i)) by lia.
    destruct n as [|n]; [lia |]. cbn [firstn]. reflexivity.
Qed.

(** Trimming keeps the outcome of the boundary test. *)
Lemma has_boundaries_strip (raw : str) :
  has_boundaries (strip raw) =
  (negb (find raw (ord "{") =? -1)%Z && negb (rfind raw (ord "}") =? -1)%Z
   && (find raw (ord "{") <? rfind raw (ord "}"))%Z).
Proof.
  unfold has_boundaries, start_index, end_index.
  destruct (find_strip raw) as (k & Hk).
  destruct (Hk (ord "{") eq_refl) as (F1 & _ & F3 & _).
  destruct (Hk (ord "}") eq_refl) as (_ & R2 & _ & R4).
  destruct (Z.eqb_spec (find raw (ord "{")) (-1)) as [E|E].
  - apply F1 in E. rewrite E. reflexivity.
  - destruct (Z.eqb_spec (find (strip raw) (ord "{")) (-1)) as [E'|E'];
      [apply F1 in E'; contradiction |].
    destruct (Z.eqb_spec (rfind raw (ord "}")) (-1)) as [G|G].
    + apply R2 in G. rewrite G. reflexivity.
    + destruct (Z.eqb_spec (rfind (strip raw) (ord "}")) (-1)) as [G'|G'];
        [apply R2 in G'; contradiction |].
      cbn [negb andb]. specialize (F3 E). specialize (R4 G).
      destruct (Z.ltb_spec (find (strip raw) (ord "{")) (rfind (strip raw) (ord "}")));
        destruct (Z.ltb_spec (find raw (ord "{")) (rfind raw (ord "}")));
        try reflexivity; lia.
Qed.

(** What the loop tried and found, whatever the prefixes decode to. *)
Lemma refine_sound (py : interpreter) (c : str) (k : nat) :
  forall tr found tr',
    k <= length c ->
    refine py k (firstn k c) tr = (Return found, tr') ->
    exists evs,
      tr' = tr ++ evs
      /\ Forall (fun ev => exists m, 1 <= m <= k
                                     /\ ev = CalledJsonLoads (firstn m c)) evs
      /\ (forall v, found = Some v ->
                    exists m, 1 <= m <= k
                              /\ json_loads py (firstn m c) = Return v).
Proof.
  induction k as [|k IH]; intros tr found tr' Hk H.
  - simpl in H. inversion H; subst. exists []. rewrite app_nil_r.
    repeat split; [constructor | discriminate].
  - destruct c as [|x c]; [simpl in Hk; lia |].
    change (firstn (S k) (x :: c)) with (x :: firstn k c) in H.
    rewrite refine_step in H.
    change (x :: firstn k c) with (firstn (S k) (x :: c)) in H.
    destruct (json_loads py (firstn (S k) (x :: c))) as [v|e] eqn:E.
    + inversion H; subst. exists [CalledJsonLoads (firstn (S k) (x :: c))].
      repeat split.
      * constructor; [| constructor]. exists (S k). split; [lia | reflexivity].
      * intros w Hw. inversion Hw; subst. exists (S k). split; [lia | exact E].
    + destruct (is_JSONDecodeError e); [| discriminate H].
      unfold drop_last in H.
      rewrite removelast_firstn in H by (simpl in Hk |- *; lia).
      apply IH in H; [| lia]. destruct H as (evs & -> & F & Hfound).
      exists (CalledJsonLoads (firstn (S k) (x :: c)) :: evs).
      rewrite <- app_assoc. repeat split.
      * constructor.
        -- exists (S k). split; [lia | reflexivity].
        -- eapply Forall_impl; [| exact F]. intros ev (m & Hm & ->).
           exists m. split; [lia | reflexivity].
      * intros v Hv. destruct (Hfound v Hv) as (m & Hm & L).
        exists m. split; [lia | exact L].
Qed.

Lemma candidate_itself_starts_with_brace (raw_text : str) :
  has_boundaries raw_text = true ->
  startswith (candidate raw_text) (lit "{") = true.
Proof.
  intros B.
  pose proof (@candidate_starts_with_brace raw_text 1 B (le_n 1)) as H1.
  destruct (candidate raw_text) as [|x c] eqn:Ec; [discriminate |].
  rewrite <- Ec. rewrite <- (firstn_all (candidate raw_text)).
  apply candidate_starts_with_brace; [exact B |]. rewrite Ec. simpl. lia.
Qed.

(** What the recovery raises is a limit error of [json.loads]. *)
Lemma json_recovery_raises (py : interpreter) (raw_text : str)
  (tr : trace) (e : exn) (tr' : trace) :
  json_recovery py raw_text tr = (Raise e, tr') -> limit_error e.
Proof.
  rewrite json_recovery_eq.
  destruct (has_boundaries raw_text); [| discriminate].
  cbv zeta.
  destruct (json_loads py (candidate raw_text)) as [v|e0] eqn:E;
    [discriminate |].
  pose proof (json_loads_raise_cases py _ E) as C.
  destruct (is_JSONDecodeError e0).
  - destruct (refine py _ _ _) as [[[w|]|e'] tr2] eqn:R; try discriminate.
    intros H. inversion H; subst. eapply refine_raises. exact R.
  - intros H. inversion H; subst. exact C.
Qed.

(** [analyze_transcript], case by case on the answer of the LLM: what the
    LLM or the recovery raises is caught and reported. *)
Lemma analyze_transcript_eq (py : interpreter) (svc : services)
  (transcript : str) (tr : trace) :
  analyze_transcript py svc transcript tr =
  let prompt := analysis_prompt transcript in
  let tr1 := tr ++ [CalledGenerateContent prompt] in
  let failed e tr2 := (Return (error_dict (exn_str e)),
                       tr2 ++ [Printed (msg_llm_error e)]) in
  match generate_content svc prompt with
  | Raise e => failed e tr1
  | Return response =>
      match response_text response with
      | Raise e => failed e tr1
      | Return text =>
          match json_recovery py (strip text)
                  (tr1 ++ [Printed (msg_raw_response (strip text))]) with
          | (Return analysis, tr2) => (Return analysis, tr2)
          | (Raise e, tr2) => failed e tr2
          end
      end
  end.
Proof.
  unfold analyze_transcript, try_except. cbv zeta.
  rewrite bind_perform.
  destruct (generate_content svc (analysis_prompt transcript)) as [response|e];
    [| reflexivity].
  unfold bind at 1, lift. 
  destruct (response_text response) as [text|e]; [| reflexivity].
  unfold bind, print, perform. unfold msg_raw_response.
  destruct (json_recovery py (strip text) _) as [[v|e] tr2]; reflexivity.
Qed.

(** [analyze_transcript] never raises. *)
Lemma analyze_transcript_returns (py : interpreter) (svc : services)
  (transcript : str) (tr : trace) :
  exists v tr', analyze_transcript py svc transcript tr = (Return v, tr').
Proof.
  rewrite analyze_transcript_eq. cbv zeta.
  destruct (generate_content svc (analysis_prompt transcript)) as [response|e];
    [| eauto].
  destruct (response_text response) as [text|e]; [| eauto].
  destruct (json_recovery py (strip text) _) as [[v|e] tr2]; eauto.
Qed.

(* ----------------------------------------------------------------- *)
(** *** Claim C3 *)

(** C3.  For every raw LLM text in which [{] is missing, or [}] is
    missing, or the first [{] comes after the last [}],
    [analyze_transcript] returns the error result "The model's response did
    not contain valid JSON." and the trace shows that [json.loads] was not
    called: after the call of the LLM it holds the two printed lines
    only. *)
Theorem C3_no_boundaries_is_parse_error
  (py : interpreter) (svc : services) (transcript raw : str) (tr : trace) :
  generate_content svc (analysis_prompt transcript)
  = Return {| response_text := Return raw |} ->
  (find raw (ord "{") = -1 \/ rfind raw (ord "}") = -1
   \/ rfind raw (ord "}") < find raw (ord "{"))%Z ->
  analyze_transcript py svc transcript tr =
  (Return (error_dict (lit "The model's response did not contain valid JSON.")),
   tr ++ [CalledGenerateContent (analysis_prompt transcript);
          Printed (msg_raw_response (strip raw));
          Printed (lit "Could not find valid JSON boundaries in the raw response.")]).
Proof.
  intros Hllm Hraw.
  rewrite analyze_transcript_eq. cbv zeta. rewrite Hllm. cbn [response_text].
  rewrite json_recovery_eq, has_boundaries_strip.
  assert (B : (negb (find raw (ord "{") =? -1)%Z
               && negb (rfind raw (ord "}") =? -1)%Z
               && (find raw (ord "{") <? rfind raw (ord "}"))%Z) = false).
  { destruct Hraw as [H|[H|H]].
    - rewrite H. reflexivity.
    - rewrite H. apply andb_false_iff. left. apply andb_false_r.
    - apply andb_false_iff. right. apply Z.ltb_ge. lia. }
  rewrite B. rewrite <- !app_assoc. reflexivity.
Qed.

Lemma C3_witness :
  analyze_transcript script_interpreter
    (constant_services (lit "  no json here } { ")) (lit "t") [] =
  (Return (error_dict (lit "The model's response did not contain valid JSON.")),
   [CalledGenerateContent (analysis_prompt (lit "t"));
    Printed (msg_raw_response (lit "no json here } {"));
    Printed (lit "Could not find valid JSON boundaries in the raw response.")]).
Proof.
  apply (@C3_no_boundaries_is_parse_error script_interpreter
           (constant_services (lit "  no json here } { ")) (lit "t")
           (lit "  no json here } { ") []).
  - reflexivity.
  - right. right. vm_compute. reflexivity.
Defined.

(* ----------------------------------------------------------------- *)
(** *** Claim C2 *)

(** C2.  When the LLM answers
    [Here is the result: {"summary":"ok"} trailing junk],
    [analyze_transcript] returns the object [{"summary": "ok"}]: it parses
    the text from the first [{] to the last [}], once, and that parse
    succeeds. *)
Theorem C2_example_is_recovered
  (py : interpreter) (svc : services) (transcript : str) (tr : trace) :
  generate_content svc (analysis_prompt transcript)
  = Return {| response_text := Return example_raw |} ->
  analyze_transcript py svc transcript tr =
  (Return (PyDict [(lit "summary", PyStr (lit "ok"))]),
   tr ++ [CalledGenerateContent (analysis_prompt transcript);
          Printed (msg_raw_response example_raw);
          CalledJsonLoads example_json]).
Proof.
  intros Hllm.
  rewrite analyze_transcript_eq. cbv zeta. rewrite Hllm. cbn [response_text].
  replace (strip example_raw) with example_raw by (vm_compute; reflexivity).
  rewrite json_recovery_eq.
  replace (has_boundaries example_raw) with true by (vm_compute; reflexivity).
  cbv zeta.
  replace (candidate example_raw) with example_json by (vm_compute; reflexivity).
  replace (json_loads py example_json)
    with (Return (PyDict [(lit "summary", PyStr (lit "ok"))]))
    by (vm_compute; reflexivity).
  rewrite <- !app_assoc. reflexivity.
Qed.

Lemma C2_witness :
  analyze_transcript script_interpreter (constant_services example_raw)
    (lit "t") [] =
  (Return (PyDict [(lit "summary", PyStr (lit "ok"))]),
   [CalledGenerateContent (analysis_prompt (lit "t"));
    Printed (msg_raw_response example_raw);
    CalledJsonLoads example_json]).
Proof.
  apply (@C2_example_is_recovered script_interpreter
           (constant_services example_raw) (lit "t") []).
  reflexivity.
Defined.

(* ----------------------------------------------------------------- *)
(** *** Claim C10 *)

Lemma json_recovery_value_is_dict
  (py : interpreter) (raw_text : str) (tr : trace) (v : pyvalue)
  (tr' : trace) :
  json_recovery py raw_text tr = (Return v, tr') -> exists d, v = PyDict d.
Proof.
  intros H.
  rewrite json_recovery_eq in H.
  destruct (has_boundaries raw_text) eqn:B;
    [| inversion H; unfold err_no_json, error_dict; eauto].
  cbv zeta in H.
  destruct (json_loads py (candidate raw_text)) as [a|e] eqn:E.
  - inversion H; subst a.
    apply (json_loads_object py (candidate raw_text)); [| exact E].
    apply candidate_itself_starts_with_brace; exact B.
  - destruct (is_JSONDecodeError e); [| discriminate].
    destruct (refine py (length (candidate raw_text)) (candidate raw_text)
                (tr ++ [CalledJsonLoads (candidate raw_text)]))
      as [[found|e'] tr2] eqn:R; [| discriminate].
    rewrite <- (firstn_all (candidate raw_text)) in R at 2.
    apply refine_sound in R; [| lia].
    destruct R as (evs & _ & _ & Hfound).
    destruct found as [a|].
    + inversion H; subst a. destruct (Hfound v eq_refl) as (m & Hm & L).
      apply (json_loads_object py (firstn m (candidate raw_text))); [| exact L].
      apply candidate_starts_with_brace; [exact B | lia].
    + inversion H. unfold err_refinement, error_dict. eauto.
Qed.

Lemma json_recovery_loads_objects
  (py : interpreter) (raw_text : str) (tr : trace) (v : pyvalue)
  (tr' : trace) :
  json_recovery py raw_text tr = (Return v, tr') ->
  exists evs, tr' = tr ++ evs /\ Forall loads_only_objects evs.
Proof.
  intros H.
  rewrite json_recovery_eq in H.
  destruct (has_boundaries raw_text) eqn:B.
  - cbv zeta in H.
    assert (C0 : loads_only_objects (CalledJsonLoads (candidate raw_text)))
      by (apply candidate_itself_starts_with_brace; exact B).
    destruct (json_loads py (candidate raw_text)) as [a|e] eqn:E.
    + inversion H; subst. exists [CalledJsonLoads (candidate raw_text)].
      split; [reflexivity | constructor; [exact C0 | constructor]].
    + destruct (is_JSONDecodeError e); [| discriminate].
      destruct (refine py (length (candidate raw_text)) (candidate raw_text)
                  (tr ++ [CalledJsonLoads (candidate raw_text)]))
        as [[found|e'] tr2] eqn:R; [| discriminate].
      rewrite <- (firstn_all (candidate raw_text)) in R at 2.
      apply refine_sound in R; [| lia].
      destruct R as (evs & -> & F & _).
      assert (F' : Forall loads_only_objects evs).
      { eapply Forall_impl; [| exact F]. intros ev (m & Hm & ->). simpl.
        apply candidate_starts_with_brace; [exact B | lia]. }
      destruct found as [a|]; inversion H; subst.
      * exists (CalledJsonLoads (candidate raw_text) :: evs).
        rewrite <- app_assoc. split; [reflexivity | constructor; assumption].
      * exists (CalledJsonLoads (candidate raw_text) :: evs
                  ++ [Printed (msg_refinement e)]).
        rewrite <- !app_assoc. split; [reflexivity |].
        constructor; [exact C0 |]. apply Forall_app. split; [exact F' |].
        constructor; [exact I | constructor].
  - inversion H; subst. exists [Printed msg_no_boundaries].
    split; [reflexivity | constructor; [exact I | constructor]].
Qed.

(** C10.  Whenever the JSON recovery returns a value, that value is a
    [dict] (a JSON object), never a list, string, number, boolean or
    [None]: every text the recovery hands to [json.loads] begins with [{]
    (the candidate begins at the first [{] and trimming removes final
    characters only), and [json.loads] decodes such a text to a [dict] or
    not at all. *)
Theorem C10_recovered_value_is_object
  (py : interpreter) (raw_text : str) (tr : trace) (v : pyvalue)
  (tr' : trace) :
  json_recovery py raw_text tr = (Return v, tr') ->
  (exists d, v = PyDict d)
  /\ (exists evs, tr' = tr ++ evs /\ Forall loads_only_objects evs)
  /\ (forall p w, startswith p (lit "{") = true ->
                  json_loads py p = Return w ->
                  exists d, w = PyDict d).
Proof.
  intros H. split; [| split].
  - eapply json_recovery_value_is_dict; exact H.
  - eapply json_recovery_loads_objects; exact H.
  - intros p w. apply json_loads_object.
Qed.

Lemma C10_witness :
  (exists d, PyDict [] = PyDict d)
  /\ (exists evs,
         [CalledJsonLoads (lit "{} }"); CalledJsonLoads (lit "{} }");
          CalledJsonLoads (lit "{} ")] = [] ++ evs
         /\ Forall loads_only_objects evs)
  /\ (forall p w, startswith p (lit "{") = true ->
                  json_loads script_interpreter p = Return w ->
                  exists d, w = PyDict d).
Proof.
  apply (@C10_recovered_value_is_object script_interpreter
           (lit "x {} } y") [] (PyDict [])
           [CalledJsonLoads (lit "{} }"); CalledJsonLoads (lit "{} }");
            CalledJsonLoads (lit "{} ")]).
  vm_compute. reflexivity.
Defined.

(** A prefix of [c] is a shorter prefix followed by text. *)
Lemma firstn_split (c : str) (n m : nat) :
  n <= m -> firstn m c = firstn n c ++ firstn (m - n) (skipn n c).
Proof.
  intros H. rewrite <- (firstn_skipn n c) at 1. rewrite firstn_app.
  rewrite (firstn_all2 (n := m) (firstn n c)) by (rewrite length_firstn; lia).
  f_equal. rewrite length_firstn.
  destruct (Nat.le_gt_cases n (length c)) as [L|L].
  - rewrite Nat.min_l by exact L. reflexivity.
  - rewrite skipn_all2 by lia. rewrite !firstn_nil. reflexivity.
Qed.

(** Above a prefix that begins with [{] and parses, every prefix parses to
    the same value or raises a [JSONDecodeError]: the scanner stops after
    the object, before any integer or nesting beyond it. *)
Lemma prefix_above_parsed (py : interpreter) (c : str) (n m : nat)
  (v : pyvalue) :
  startswith (firstn n c) (lit "{") = true ->
  json_loads py (firstn n c) = Return v -> n <= m ->
  json_loads py (firstn m c) = Return v
  \/ exists e, json_loads py (firstn m c) = Raise e
               /\ is_JSONDecodeError e = true.
Proof.
  intros Hs Hv Hm. rewrite (firstn_split c Hm).
  rewrite (json_loads_tail py (firstn n c) _ Hs Hv).
  destruct (forallb is_json_ws _); [left; reflexivity |].
  right. eexists. split; reflexivity.
Qed.

(** The non-empty prefixes of a text, from the longest down: the first on
    which [json.loads] does not raise a [JSONDecodeError] parses, or it
    raises another exception; or all of them raise a [JSONDecodeError]. *)
Lemma first_prefix_that_ends_the_loop (py : interpreter) (c : str) (k : nat) :
  (exists n v,
      1 <= n <= k /\ json_loads py (firstn n c) = Return v
      /\ forall m, n < m <= k ->
                   exists e, json_loads py (firstn m c) = Raise e
                             /\ is_JSONDecodeError e = true)
  \/ (exists n e,
         1 <= n <= k /\ json_loads py (firstn n c) = Raise e
         /\ is_JSONDecodeError e = false
         /\ forall m, n < m <= k ->
                      exists e', json_loads py (firstn m c) = Raise e'
                                 /\ is_JSONDecodeError e' = true)
  \/ (forall m, 1 <= m <= k ->
                exists e, json_loads py (firstn m c) = Raise e
                          /\ is_JSONDecodeError e = true).
Proof.
  induction k as [|k IH].
  - right. right. intros m Hm. lia.
  - destruct (json_loads py (firstn (S k) c)) as [v|e] eqn:E.
    + left. exists (S k), v. repeat split; try lia; exact E.
    + destruct (is_JSONDecodeError e) eqn:D.
      * destruct IH as [(n & v & Hn & Hv & Hfail)
                       | [(n & e' & Hn & Hv & Hd & Hfail) | Hfail]].
        -- left. exists n, v. repeat split; try lia; try exact Hv.
           intros m Hm. destruct (Nat.eq_dec m (S k)) as [-> | Hne];
             [eauto | apply Hfail; lia].
        -- right. left. exists n, e'. repeat split; try lia; try assumption.
           intros m Hm. destruct (Nat.eq_dec m (S k)) as [-> | Hne];
             [eauto | apply Hfail; lia].
        -- right. right. intros m Hm.
           destruct (Nat.eq_dec m (S k)) as [-> | Hne];
             [eauto | apply Hfail; lia].
      * right. left. exists (S k), e. repeat split; try lia; assumption.
Qed.

(* ----------------------------------------------------------------- *)
(** *** Claim C1 *)

(** On [{"a"}] no prefix parses.  The last decode error is the one of the
    last attempt, on [{]; the error result carries the error of the first
    attempt, on the whole candidate, and the two differ. *)
Lemma C1_error_carried_is_not_the_last :
  json_loads script_interpreter truncated_json = Raise first_error_of_truncated
  /\ json_loads script_interpreter (lit "{") = Raise last_error_of_truncated
  /\ json_recovery script_interpreter truncated_json [] =
     (Return (err_refinement first_error_of_truncated),
      [CalledJsonLoads truncated_json;
       CalledJsonLoads truncated_json;
       CalledJsonLoads (lit "{" ++ quoted "a");
       CalledJsonLoads (lit "{" ++ [dq] ++ lit "a");
       CalledJsonLoads (lit "{" ++ [dq]);
       CalledJsonLoads (lit "{");
       Printed (msg_refinement first_error_of_truncated)])
  /\ err_refinement first_error_of_truncated
     <> err_refinement last_error_of_truncated.
Proof.
  repeat split; try (vm_compute; reflexivity).
  vm_compute. discriminate.
Qed.

(** C1, amended.  [analyze_transcript] never raises.  The JSON recovery
    inside it raises in one case only: when [json.loads] raises an exception
    that is not a [JSONDecodeError], which is the [ValueError] of an integer
    of more than 4300 digits or the [RecursionError] of too deep a nesting;
    the exception then ends the recovery at that attempt, and
    [analyze_transcript] prints it and returns the error record that
    carries its text.

    When the first attempt, on the candidate (the text from the first [{]
    to the last [}]), parses, the recovery returns its value.  When it
    raises a [JSONDecodeError], the recovery parses the candidate again,
    then removes its final character and retries, again and again.  One of
    three cases applies.  If some non-empty prefix
    parses, the result is the parse of the longest such prefix, and the
    attempts are the candidate and its prefixes down to that one, longest
    first.  If no prefix parses and [json.loads] raises an exception that is
    not a [JSONDecodeError] on some prefix, the recovery raises the exception
    of the longest such prefix, after the attempts down to that one.  If all
    the non-empty prefixes raise a [JSONDecodeError], all are tried and the
    result is the error record that carries the decode error of the first
    attempt, the one on the whole candidate. *)
Theorem C1_recovery_by_trimming :
  (forall py svc transcript tr,
      exists v tr', analyze_transcript py svc transcript tr = (Return v, tr'))
  /\ (forall py raw_text tr e tr',
         json_recovery py raw_text tr = (Raise e, tr') ->
         is_JSONDecodeError e = false /\ limit_error e)
  /\ (forall py svc transcript tr response text e tr',
         generate_content svc (analysis_prompt transcript) = Return response ->
         response_text response = Return text ->
         json_recovery py (strip text)
           (tr ++ [CalledGenerateContent (analysis_prompt transcript);
                   Printed (msg_raw_response (strip text))])
         = (Raise e, tr') ->
         analyze_transcript py svc transcript tr =
         (Return (error_dict (exn_str e)),
          tr' ++ [Printed (lit "Gemini API error (Analysis): " ++ exn_str e)]))
  /\ (forall py raw_text tr,
         has_boundaries raw_text = true ->
         let c := candidate raw_text in
         (forall v,
             json_loads py c = Return v ->
             json_recovery py raw_text tr = (Return v, tr ++ [CalledJsonLoads c]))
         /\ (forall e,
                json_loads py c = Raise e -> is_JSONDecodeError e = false ->
                json_recovery py raw_text tr
                = (Raise e, tr ++ [CalledJsonLoads c]))
         /\ (forall e_first,
                json_loads py c = Raise e_first ->
                is_JSONDecodeError e_first = true ->
                ((exists n v,
                     1 <= n <= length c /\ json_loads py (firstn n c) = Return v
                     /\ forall m, n < m <= length c ->
                                  exists e, json_loads py (firstn m c) = Raise e)
                 \/ (exists n e,
                        1 <= n <= length c
                        /\ json_loads py (firstn n c) = Raise e
                        /\ is_JSONDecodeError e = false
                        /\ forall m, n < m <= length c ->
                                     exists e',
                                       json_loads py (firstn m c) = Raise e'
                                       /\ is_JSONDecodeError e' = true)
                 \/ (forall m, 1 <= m <= length c ->
                               exists e,
                                 json_loads py (firstn m c) = Raise e
                                 /\ is_JSONDecodeError e = true))
                /\ (forall n v,
                       1 <= n <= length c ->
                       json_loads py (firstn n c) = Return v ->
                       (forall m, n < m <= length c ->
                                  exists e, json_loads py (firstn m c) = Raise e) ->
                       json_recovery py raw_text tr =
                       (Return v,
                        tr ++ CalledJsonLoads c
                           :: map CalledJsonLoads
                                (prefixes_down (length c) n c)))
                /\ (forall n e,
                       1 <= n <= length c ->
                       json_loads py (firstn n c) = Raise e ->
                       is_JSONDecodeError e = false ->
                       (forall m, n < m <= length c ->
                                  exists e',
                                    json_loads py (firstn m c) = Raise e'
                                    /\ is_JSONDecodeError e' = true) ->
                       json_recovery py raw_text tr =
                       (Raise e,
                        tr ++ CalledJsonLoads c
                           :: map CalledJsonLoads
                                (prefixes_down (length c) n c)))
                /\ ((forall m, 1 <= m <= length c ->
                               exists e,
                                 json_loads py (firstn m c) = Raise e
                                 /\ is_JSONDecodeError e = true) ->
                    json_recovery py raw_text tr =
                    (Return (error_dict
                               (lit "The model's response was not valid JSON after refinement: "
                                  ++ exn_str e_first)),
                     tr ++ CalledJsonLoads c
                        :: map CalledJsonLoads (prefixes_down (length c) 1 c)
                        ++ [Printed (msg_refinement e_first)])))).
Proof.
  split; [exact analyze_transcript_returns |].
  split.
  { intros py raw_text tr e tr' H. apply json_recovery_raises in H.
    split; [apply limit_error_not_decode |]; exact H. }
  split.
  { intros py svc transcript tr response text e tr' G T R.
    rewrite analyze_transcript_eq. cbv zeta. rewrite G, T.
    rewrite <- app_assoc. cbn [app]. rewrite R. reflexivity. }
  intros py raw_text tr B c. subst c.
  set (c := candidate raw_text) in *.
  split.
  { intros v E. rewrite json_recovery_eq, B. cbv zeta. fold c.
    rewrite E. reflexivity. }
  split.
  { intros e E D. rewrite json_recovery_eq, B. cbv zeta. fold c.
    rewrite E, D. reflexivity. }
  intros e_first E D.
  assert (Above : forall n v,
             1 <= n <= length c -> json_loads py (firstn n c) = Return v ->
             (forall m, n < m <= length c ->
                        exists e, json_loads py (firstn m c) = Raise e) ->
             forall m, n < m <= length c ->
                       exists e, json_loads py (firstn m c) = Raise e
                                 /\ is_JSONDecodeError e = true).
  { intros n v Hn Hv Hfail m Hm.
    destruct (@prefix_above_parsed py c n m v) as [P|P];
      [apply candidate_starts_with_brace; [exact B | lia]
      | exact Hv | lia | | exact P].
    destruct (Hfail m Hm) as [e He]. congruence. }
  split; [| split; [| split]].
  - destruct (first_prefix_that_ends_the_loop py c (length c))
      as [(n & v & Hn & Hv & Hfail) | [H | H]].
    + left. exists n, v. repeat split; try lia; try exact Hv.
      intros m Hm. destruct (Hfail m Hm) as (e & He & _). eauto.
    + right. left. exact H.
    + right. right. exact H.
  - intros n v Hn Hv Hfail.
    rewrite json_recovery_eq, B. cbv zeta. fold c. rewrite E, D.
    rewrite <- (firstn_all c) at 2.
    rewrite (@refine_found py c n v (length c));
      try assumption; try lia; [| exact (Above n v Hn Hv Hfail)].
    rewrite <- app_assoc. reflexivity.
  - intros n e Hn He Hd Hfail.
    rewrite json_recovery_eq, B. cbv zeta. fold c. rewrite E, D.
    rewrite <- (firstn_all c) at 2.
    rewrite (@refine_raised py c n e (length c)); try assumption; try lia.
    rewrite <- app_assoc. reflexivity.
  - intros Hfail.
    rewrite json_recovery_eq, B. cbv zeta. fold c. rewrite E, D.
    rewrite <- (firstn_all c) at 2.
    rewrite (@refine_exhausted py c (length c)); try assumption; try lia.
    rewrite <- !app_assoc. reflexivity.
Qed.

(** On [{} }] the candidate fails with extra data and its prefix [{} ]
    parses; on [{"a"}] no prefix parses; on [{"n":10...0.5x}], with 4300
    zeros, the prefix that ends with the point is an integer of 4301
    digits. *)
Lemma C1_witness :
  json_recovery script_interpreter (lit "{} }") [] =
  (Return (PyDict []),
   [CalledJsonLoads (lit "{} }"); CalledJsonLoads (lit "{} }");
    CalledJsonLoads (lit "{} ")])
  /\ json_recovery script_interpreter truncated_json [] =
     (Return (error_dict
                (lit "The model's response was not valid JSON after refinement: "
                   ++ exn_str first_error_of_truncated)),
      [] ++ CalledJsonLoads (candidate truncated_json)
         :: map CalledJsonLoads
              (prefixes_down (length (candidate truncated_json)) 1
                 (candidate truncated_json))
         ++ [Printed (msg_refinement first_error_of_truncated)])
  /\ json_recovery script_interpreter long_integer_json [] =
     (Raise (ValueError (msg_int_limit 4301)),
      [] ++ CalledJsonLoads (candidate long_integer_json)
         :: map CalledJsonLoads
              (prefixes_down (length (candidate long_integer_json)) 4307
                 (candidate long_integer_json))).
Proof.
  pose proof (proj2 (proj2 (proj2 C1_recovery_by_trimming))) as T.
  split; [| split].
  - apply (proj1 (proj2 (proj2 (proj2 (T script_interpreter (lit "{} }") []
                                         eq_refl))
                           (JSONDecodeError msg_extra (lit "{} }") 3)
                           eq_refl eq_refl)) 3 (PyDict [])).
    + vm_compute. lia.
    + vm_compute. reflexivity.
    + intros m Hm. assert (m = 4) as -> by (vm_compute in Hm; lia).
      eexists. vm_compute. reflexivity.
  - apply (proj2 (proj2 (proj2 (proj2 (proj2 (T script_interpreter
                                                truncated_json [] eq_refl))
                                  first_error_of_truncated eq_refl eq_refl)))).
    intros m Hm.
    assert (m = 1 \/ m = 2 \/ m = 3 \/ m = 4 \/ m = 5) as D
      by (vm_compute in Hm; lia).
    destruct D as [-> | [-> | [-> | [-> | ->]]]];
      eexists; vm_compute; split; reflexivity.
  - assert (B : has_boundaries long_integer_json = true)
      by (vm_compute; reflexivity).
    assert (L : length (candidate long_integer_json) = 4310)
      by (vm_compute; reflexivity).
    apply (proj1 (proj2 (proj2 (proj2 (proj2 (T script_interpreter
                                                long_integer_json [] B))
                                  (JSONDecodeError msg_comma long_integer_json
                                     4308)
                                  ltac:(vm_compute; reflexivity) eq_refl)))
             4307 (ValueError (msg_int_limit 4301))).
    + rewrite L. lia.
    + vm_compute. reflexivity.
    + reflexivity.
    + intros m Hm. rewrite L in Hm.
      assert (m = 4308 \/ m = 4309 \/ m = 4310) as D by lia.
      destruct D as [-> | [-> | ->]];
        eexists; vm_compute; split; reflexivity.
Defined.

(* ================================================================= *)
(** ** The transcript fetcher *)

Lemma fold_left_join (sep : str) (ps : list str) :
  forall p, fold_left (fun acc q => acc ++ sep ++ q) ps p
            = p ++ concat (map (fun q => sep ++ q) ps).
Proof.
  induction ps as [|q ps IH]; intros p; simpl.
  - rewrite app_nil_r. reflexivity.
  - rewrite IH. rewrite <- !app_assoc. reflexivity.
Qed.

Lemma join_space_joined (texts : list str) :
  join (lit " ") texts = space_joined texts.
Proof.
  destruct texts as [|t rest]; [reflexivity |].
  unfold join. rewrite fold_left_join.
  revert t; induction rest as [|u rest IH]; intros t.
  - simpl. apply app_nil_r.
  - change (space_joined (t :: u :: rest))
      with (t ++ lit " " ++ space_joined (u :: rest)).
    rewrite <- IH. reflexivity.
Qed.

Lemma get_transcript_eq
  (svc : services) (video_id lang_code : str) (tr : trace) :
  get_transcript svc video_id lang_code tr =
  (Return (fetched svc video_id lang_code),
   tr ++ fetch_events svc video_id lang_code).
Proof.
  unfold get_transcript, try_except, fetched, fetch_events.
  rewrite bind_perform.
  destruct (youtube_get_transcript svc video_id [lang_code]) as [l|e].
  - rewrite join_space_joined. reflexivity.
  - unfold is_Exception, bind, print, perform, ret.
    rewrite <- app_assoc. reflexivity.
Qed.

(* ----------------------------------------------------------------- *)
(** *** Claim C7 *)

(** C7.  When the transcript service answers, [get_transcript] returns the
    texts of the caption fragments in the order of the service, joined by
    single spaces and otherwise unchanged.  When the service raises,
    [get_transcript] returns [None] and does not raise; the failure is
    printed and nothing else happens. *)
Theorem C7_get_transcript
  (svc : services) (video_id lang_code : str) (tr : trace) :
  get_transcript svc video_id lang_code tr =
  match youtube_get_transcript svc video_id [lang_code] with
  | Return transcript_list =>
      (Return (Some (space_joined (map text transcript_list))),
       tr ++ [CalledGetTranscript video_id [lang_code]])
  | Raise e =>
      (Return None,
       tr ++ [CalledGetTranscript video_id [lang_code];
              Printed (lit "Error fetching transcript: " ++ exn_str e)])
  end.
Proof.
  rewrite get_transcript_eq. unfold fetched, fetch_events.
  destruct (youtube_get_transcript svc video_id [lang_code]); reflexivity.
Qed.

(* ================================================================= *)
(** ** The question answerer *)

(* ----------------------------------------------------------------- *)
(** *** Claim C9 *)

(** C9.  [answer_question] returns the trimmed text of the LLM response
    when the call and the reading of the text succeed, and the fixed
    string "Sorry, I could not generate an answer at this time." when
    either raises; it never raises.  Trimmed means: the answer is the text
    without a leading and a trailing run of whitespace, and it neither
    begins nor ends with a whitespace character.  Hence the ask handler,
    given a JSON object with a non-empty question and a non-empty
    transcript, always answers 200 with an [answer] payload, the answer
    being what [answer_question] returns, the fixed string included. *)
Theorem C9_answer_question_never_fails :
  (forall svc question transcript tr,
      answer_question svc question transcript tr =
      let prompt := answer_prompt question transcript in
      let tr1 := tr ++ [CalledGenerateContent prompt] in
      let fallback e :=
        (Return (lit "Sorry, I could not generate an answer at this time."),
         tr1 ++ [Printed (lit "Gemini API error (Answering): " ++ exn_str e)]) in
      match generate_content svc prompt with
      | Raise e => fallback e
      | Return response =>
          match response_text response with
          | Raise e => fallback e
          | Return text => (Return (strip text), tr1)
          end
      end)
  /\ (forall svc question transcript tr response text,
         generate_content svc (answer_prompt question transcript)
         = Return response ->
         response_text response = Return text ->
         exists answer ws1 ws2,
           answer_question svc question transcript tr
           = (Return answer,
              tr ++ [CalledGenerateContent (answer_prompt question transcript)])
           /\ text = ws1 ++ answer ++ ws2
           /\ forallb isspace ws1 = true /\ forallb isspace ws2 = true
           /\ (forall x r, answer = x :: r -> isspace x = false)
           /\ (forall x r, answer = r ++ [x] -> isspace x = false))
  /\ (forall py svc data x question y transcript tr,
         dict_get data (lit "question") = Some (PyStr (x :: question)) ->
         dict_get data (lit "transcript") = Some (PyStr (y :: transcript)) ->
         exists answer tr',
           answer_question svc (x :: question) (y :: transcript) tr
           = (Return answer, tr')
           /\ ask_question_route py svc {| get_json := Return (PyDict data) |} tr
              = (Return (Jsonify (PyDict [(lit "answer", PyStr answer)]) 200),
                 tr')).
Proof.
  assert (A : forall svc question transcript tr,
      answer_question svc question transcript tr =
      let prompt := answer_prompt question transcript in
      let tr1 := tr ++ [CalledGenerateContent prompt] in
      let fallback e :=
        (Return (lit "Sorry, I could not generate an answer at this time."),
         tr1 ++ [Printed (lit "Gemini API error (Answering): " ++ exn_str e)]) in
      match generate_content svc prompt with
      | Raise e => fallback e
      | Return response =>
          match response_text response with
          | Raise e => fallback e
          | Return text => (Return (strip text), tr1)
          end
      end).
  { intros svc question transcript tr.
    unfold answer_question, try_except. cbv zeta. rewrite bind_perform.
    destruct (generate_content svc (answer_prompt question transcript))
      as [response|e]; [| reflexivity].
    unfold bind, lift. destruct (response_text response); reflexivity. }
  split; [exact A |]. split.
  - intros svc question transcript tr response text G T.
    destruct (strip_spec text) as (ws1 & ws2 & Hs & H1 & H2 & Hb & He).
    exists (strip text), ws1, ws2.
    rewrite A. cbv zeta. rewrite G, T.
    repeat split; assumption.
  - intros py svc data x question y transcript tr Q Tr.
    unfold ask_question_route, answer_question_of, value_get.
    cbn [get_json]. unfold bind at 1, lift at 1.
    rewrite Q, Tr. unfold bind at 1, lift at 1. unfold bind at 1, lift at 1.
    cbn [truthy negb orb format_value].
    unfold bind at 1. unfold bind at 1, lift at 1.
    unfold bind at 1, lift at 1. rewrite A. cbv zeta.
    destruct (generate_content svc (answer_prompt (x :: question) (y :: transcript)))
      as [response|e]; [| eexists; eexists; split; reflexivity].
    destruct (response_text response); eexists; eexists; split; reflexivity.
Qed.

(** An answer with whitespace around it, and a body with a third field. *)
Lemma C9_witness :
  (exists answer ws1 ws2,
      answer_question (constant_services (lit "  It is a song.  ")) (lit "What is it?")
        (lit "hello world") []
      = (Return answer,
         [] ++ [CalledGenerateContent
                  (answer_prompt (lit "What is it?") (lit "hello world"))])
      /\ lit "  It is a song.  " = ws1 ++ answer ++ ws2
      /\ forallb isspace ws1 = true /\ forallb isspace ws2 = true
      /\ (forall x r, answer = x :: r -> isspace x = false)
      /\ (forall x r, answer = r ++ [x] -> isspace x = false))
  /\ (exists answer tr',
         answer_question (failing_llm_services (OtherException (lit "quota")))
           (lit "What is it?") (lit "hello world") []
         = (Return answer, tr')
         /\ ask_question_route script_interpreter
              (failing_llm_services (OtherException (lit "quota")))
              {| get_json :=
                   Return (PyDict [(lit "lang", PyStr (lit "en"));
                                   (lit "question", PyStr (lit "What is it?"));
                                   (lit "transcript", PyStr (lit "hello world"))]) |}
              []
            = (Return (Jsonify (PyDict [(lit "answer", PyStr answer)]) 200),
               tr')).
Proof.
  split.
  - apply (proj1 (proj2 C9_answer_question_never_fails)
             (constant_services (lit "  It is a song.  ")) (lit "What is it?")
             (lit "hello world") []
             {| response_text := Return (lit "  It is a song.  ") |}
             (lit "  It is a song.  ") eq_refl eq_refl).
  - apply (proj2 (proj2 C9_answer_question_never_fails) script_interpreter
             (failing_llm_services (OtherException (lit "quota")))
             [(lit "lang", PyStr (lit "en"));
              (lit "question", PyStr (lit "What is it?"));
              (lit "transcript", PyStr (lit "hello world"))]
             (ord "W") (lit "hat is it?") (ord "h") (lit "ello world") []
             eq_refl eq_refl).
Defined.

(* ================================================================= *)
(** ** The analyze handler *)

Lemma transcript_calls_app (a b : list event) :
  transcript_calls (a ++ b) = transcript_calls a ++ transcript_calls b.
Proof. apply flat_map_app. Qed.

Lemma transcript_calls_none (evs : list event) :
  Forall not_transcript_call evs -> transcript_calls evs = [].
Proof.
  induction 1 as [|ev evs H _ IH]; [reflexivity |].
  destruct ev; simpl in *; try exact IH. contradiction.
Qed.

Lemma refine_emits (py : interpreter) (fuel : nat) :
  forall t, emits not_transcript_call (refine py fuel t).
Proof.
  induction fuel as [|fuel IH]; intros t.
  - destruct t; apply emits_ret.
  - destruct t as [|x t]; [apply emits_ret |].
    cbn [refine]. apply emits_try_except.
    + apply emits_bind; [apply emits_perform; exact I |].
      intros a. apply emits_ret.
    + intros e. apply IH.
Qed.

(** [analyze_transcript] does not call the transcript service. *)
Lemma analyze_transcript_emits (py : interpreter) (svc : services)
  (transcript : str) :
  emits not_transcript_call (analyze_transcript py svc transcript).
Proof.
  unfold analyze_transcript.
  apply emits_try_except.
  - apply emits_bind; [apply emits_perform; exact I |]. intros response.
    apply emits_bind; [apply emits_lift |]. intros text.
    apply emits_bind; [apply emits_perform; exact I |]. intros _.
    unfold json_recovery. apply emits_try_except.
    + destruct (_ && _).
      * apply emits_try_except; [apply emits_perform; exact I |].
        intros e. apply emits_bind; [apply refine_emits |].
        intros [a|]; [apply emits_ret |].
        apply emits_bind; [apply emits_perform; exact I |].
        intros _. apply emits_ret.
      * apply emits_bind; [apply emits_perform; exact I |].
        intros _. apply emits_ret.
    + intros e. apply emits_bind; [apply emits_perform; exact I |].
      intros _. apply emits_ret.
  - intros e. apply emits_bind; [apply emits_perform; exact I |].
    intros _. apply emits_ret.
Qed.

Lemma fetch_events_calls (svc : services) (video_id lang_code : str) :
  transcript_calls (fetch_events svc video_id lang_code)
  = [(video_id, [lang_code])].
Proof.
  unfold fetch_events.
  destruct (youtube_get_transcript svc video_id [lang_code]); reflexivity.
Qed.

(** The fetch with its fallback, case by case on the English result. *)
Lemma fetch_with_fallback_eq (svc : services) (video_id : str) (tr : trace) :
  fetch_with_fallback svc video_id tr =
  if truthy_opt (fetched svc video_id (lit "en"))
  then (Return (fetched svc video_id (lit "en")),
        tr ++ fetch_events svc video_id (lit "en"))
  else (Return (fetched svc video_id (lit "hi")),
        tr ++ fetch_events svc video_id (lit "en")
           ++ fetch_events svc video_id (lit "hi")).
Proof.
  unfold fetch_with_fallback, bind. rewrite get_transcript_eq.
  destruct (truthy_opt (fetched svc video_id (lit "en"))); simpl.
  - reflexivity.
  - rewrite get_transcript_eq, <- app_assoc. reflexivity.
Qed.

(** The handler on a POST whose URL resolves to a non-empty identifier. *)
Lemma index_post_eq
  (T : tables) (py : interpreter) (svc : services) (url : str) (x : char)
  (vid : str) (tr : trace) :
  extract_video_id T url = Return (Some (x :: vid)) ->
  index T py svc (post url) tr =
  match fetch_with_fallback svc (x :: vid) tr with
  | (Return (Some (y :: t)), tr1) =>
      match analyze_transcript py svc (y :: t) tr1 with
      | (Return analysis, tr2) => (Return (respond_analysis analysis), tr2)
      | (Raise e, tr2) => (Raise e, tr2)
      end
  | (Return _, tr1) => (Return unavailable, tr1)
  | (Raise e, tr1) => (Raise e, tr1)
  end.
Proof.
  intros H. unfold index, post. cbn [method form_video_url].
  unfold bind at 1, lift. rewrite H. unfold bind at 1.
  destruct (fetch_with_fallback svc (x :: vid) tr) as [[[[|y t]|]|e] tr1];
    reflexivity.
Qed.

(* ----------------------------------------------------------------- *)
(** *** Claim C4 *)

(** When the LLM answers [{}], [analyze_transcript] returns the recovered
    object [{}], and the handler does not render it: it answers 500. *)
Lemma C4_empty_object_is_not_rendered :
  fst (analyze_transcript script_interpreter (constant_services (lit "{}"))
         (lit "hello world") [CalledGetTranscript (lit "abc") [lit "en"]])
  = Return (PyDict [])
  /\ fst (index ascii_tables script_interpreter (constant_services (lit "{}"))
            (post (lit "https://youtu.be/abc")) [])
     = Return (PlainText
                 (lit "Error analyzing the transcript using Google Gemini API.")
                 500).
Proof. split; vm_compute; reflexivity. Qed.

(** C4, amended.  [analyze_transcript] always returns a [dict].  The
    analyze handler renders the result view of that value when it is not
    empty (a recovered object with at least one key, or an [error]
    record); it takes the 500 "Error analyzing the transcript" branch when
    the value is the empty object [{}]. *)
Theorem C4_analysis_is_rendered_unless_empty
  (T : tables) (py : interpreter) (svc : services) (url : str) (x : char)
  (vid : str) (y : char) (transcript : str) (tr tr1 : trace) :
  extract_video_id T url = Return (Some (x :: vid)) ->
  fetch_with_fallback svc (x :: vid) tr = (Return (Some (y :: transcript)), tr1) ->
  exists d tr2,
    analyze_transcript py svc (y :: transcript) tr1 = (Return (PyDict d), tr2)
    /\ index T py svc (post url) tr =
       (Return
          match d with
          | [] => PlainText
                    (lit "Error analyzing the transcript using Google Gemini API.")
                    500
          | _ :: _ => RenderTemplate (lit "result.html") (Some (PyDict d))
          end,
        tr2).
Proof.
  intros Hid Hfetch.
  rewrite (index_post_eq T py svc url tr Hid), Hfetch.
  rewrite analyze_transcript_eq. cbv zeta.
  destruct (generate_content svc (analysis_prompt (y :: transcript)))
    as [response|e].
  - destruct (response_text response) as [text|e].
    + destruct (json_recovery py (strip text)
                  ((tr1 ++ [CalledGenerateContent (analysis_prompt (y :: transcript))])
                     ++ [Printed (msg_raw_response (strip text))]))
        as [[v|e] tr2] eqn:R.
      * destruct (json_recovery_value_is_dict _ _ _ R) as [d ->].
        exists d, tr2. split; [reflexivity |]. destruct d; reflexivity.
      * eexists; eexists; split; reflexivity.
    + eexists; eexists; split; reflexivity.
  - eexists; eexists; split; reflexivity.
Qed.

Lemma C4_witness :
  exists d tr2,
    analyze_transcript script_interpreter (constant_services example_raw)
      (lit "hello world") [CalledGetTranscript (lit "abc") [lit "en"]]
    = (Return (PyDict d), tr2)
    /\ index ascii_tables script_interpreter (constant_services example_raw)
         (post (lit "https://youtu.be/abc")) [] =
       (Return
          match d with
          | [] => PlainText
                    (lit "Error analyzing the transcript using Google Gemini API.")
                    500
          | _ :: _ => RenderTemplate (lit "result.html") (Some (PyDict d))
          end,
        tr2).
Proof.
  apply (@C4_analysis_is_rendered_unless_empty ascii_tables script_interpreter
           (constant_services example_raw) (lit "https://youtu.be/abc")
           (ord "a") (lit "bc") (ord "h") (lit "ello world") []
           [CalledGetTranscript (lit "abc") [lit "en"]]).
  - vm_compute. reflexivity.
  - vm_compute. reflexivity.
Defined.

(* ----------------------------------------------------------------- *)
(** *** Claim C8 *)

(** The English fetch succeeds with the empty transcript: its result is
    not absent, and yet the handler fetches in Hindi. *)
Lemma C8_hindi_is_fetched_after_an_empty_english_transcript :
  fst (get_transcript empty_english_services (lit "abc") (lit "en") [])
  = Return (Some [])
  /\ transcript_calls
       (snd (index ascii_tables script_interpreter empty_english_services
               (post (lit "https://youtu.be/abc")) []))
     = [(lit "abc", [lit "en"]); (lit "abc", [lit "hi"])].
Proof. split; vm_compute; reflexivity. Qed.

(** C8, amended.  On a POST whose URL resolves to a video identifier, the
    handler calls the transcript service with language [en] first; it calls
    it once more, with [hi], if and only if the English result is absent or
    the empty string; it makes no other call of the service.  When the
    English result is absent or empty and the Hindi fetch gives a non-empty
    transcript, the handler analyses the Hindi transcript and answers with
    what the analysis gives; the English failure is in the trace only. *)
Theorem C8_language_fallback
  (T : tables) (py : interpreter) (svc : services) (url : str) (x : char)
  (vid : str) (tr : trace) :
  extract_video_id T url = Return (Some (x :: vid)) ->
  let video_id := x :: vid in
  let english := fetched svc video_id (lit "en") in
  let hindi := fetched svc video_id (lit "hi") in
  (exists evs,
      snd (index T py svc (post url) tr) = tr ++ evs
      /\ transcript_calls evs =
         if truthy_opt english
         then [(video_id, [lit "en"])]
         else [(video_id, [lit "en"]); (video_id, [lit "hi"])])
  /\ (truthy_opt english = false ->
      forall y t, hindi = Some (y :: t) ->
        exists analysis tr1,
          analyze_transcript py svc (y :: t)
            (tr ++ fetch_events svc video_id (lit "en")
                ++ fetch_events svc video_id (lit "hi"))
          = (Return analysis, tr1)
          /\ index T py svc (post url) tr
             = (Return (respond_analysis analysis), tr1)).
Proof.
  intros Hid video_id english hindi. subst video_id english hindi. split.
  - rewrite (index_post_eq T py svc url tr Hid), fetch_with_fallback_eq.
    set (en := fetched svc (x :: vid) (lit "en")).
    set (hi := fetched svc (x :: vid) (lit "hi")).
    set (ev_en := fetch_events svc (x :: vid) (lit "en")).
    set (ev_hi := fetch_events svc (x :: vid) (lit "hi")).
    assert (Cen : transcript_calls ev_en = [(x :: vid, [lit "en"])])
      by apply fetch_events_calls.
    assert (Chi : transcript_calls ev_hi = [(x :: vid, [lit "hi"])])
      by apply fetch_events_calls.
    assert (An : forall t tr0, exists evs,
                 snd (match analyze_transcript py svc t tr0 with
                      | (Return analysis, tr2) =>
                          (Return (respond_analysis analysis), tr2)
                      | (Raise e, tr2) => (Raise e, tr2)
                      end) = tr0 ++ evs
                 /\ transcript_calls evs = []).
    { intros t tr0.
      destruct (analyze_transcript_emits py svc t tr0) as (evs & E & F).
      exists evs. split; [| apply transcript_calls_none; exact F].
      destruct (analyze_transcript py svc t tr0) as [[a|e] tr2]; exact E. }
    destruct (truthy_opt en) eqn:Ten.
    + destruct en as [[|y t]|]; try discriminate.
      destruct (An (y :: t) (tr ++ ev_en)) as (evs & E & C).
      exists (ev_en ++ evs). rewrite E, <- app_assoc.
      split; [reflexivity |]. rewrite transcript_calls_app, Cen, C. reflexivity.
    + destruct hi as [[|y t]|].
      * exists (ev_en ++ ev_hi). split; [reflexivity |].
        rewrite transcript_calls_app, Cen, Chi. reflexivity.
      * destruct (An (y :: t) (tr ++ ev_en ++ ev_hi)) as (evs & E & C).
        exists ((ev_en ++ ev_hi) ++ evs). rewrite E, <- !app_assoc.
        split; [reflexivity |].
        rewrite !transcript_calls_app, Cen, Chi, C. reflexivity.
      * exists (ev_en ++ ev_hi). split; [reflexivity |].
        rewrite transcript_calls_app, Cen, Chi. reflexivity.
  - intros Ten y t Hhi.
    rewrite (index_post_eq T py svc url tr Hid), fetch_with_fallback_eq, Ten, Hhi.
    destruct (analyze_transcript_returns py svc (y :: t)
                (tr ++ fetch_events svc (x :: vid) (lit "en")
                    ++ fetch_events svc (x :: vid) (lit "hi")))
      as (a & tr1 & R).
    exists a, tr1. rewrite R. split; reflexivity.
Qed.

(** With an empty English track and a Hindi one, both languages are
    fetched and the Hindi transcript is analysed. *)
Lemma C8_witness :
  (exists evs,
      snd (index ascii_tables script_interpreter empty_english_services
             (post (lit "https://youtu.be/abc")) []) = [] ++ evs
      /\ transcript_calls evs =
         [(lit "abc", [lit "en"]); (lit "abc", [lit "hi"])])
  /\ (exists analysis tr1,
         analyze_transcript script_interpreter empty_english_services
           (lit "namaste")
           ([] ++ fetch_events empty_english_services (lit "abc") (lit "en")
               ++ fetch_events empty_english_services (lit "abc") (lit "hi"))
         = (Return analysis, tr1)
         /\ index ascii_tables script_interpreter empty_english_services
              (post (lit "https://youtu.be/abc")) []
            = (Return (respond_analysis analysis), tr1)).
Proof.
  assert (W := @C8_language_fallback ascii_tables script_interpreter
                 empty_english_services
                 (lit "https://youtu.be/abc") (ord "a") (lit "bc") [] eq_refl).
  split.
  - exact (proj1 W).
  - exact (proj2 W eq_refl (ord "n") (lit "amaste") eq_refl).
Defined.

(* ================================================================= *)
(** ** The URL resolver *)

(** *** [dict] operations *)

Lemma dict_get_setitem_same (A : Type) (d : list (str * A)) (k : str) (v : A) :
  dict_get (dict_setitem d k v) k = Some v.
Proof.
  induction d as [|[k' v'] d IH]; simpl.
  - rewrite str_eqb_refl. reflexivity.
  - destruct (str_eqb k' k) eqn:E; simpl; rewrite E; [reflexivity | exact IH].
Qed.

Lemma dict_get_setitem_other (A : Type) (d : list (str * A)) (k k0 : str) (v : A) :
  str_eqb k0 k = false ->
  dict_get (dict_setitem d k0 v) k = dict_get d k.
Proof.
  intros N. induction d as [|[k' v'] d IH]; simpl.
  - rewrite N. reflexivity.
  - destruct (str_eqb k' k0) eqn:E; simpl.
    + apply str_eqb_eq in E; subst k'. rewrite N. reflexivity.
    + destruct (str_eqb k' k); [reflexivity | exact IH].
Qed.

(** The loop of [parse_qs], from any dictionary built so far. *)
Lemma parse_qs_loop (k : str) (pairs : list (str * str)) :
  forall d : list (str * list str),
    dict_get
      (fold_left
         (fun parsed_result '(name, value) =>
            match dict_get parsed_result name with
            | Some values => dict_setitem parsed_result name (values ++ [value])
            | None => dict_setitem parsed_result name [value]
            end) pairs d) k
    = match dict_get d k, values_of k pairs with
      | Some values, l => Some (values ++ l)
      | None, [] => None
      | None, l => Some l
      end.
Proof.
  induction pairs as [|[name value] pairs IH]; intros d.
  - simpl. destruct (dict_get d k); [rewrite app_nil_r |]; reflexivity.
  - cbn [fold_left]. rewrite IH. unfold values_of. cbn [filter fst].
    destruct (str_eqb name k) eqn:E.
    + apply str_eqb_eq in E; subst name.
      destruct (dict_get d k) as [values|] eqn:G;
        rewrite dict_get_setitem_same; cbn [map snd].
      * rewrite <- app_assoc. reflexivity.
      * reflexivity.
    + destruct (dict_get d name) as [values|] eqn:G;
        rewrite dict_get_setitem_other by exact E; reflexivity.
Qed.

(** [parse_qs(qs).get(k)]: the values of the fields named [k], in the order
    of the query; no [k] when there is none. *)
Lemma parse_qs_get (qs k : str) :
  dict_get (parse_qs qs) k =
  match values_of k (parse_qsl qs) with
  | [] => None
  | l => Some l
  end.
Proof. unfold parse_qs. rewrite parse_qs_loop. reflexivity. Qed.

(** *** Path segments *)

Lemma split_nonempty (c : char) (s : str) : split c s <> [].
Proof.
  destruct s as [|x s]; simpl; [discriminate |].
  destruct (chr_eqb x c); [discriminate |].
  destruct (split c s); discriminate.
Qed.

(** A path that starts with two slash-delimited segments has a third. *)
Lemma third_segment (path prefix : str) :
  startswith path prefix = true ->
  prefix = lit "/embed/" \/ prefix = lit "/v/" ->
  exists seg, getitem (split (ord "/") path) 2 = Return seg.
Proof.
  intros H P. apply startswith_app in H. destruct H as [r ->].
  unfold getitem.
  destruct (split (ord "/") r) as [|w ws] eqn:E;
    [apply split_nonempty in E; contradiction |].
  destruct P as [-> | ->]; simpl in *; rewrite E; simpl; eauto.
Qed.

(** The first of the values [parse_qs] has for [v], as [extract_video_id]
    reads it. *)
Lemma watch_parameter (qs : str) :
  getitem (match dict_get (parse_qs qs) (lit "v") with
           | Some values => map Some values
           | None => [None]
           end) 0
  = Return (hd_error (values_of (lit "v") (parse_qsl qs))).
Proof.
  rewrite parse_qs_get.
  destruct (values_of (lit "v") (parse_qsl qs)); reflexivity.
Qed.

Lemma extract_video_id_eq (T : tables) (url : str) :
  extract_video_id T url =
  match urlparse T url with
  | Raise e => Raise e
  | Return parsed_url => Return (resolve T parsed_url)
  end.
Proof.
  unfold extract_video_id, resolve.
  destruct (urlparse T url) as [r|e]; [| reflexivity]. cbv zeta.
  destruct (opt_in (hostname T r) [lit "youtu.be"]); [reflexivity |].
  destruct (opt_in (hostname T r) [lit "www.youtube.com"; lit "youtube.com"]);
    [| reflexivity].
  destruct (str_eqb (path r) (lit "/watch")); [apply watch_parameter |].
  destruct (startswith (path r) (lit "/embed/")) eqn:E1.
  - destruct (third_segment (path r) E1 (or_introl eq_refl)) as [seg G].
    rewrite G. unfold getitem in G.
    destruct (nth_error (split (ord "/") (path r)) 2); inversion G; reflexivity.
  - destruct (startswith (path r) (lit "/v/")) eqn:E2; [| reflexivity].
    destruct (third_segment (path r) E2 (or_intror eq_refl)) as [seg G].
    rewrite G. unfold getitem in G.
    destruct (nth_error (split (ord "/") (path r)) 2); inversion G; reflexivity.
Qed.

(** An opening bracket without its closing one in the host makes
    [urlparse] raise, whatever the tables. *)
Lemma urlparse_unbalanced_bracket (T : tables) :
  urlparse T (lit "http://[") = Raise invalid_ipv6_url.
Proof. reflexivity. Qed.

(* ----------------------------------------------------------------- *)
(** *** Claim C6 *)

(** On [http://[] the resolver raises [ValueError]: it returns no value. *)
Lemma C6_unparsable_url_raises :
  extract_video_id ascii_tables (lit "http://[")
  = Raise (ValueError (lit "Invalid IPv6 URL")).
Proof. vm_compute. reflexivity. Qed.

(** C6, amended.  [extract_video_id] has no exception handler.  On an
    input that [urlparse] rejects it raises the exception of [urlparse]
    (a [ValueError], as for [http://[]); on every other input it returns a
    value, an identifier or absent, and absent when the host is none of
    [youtu.be], [www.youtube.com], [youtube.com]. *)
Theorem C6_extract_video_id_raises_with_urlparse (T : tables) (url : str) :
  match urlparse T url with
  | Raise e => extract_video_id T url = Raise e
  | Return parsed_url =>
      exists video_id,
        extract_video_id T url = Return video_id
        /\ (opt_in (hostname T parsed_url)
              [lit "youtu.be"; lit "www.youtube.com"; lit "youtube.com"] = false ->
            video_id = None)
  end.
Proof.
  rewrite extract_video_id_eq.
  destruct (urlparse T url) as [r|e] eqn:U.
  - exists (resolve T r). split; [reflexivity |].
    unfold resolve. cbv zeta. intros H.
    destruct (hostname T r) as [h|]; [| reflexivity].
    simpl in H |- *.
    destruct (str_eqb h _); [discriminate |].
    destruct (str_eqb h _); [discriminate |].
    destruct (str_eqb h _); [discriminate |]. reflexivity.
  - reflexivity.
Qed.

(** A URL of an unrelated host resolves to absent. *)
Lemma C6_witness :
  exists video_id,
    extract_video_id ascii_tables (lit "https://example.com/watch?v=X")
    = Return video_id
    /\ video_id = None.
Proof.
  destruct (C6_extract_video_id_raises_with_urlparse ascii_tables
              (lit "https://example.com/watch?v=X")) as (video_id & E & H).
  exists video_id. split; [exact E | apply H; reflexivity].
Defined.


(** *** URLs of the form [https://www.youtube.com/watch?v=...] *)

Lemma remove_unsafe_app (a b : str) :
  remove_unsafe (a ++ b) = remove_unsafe a ++ remove_unsafe b.
Proof. unfold remove_unsafe, remove_char. rewrite !filter_app. reflexivity. Qed.

Lemma contains_index_of (s : str) (c : char) :
  contains s c = match index_of c s with Some _ => true | None => false end.
Proof.
  unfold contains. induction s as [|x s IH]; simpl; [reflexivity |].
  unfold chr_eqb at 1. rewrite N.eqb_sym. fold (chr_eqb x c).
  destruct (chr_eqb x c); simpl; [reflexivity |].
  rewrite IH. destruct (index_of c s); reflexivity.
Qed.

Lemma urlsplit_eq (T : tables) (url : str) :
  urlsplit T url =
  let url := remove_unsafe (dropwhile is_c0_control_or_space url) in
  let '(scheme, url) := scheme_split url in
  match netloc_split T url with
  | Raise e => Raise e
  | Return (netloc, url) =>
      let '(url, fragment) := fragment_split url in
      let '(url, query) := query_split url in
      match _checknetloc T netloc with
      | Raise e => Raise e
      | Return _ => Return (scheme, netloc, url, query, fragment)
      end
  end.
Proof. reflexivity. Qed.

Lemma scheme_split_watch (r : str) :
  scheme_split (watch_prefix ++ r)
  = (lit "https", lit "//www.youtube.com/watch?v=" ++ r).
Proof. reflexivity. Qed.

Lemma find_from_hash_watch (r : str) :
  find_from (lit "//www.youtube.com/watch?v=" ++ r) (ord "#") 2 =
  match index_of (ord "#") r with
  | Some i => Z.of_nat (26 + i)
  | None => (-1)%Z
  end.
Proof.
  unfold find_from.
  change (skipn 2 (lit "//www.youtube.com/watch?v=" ++ r))
    with (lit "www.youtube.com/watch?v=" ++ r).
  rewrite index_of_app.
  change (index_of (ord "#") (lit "www.youtube.com/watch?v=")) with (@None nat).
  destruct (index_of (ord "#") r) as [i|]; [| reflexivity].
  cbn [option_map]. f_equal.
Qed.

Lemma splitnetloc_watch (r : str) :
  _splitnetloc (lit "//www.youtube.com/watch?v=" ++ r) 2
  = (lit "www.youtube.com", lit "/watch?v=" ++ r).
Proof.
  unfold _splitnetloc. cbn [fold_left].
  rewrite find_from_hash_watch.
  change (find_from (lit "//www.youtube.com/watch?v=" ++ r) (ord "/") 2)
    with 17%Z.
  change (find_from (lit "//www.youtube.com/watch?v=" ++ r) (ord "?") 2)
    with 23%Z.
  change (0 <=? 17)%Z with true. change (0 <=? 23)%Z with true. cbv iota.
  change (Z.to_nat 17) with 17. change (Z.to_nat 23) with 23.
  change (length (lit "//www.youtube.com/watch?v=" ++ r)) with (26 + length r).
  assert (D : (if (0 <=? match index_of (ord "#") r with
                         | Some i => Z.of_nat (26 + i)
                         | None => -1
                         end)%Z
               then Nat.min (Nat.min (Nat.min (26 + length r) 17) 23)
                      (Z.to_nat match index_of (ord "#") r with
                                | Some i => Z.of_nat (26 + i)
                                | None => (-1)%Z
                                end)
               else Nat.min (Nat.min (26 + length r) 17) 23) = 17).
  { destruct (index_of (ord "#") r) as [i|].
    - destruct (Z.leb_spec 0 (Z.of_nat (26 + i))); lia.
    - simpl. lia. }
  rewrite D. reflexivity.
Qed.

Lemma netloc_split_watch (T : tables) (r : str) :
  netloc_split T (lit "//www.youtube.com/watch?v=" ++ r)
  = Return (lit "www.youtube.com", lit "/watch?v=" ++ r).
Proof.
  unfold netloc_split.
  change (str_eqb (slice (lit "//www.youtube.com/watch?v=" ++ r) 0 2) (lit "//"))
    with true.
  cbv iota. rewrite splitnetloc_watch. reflexivity.
Qed.

Lemma fragment_split_watch (r : str) :
  fragment_split (lit "/watch?v=" ++ r)
  = (lit "/watch?v=" ++ before_hash r, after_hash r).
Proof.
  unfold fragment_split, split1, partition, before_hash, after_hash.
  rewrite contains_index_of, index_of_app.
  change (index_of (ord "#") (lit "/watch?v=")) with (@None nat).
  destruct (index_of (ord "#") r) as [i|]; [| reflexivity].
  cbn [option_map].
  change (length (lit "/watch?v=")) with 9.
  change (9 + i) with (length (lit "/watch?v=") + i).
  rewrite firstn_app_2.
  change (S (length (lit "/watch?v=") + i))
    with (length (lit "/watch?v=") + S i).
  rewrite skipn_app, skipn_all2 by (simpl; lia).
  replace (length (lit "/watch?v=") + S i - length (lit "/watch?v=")) with (S i)
    by lia.
  reflexivity.
Qed.

Lemma query_split_watch (q : str) :
  query_split (lit "/watch?v=" ++ q) = (lit "/watch", lit "v=" ++ q).
Proof. reflexivity. Qed.

(** [urlparse] on a URL that begins with
    [https://www.youtube.com/watch?v=]. *)
Lemma urlparse_watch (T : tables) (rest : str) :
  urlparse T (watch_prefix ++ rest) =
  Return {| scheme := lit "https"; netloc := lit "www.youtube.com";
            path := lit "/watch"; params := [];
            query := lit "v=" ++ before_hash (remove_unsafe rest);
            fragment := after_hash (remove_unsafe rest) |}.
Proof.
  unfold urlparse. rewrite urlsplit_eq. cbv zeta.
  change (dropwhile is_c0_control_or_space (watch_prefix ++ rest))
    with (watch_prefix ++ rest).
  rewrite remove_unsafe_app.
  change (remove_unsafe watch_prefix) with watch_prefix.
  rewrite scheme_split_watch, netloc_split_watch, fragment_split_watch,
    query_split_watch.
  reflexivity.
Qed.

(** *** The query fields *)

Lemma parse_qsl_fields (qs : str) :
  parse_qsl qs =
  flat_map (fun f => match field f with Some p => [p] | None => [] end)
    (split (ord "&") qs).
Proof.
  unfold parse_qsl. destruct qs as [|x qs]; [reflexivity |].
  apply flat_map_ext. intros f. unfold field, unquote_plus.
  destruct f as [|y f]; [reflexivity |].
  destruct (partition (ord "=") (y :: f)) as [[n b] v].
  destruct b; destruct v; reflexivity.
Qed.

Lemma values_of_app (k : str) (a b : list (str * str)) :
  values_of k (a ++ b) = values_of k a ++ values_of k b.
Proof. unfold values_of. rewrite filter_app, map_app. reflexivity. Qed.

Lemma first_v_values (fields : list str) :
  hd_error
    (values_of (lit "v")
       (flat_map (fun f => match field f with Some p => [p] | None => [] end)
          fields))
  = first_v fields.
Proof.
  induction fields as [|f rest IH]; [reflexivity |].
  cbn [flat_map first_v]. rewrite values_of_app.
  destruct (field f) as [[name value]|]; [| exact IH].
  unfold values_of at 1. cbn [filter fst].
  destruct (str_eqb name (lit "v")); [reflexivity | exact IH].
Qed.

(** On a [/watch] URL the resolver gives the first [v] of the query. *)
Lemma resolve_watch (T : tables) (r : ParseResult) :
  opt_in (hostname T r) [lit "www.youtube.com"; lit "youtube.com"] = true ->
  path r = lit "/watch" ->
  resolve T r = first_v (split (ord "&") (query r)).
Proof.
  intros H P. unfold resolve. cbv zeta.
  assert (N : opt_in (hostname T r) [lit "youtu.be"] = false).
  { destruct (hostname T r) as [h|]; [| reflexivity]. simpl in H |- *.
    rewrite orb_false_r in *. apply orb_true_iff in H.
    destruct H as [H|H]; apply str_eqb_eq in H; subst h; reflexivity. }
  rewrite N, H, P. rewrite str_eqb_refl.
  rewrite parse_qsl_fields. apply first_v_values.
Qed.

Lemma split_no_sep (c : char) (s : str) :
  contains s c = false -> split c s = [s].
Proof.
  unfold contains. induction s as [|x s IH]; simpl; [reflexivity |].
  intros H. apply orb_false_iff in H as [H1 H2].
  unfold chr_eqb in H1. rewrite N.eqb_sym in H1. fold (chr_eqb x c) in H1.
  rewrite H1, (IH H2). reflexivity.
Qed.

Lemma split_app_sep (c : char) (a b : str) :
  contains a c = false -> split c (a ++ c :: b) = a :: split c b.
Proof.
  unfold contains. induction a as [|x a IH]; simpl.
  - rewrite chr_eqb_refl. reflexivity.
  - intros H. apply orb_false_iff in H as [H1 H2].
    unfold chr_eqb in H1. rewrite N.eqb_sym in H1. fold (chr_eqb x c) in H1.
    rewrite H1, (IH H2). reflexivity.
Qed.

Ltac in_list := simpl; repeat (first [left; reflexivity | right]).

Lemma plain_not (X : str) (c : char) :
  forallb plain_char X = true ->
  In c [ord "%"; ord "+"; ord "#"; ord "&"; 9%N; 10%N; 13%N] ->
  contains X c = false.
Proof.
  intros H Hc. unfold contains.
  induction X as [|x X IH]; [reflexivity |].
  simpl in H. apply andb_true_iff in H as [Hx HX].
  simpl. rewrite (IH HX), orb_false_r.
  apply chr_eqb_neq. intros ->.
  unfold plain_char in Hx. apply negb_true_iff in Hx.
  assert (E : existsb (chr_eqb x)
                [ord "%"; ord "+"; ord "#"; ord "&"; 9%N; 10%N; 13%N] = true).
  { apply existsb_exists. exists x. split; [exact Hc | apply chr_eqb_refl]. }
  rewrite E in Hx. discriminate.
Qed.

Lemma filter_no_char (X : str) (c : char) :
  contains X c = false -> remove_char c X = X.
Proof.
  unfold contains, remove_char. induction X as [|x X IH]; [reflexivity |].
  simpl. intros H. apply orb_false_iff in H as [H1 H2].
  unfold chr_eqb in H1. rewrite N.eqb_sym in H1. fold (chr_eqb x c) in H1.
  rewrite H1. simpl. rewrite (IH H2). reflexivity.
Qed.

Lemma replace_no_char (X : str) (c d : char) :
  contains X c = false -> replace_char c d X = X.
Proof.
  unfold contains, replace_char. induction X as [|x X IH]; [reflexivity |].
  simpl. intros H. apply orb_false_iff in H as [H1 H2].
  unfold chr_eqb in H1. rewrite N.eqb_sym in H1. fold (chr_eqb x c) in H1.
  rewrite H1. rewrite (IH H2). reflexivity.
Qed.

Lemma plain_unquote_plus (X : str) :
  forallb plain_char X = true -> unquote_plus X = X.
Proof.
  intros H. unfold unquote_plus.
  rewrite replace_no_char by (apply plain_not; [exact H | in_list]).
  unfold unquote. rewrite (@plain_not X (ord "%") H) by in_list.
  reflexivity.
Qed.

Lemma plain_remove_unsafe (X : str) :
  forallb plain_char X = true -> remove_unsafe X = X.
Proof.
  intros H. unfold remove_unsafe.
  rewrite (@filter_no_char X 9%N) by (apply plain_not; [exact H | in_list]).
  rewrite (@filter_no_char X 13%N) by (apply plain_not; [exact H | in_list]).
  rewrite (@filter_no_char X 10%N) by (apply plain_not; [exact H | in_list]).
  reflexivity.
Qed.

Lemma before_hash_plain (X t : str) :
  forallb plain_char X = true -> before_hash (X ++ t) = X ++ before_hash t.
Proof.
  intros H. unfold before_hash. rewrite index_of_app.
  assert (C : contains X (ord "#") = false)
    by (apply plain_not; [exact H | in_list]).
  rewrite contains_index_of in C.
  destruct (index_of (ord "#") X); [discriminate |].
  destruct (index_of (ord "#") t) as [i|]; [| reflexivity].
  cbn [option_map]. apply firstn_app_2.
Qed.

(** The query of a URL [https://www.youtube.com/watch?v=X] or
    [...watch?v=X&...] with a plain [X] has [v=X] as its first field. *)
Lemma watch_query_fields (X tail : str) :
  forallb plain_char X = true ->
  tail = [] \/ (exists r, tail = ord "&" :: r) ->
  exists fields,
    split (ord "&") (lit "v=" ++ before_hash (remove_unsafe (X ++ tail)))
    = (lit "v=" ++ X) :: fields.
Proof.
  intros H Ht.
  rewrite remove_unsafe_app, plain_remove_unsafe, before_hash_plain by exact H.
  assert (C : contains (lit "v=" ++ X) (ord "&") = false).
  { unfold contains. rewrite existsb_app.
    change (existsb (chr_eqb (ord "&")) (lit "v=")) with false.
    apply (@plain_not X (ord "&") H). in_list. }
  destruct Ht as [-> | [r ->]].
  - exists []. change (before_hash (remove_unsafe [])) with (@nil char).
    rewrite app_nil_r. apply split_no_sep. exact C.
  - change (remove_unsafe (ord "&" :: r)) with (ord "&" :: remove_unsafe r).
    assert (B : before_hash (ord "&" :: remove_unsafe r)
                = ord "&" :: before_hash (remove_unsafe r)).
    { unfold before_hash. cbn [index_of].
      change (chr_eqb (ord "&") (ord "#")) with false. cbv iota.
      destruct (index_of (ord "#") (remove_unsafe r)); reflexivity. }
    rewrite B, app_assoc.
    exists (split (ord "&") (before_hash (remove_unsafe r))).
    apply split_app_sep. exact C.
Qed.

Lemma first_v_none (fields : list str) :
  (forall f name value, In f fields -> field f = Some (name, value) ->
                        name <> lit "v") ->
  first_v fields = None.
Proof.
  induction fields as [|f rest IH]; intros H; [reflexivity |].
  cbn [first_v]. destruct (field f) as [[name value]|] eqn:E.
  - destruct (str_eqb name (lit "v")) eqn:V.
    + apply str_eqb_eq in V. exfalso.
      apply (H f name value); [left; reflexivity | exact E | exact V].
    + apply IH. intros g n v Hg. apply H. right. exact Hg.
  - apply IH. intros g n v Hg. apply H. right. exact Hg.
Qed.

(* ----------------------------------------------------------------- *)
(** *** Claim C5 *)

(** On [...watch?v=&v=abc] the resolver returns [abc], the value of the
    second occurrence of [v]: the first one has an empty value and is
    dropped.  On [...watch?v=] it returns absent although [v] is there.
    On [...watch?v=a%41+b&t=1] it returns [aA b], not the text between
    [v=] and [&]. *)
Lemma C5_first_occurrence_is_not_always_returned :
  extract_video_id ascii_tables (lit "https://www.youtube.com/watch?v=&v=abc")
  = Return (Some (lit "abc"))
  /\ extract_video_id ascii_tables (lit "https://www.youtube.com/watch?v=")
     = Return None
  /\ extract_video_id ascii_tables
       (lit "https://www.youtube.com/watch?v=a%41+b&t=1")
     = Return (Some (lit "aA b")).
Proof. repeat split; vm_compute; reflexivity. Qed.

(** C5, amended.  For every URL that [urlparse] accepts with host
    [youtube.com] or [www.youtube.com] and path exactly [/watch],
    [extract_video_id] returns the value of the first query field named [v]
    among the fields that count: the fields are the texts between [&], a
    field counts when it has an [=] and a non-empty value, and names and
    values are decoded ([+] as space, percent-escapes).  It returns absent
    when no field that counts is named [v].  For every URL
    [https://www.youtube.com/watch?v=X] or
    [https://www.youtube.com/watch?v=X&...] in which [X] is not empty and
    holds none of [%], [+], [#], [&], tab, line feed and carriage return, it
    returns [X]. *)
Theorem C5_watch_url_gives_first_v :
  (forall T url r,
      urlparse T url = Return r ->
      opt_in (hostname T r) [lit "www.youtube.com"; lit "youtube.com"] = true ->
      path r = lit "/watch" ->
      extract_video_id T url = Return (first_v (split (ord "&") (query r)))
      /\ ((forall f name value,
              In f (split (ord "&") (query r)) ->
              field f = Some (name, value) -> name <> lit "v") ->
          extract_video_id T url = Return None))
  /\ (forall T x X tail,
         forallb plain_char (x :: X) = true ->
         tail = [] \/ (exists rest, tail = ord "&" :: rest) ->
         extract_video_id T (watch_prefix ++ (x :: X) ++ tail)
         = Return (Some (x :: X))).
Proof.
  split.
  - intros T url r U H P.
    rewrite extract_video_id_eq, U, (resolve_watch T r H P).
    split; [reflexivity |]. intros N. rewrite (first_v_none _ N). reflexivity.
  - intros T x X tail H Ht.
    rewrite extract_video_id_eq, urlparse_watch.
    rewrite resolve_watch; [| reflexivity | reflexivity].
    cbn [query].
    destruct (watch_query_fields (x :: X) H Ht) as [fields ->].
    cbn [first_v]. unfold field.
    change (partition (ord "=") (lit "v=" ++ x :: X))
      with (lit "v", true, x :: X).
    cbv iota. rewrite (plain_unquote_plus (x :: X) H).
    reflexivity.
Qed.

(** A watch URL on [youtube.com] with [v] in second place, and one of the
    form [https://www.youtube.com/watch?v=X&...]. *)
Lemma C5_witness :
  extract_video_id ascii_tables (lit "https://youtube.com/watch?t=1&v=abc")
  = Return (Some (lit "abc"))
  /\ extract_video_id ascii_tables
       (watch_prefix ++ lit "dQw4w9WgXcQ" ++ lit "&t=42s#top")
     = Return (Some (lit "dQw4w9WgXcQ")).
Proof.
  split.
  - apply (proj1 (proj1 C5_watch_url_gives_first_v ascii_tables
                    (lit "https://youtube.com/watch?t=1&v=abc")
                    {| scheme := lit "https"; netloc := lit "youtube.com";
                       path := lit "/watch"; params := [];
                       query := lit "t=1&v=abc"; fragment := [] |}
                    eq_refl eq_refl eq_refl)).
  - apply (proj2 C5_watch_url_gives_first_v ascii_tables
             (ord "d") (lit "Qw4w9WgXcQ") (lit "&t=42s#top")).
    + vm_compute. reflexivity.
    + right. exists (lit "t=42s#top"). reflexivity.
Defined.

(* ================================================================= *)
(** * Further properties

    Properties of the code beside the numbered statements: the handlers
    ([X1] to [X5]), the fetcher and the answerer ([X6], [X7]), the URL
    resolver ([X8] to [X14]) and the JSON recovery ([X15] to [X19]). *)

(** ** What the handlers call *)

Lemma llm_calls_app (a b : list event) :
  llm_calls (a ++ b) = llm_calls a ++ llm_calls b.
Proof. apply flat_map_app. Qed.

Lemma llm_calls_local (evs : list event) :
  Forall local_event evs -> llm_calls evs = [].
Proof.
  induction 1 as [|ev evs H _ IH]; [reflexivity |].
  destruct ev; simpl in *; try exact IH; contradiction.
Qed.

Lemma refine_local (py : interpreter) (fuel : nat) :
  forall t, emits local_event (refine py fuel t).
Proof.
  induction fuel as [|fuel IH]; intros t.
  - destruct t; apply emits_ret.
  - destruct t as [|x t]; [apply emits_ret |].
    cbn [refine]. apply emits_try_except.
    + apply emits_bind; [apply emits_perform; exact I |].
      intros a. apply emits_ret.
    + intros e. apply IH.
Qed.

(** The recovery prints and parses; it calls no service. *)
Lemma json_recovery_local (py : interpreter) (raw_text : str) :
  emits local_event (json_recovery py raw_text).
Proof.
  unfold json_recovery. apply emits_try_except.
  - destruct (_ && _).
    + apply emits_try_except; [apply emits_perform; exact I |].
      intros e. apply emits_bind; [apply refine_local |].
      intros [a|]; [apply emits_ret |].
      apply emits_bind; [apply emits_perform; exact I |].
      intros _. apply emits_ret.
    + apply emits_bind; [apply emits_perform; exact I |].
      intros _. apply emits_ret.
  - intros e. apply emits_bind; [apply emits_perform; exact I |].
    intros _. apply emits_ret.
Qed.

(** [analyze_transcript] calls the LLM first, and only then. *)
Lemma analyze_transcript_calls (py : interpreter) (svc : services)
  (transcript : str) (tr : trace) :
  exists v evs,
    analyze_transcript py svc transcript tr =
    (Return v, tr ++ CalledGenerateContent (analysis_prompt transcript) :: evs)
    /\ Forall local_event evs.
Proof.
  rewrite analyze_transcript_eq. cbv zeta.
  destruct (generate_content svc (analysis_prompt transcript)) as [response|e].
  - destruct (response_text response) as [text|e].
    + set (tr1 := (tr ++ [CalledGenerateContent (analysis_prompt transcript)])
                    ++ [Printed (msg_raw_response (strip text))]).
      destruct (json_recovery_local py (strip text) tr1) as (evs & E & F).
      destruct (json_recovery py (strip text) tr1) as [[v|e] tr'];
        simpl in E; subst tr' tr1.
      * exists v, (Printed (msg_raw_response (strip text)) :: evs).
        rewrite <- !app_assoc. split; [reflexivity |].
        constructor; [exact I | exact F].
      * exists (error_dict (exn_str e)),
          (Printed (msg_raw_response (strip text))
             :: evs ++ [Printed (msg_llm_error e)]).
        rewrite <- !app_assoc. split; [reflexivity |].
        constructor; [exact I |]. apply Forall_app. split; [exact F |].
        constructor; [exact I | constructor].
    + eexists; eexists. rewrite <- app_assoc. split; [reflexivity |].
      repeat constructor.
  - eexists; eexists. rewrite <- app_assoc. split; [reflexivity |].
    repeat constructor.
Qed.

Lemma fetch_events_llm (svc : services) (video_id lang_code : str) :
  llm_calls (fetch_events svc video_id lang_code) = [].
Proof.
  unfold fetch_events.
  destruct (youtube_get_transcript svc video_id [lang_code]); reflexivity.
Qed.

Lemma fetches_llm (svc : services) (video_id : str) :
  llm_calls (fetches svc video_id) = [].
Proof.
  unfold fetches. destruct (truthy_opt _);
    rewrite ?llm_calls_app, !fetch_events_llm; reflexivity.
Qed.

(** The fetch with its fallback never raises. *)
Lemma fetch_with_fallback_chosen (svc : services) (video_id : str) (tr : trace) :
  fetch_with_fallback svc video_id tr =
  (Return (chosen_transcript svc video_id), tr ++ fetches svc video_id).
Proof.
  rewrite fetch_with_fallback_eq. unfold chosen_transcript, fetches.
  destruct (truthy_opt (fetched svc video_id (lit "en"))); reflexivity.
Qed.

(** [index] on a POST whose URL does not resolve to a non-empty
    identifier. *)
Lemma index_invalid (T : tables) (py : interpreter) (svc : services)
  (url : str) (tr : trace) :
  extract_video_id T url = Return None
  \/ extract_video_id T url = Return (Some []) ->
  index T py svc (post url) tr = (Return invalid_url, tr).
Proof.
  intros [H|H]; unfold index, post; cbn [method form_video_url];
    unfold bind, lift; rewrite H; reflexivity.
Qed.

(** [index] on a POST whose URL resolves to a non-empty identifier, with
    the transcript it goes on with. *)
Lemma index_post_chosen
  (T : tables) (py : interpreter) (svc : services) (url : str) (x : char)
  (vid : str) (tr : trace) :
  extract_video_id T url = Return (Some (x :: vid)) ->
  index T py svc (post url) tr =
  match chosen_transcript svc (x :: vid) with
  | Some (y :: t) =>
      match analyze_transcript py svc (y :: t) (tr ++ fetches svc (x :: vid)) with
      | (Return analysis, tr2) => (Return (respond_analysis analysis), tr2)
      | (Raise e, tr2) => (Raise e, tr2)
      end
  | _ => (Return unavailable, tr ++ fetches svc (x :: vid))
  end.
Proof.
  intros H. rewrite (index_post_eq T py svc url tr H), fetch_with_fallback_chosen.
  destruct (chosen_transcript svc (x :: vid)) as [[|y t]|]; reflexivity.
Qed.

(** X1.  The analyze handler raises only when [urlparse] rejects the URL
    of the form, and then it raises the exception of [urlparse] before
    anything is printed or called.  On every other request it answers: a
    GET, or a form without [video_url], or a URL that [urlparse] accepts,
    whatever the transcript service and the LLM do. *)
Theorem index_raises_only_with_urlparse
  (T : tables) (py : interpreter) (svc : services) (request : index_request)
  (tr : trace) :
  match method request, form_video_url request with
  | POST, Some url =>
      match urlparse T url with
      | Raise e => index T py svc request tr = (Raise e, tr)
      | Return _ =>
          exists resp evs, index T py svc request tr = (Return resp, tr ++ evs)
      end
  | POST, None => index T py svc request tr = (Return invalid_url, tr)
  | GET, _ =>
      index T py svc request tr
      = (Return (RenderTemplate (lit "index.html") None), tr)
  end.
Proof.
  destruct request as [[|] [url|]]; cbn [method form_video_url];
    try reflexivity.
  change {| method := POST; form_video_url := Some url |} with (post url).
  destruct (urlparse T url) as [r|e] eqn:U.
  - pose proof (extract_video_id_eq T url) as E. rewrite U in E.
    destruct (resolve T r) as [[|x vid]|].
    + exists invalid_url, []. rewrite app_nil_r. apply index_invalid. auto.
    + rewrite (index_post_chosen T py svc url tr E).
      destruct (chosen_transcript svc (x :: vid)) as [[|y t]|];
        try (eexists; eexists; reflexivity).
      destruct (analyze_transcript_calls py svc (y :: t)
                  (tr ++ fetches svc (x :: vid)))
        as (v & evs & R & _).
      rewrite R, <- app_assoc. eexists; eexists; reflexivity.
    + exists invalid_url, []. rewrite app_nil_r. apply index_invalid. auto.
  - unfold index, post. cbn [method form_video_url].
    unfold bind, lift, extract_video_id. rewrite U. reflexivity.
Qed.

(** X2.  When the video has no transcript in English and none in Hindi
    (each fetch fails or gives the empty string), the analyze handler
    answers 500 "Unable to extract transcript ..." after the two fetches,
    and the LLM is not called. *)
Theorem index_without_transcript
  (T : tables) (py : interpreter) (svc : services) (url : str) (x : char)
  (vid : str) (tr : trace) :
  extract_video_id T url = Return (Some (x :: vid)) ->
  truthy_opt (fetched svc (x :: vid) (lit "en")) = false ->
  truthy_opt (fetched svc (x :: vid) (lit "hi")) = false ->
  let evs := fetch_events svc (x :: vid) (lit "en")
             ++ fetch_events svc (x :: vid) (lit "hi") in
  index T py svc (post url) tr = (Return unavailable, tr ++ evs)
  /\ llm_calls evs = []
  /\ transcript_calls evs = [(x :: vid, [lit "en"]); (x :: vid, [lit "hi"])].
Proof.
  intros Hid Hen Hhi evs. subst evs. split; [| split].
  - rewrite (index_post_chosen T py svc url tr Hid).
    unfold chosen_transcript, fetches. rewrite Hen.
    destruct (fetched svc (x :: vid) (lit "hi")) as [[|y t]|];
      [reflexivity | discriminate | reflexivity].
  - rewrite llm_calls_app, !fetch_events_llm. reflexivity.
  - rewrite transcript_calls_app, !fetch_events_calls. reflexivity.
Qed.

Lemma index_without_transcript_witness :
  let evs := fetch_events no_caption_services (lit "abc") (lit "en")
             ++ fetch_events no_caption_services (lit "abc") (lit "hi") in
  index ascii_tables script_interpreter no_caption_services
    (post (lit "https://youtu.be/abc")) []
  = (Return unavailable, [] ++ evs)
  /\ llm_calls evs = []
  /\ transcript_calls evs = [(lit "abc", [lit "en"]); (lit "abc", [lit "hi"])].
Proof.
  apply (@index_without_transcript ascii_tables script_interpreter
           no_caption_services
           (lit "https://youtu.be/abc") (ord "a") (lit "bc") []);
    vm_compute; reflexivity.
Defined.

(** X3.  On a POST whose URL resolves to a video identifier, the analyze
    handler calls the LLM once, with the analysis prompt of the transcript
    it fetched (the English one, or the Hindi one when the English one is
    absent or empty), and it does not call it at all when no transcript
    was fetched. *)
Theorem index_asks_the_llm_once
  (T : tables) (py : interpreter) (svc : services) (url : str) (x : char)
  (vid : str) (tr : trace) :
  extract_video_id T url = Return (Some (x :: vid)) ->
  exists evs,
    snd (index T py svc (post url) tr) = tr ++ evs
    /\ llm_calls evs =
       match chosen_transcript svc (x :: vid) with
       | Some (y :: t) => [analysis_prompt (y :: t)]
       | _ => []
       end.
Proof.
  intros Hid. rewrite (index_post_chosen T py svc url tr Hid).
  destruct (chosen_transcript svc (x :: vid)) as [[|y t]|];
    try (exists (fetches svc (x :: vid)); split; [reflexivity | apply fetches_llm]).
  destruct (analyze_transcript_calls py svc (y :: t)
              (tr ++ fetches svc (x :: vid)))
    as (v & evs & R & F).
  rewrite R. cbn [snd].
  exists (fetches svc (x :: vid)
            ++ CalledGenerateContent (analysis_prompt (y :: t)) :: evs).
  rewrite <- app_assoc. split; [reflexivity |].
  rewrite llm_calls_app, fetches_llm. cbn [llm_calls flat_map app].
  fold (llm_calls evs). rewrite (llm_calls_local F). reflexivity.
Qed.

Lemma index_asks_the_llm_once_witness :
  exists evs,
    snd (index ascii_tables script_interpreter empty_english_services
           (post (lit "https://youtu.be/abc")) []) = [] ++ evs
    /\ llm_calls evs = [analysis_prompt (lit "namaste")].
Proof.
  apply (@index_asks_the_llm_once ascii_tables script_interpreter
           empty_english_services
           (lit "https://youtu.be/abc") (ord "a") (lit "bc") []).
  vm_compute. reflexivity.
Defined.

(** X4.  When the call of the LLM raises, or reading the text of its
    response does, [analyze_transcript] prints the failure and returns the
    record [{"error": str(e)}] without parsing anything, and the analyze
    handler renders the result view of that record: the failure of the LLM
    is not a 500. *)
Theorem llm_failure_is_rendered
  (T : tables) (py : interpreter) (svc : services) (url : str) (x : char)
  (vid : str) (y : char) (t : str) (e : exn) (tr : trace) :
  extract_video_id T url = Return (Some (x :: vid)) ->
  chosen_transcript svc (x :: vid) = Some (y :: t) ->
  generate_content svc (analysis_prompt (y :: t)) = Raise e
  \/ (exists response,
         generate_content svc (analysis_prompt (y :: t)) = Return response
         /\ response_text response = Raise e) ->
  let evs := [CalledGenerateContent (analysis_prompt (y :: t));
              Printed (lit "Gemini API error (Analysis): " ++ exn_str e)] in
  (forall tr1,
      analyze_transcript py svc (y :: t) tr1
      = (Return (PyDict [(lit "error", PyStr (exn_str e))]), tr1 ++ evs))
  /\ index T py svc (post url) tr
     = (Return (RenderTemplate (lit "result.html")
                  (Some (PyDict [(lit "error", PyStr (exn_str e))]))),
        tr ++ fetches svc (x :: vid) ++ evs).
Proof.
  intros Hid Hch Hllm evs. subst evs.
  assert (A : forall tr1,
             analyze_transcript py svc (y :: t) tr1
             = (Return (PyDict [(lit "error", PyStr (exn_str e))]),
                tr1 ++ [CalledGenerateContent (analysis_prompt (y :: t));
                        Printed (lit "Gemini API error (Analysis): " ++ exn_str e)])).
  { intros tr1. rewrite analyze_transcript_eq. cbv zeta.
    destruct Hllm as [G | (response & G & R)]; rewrite G; [| rewrite R];
      rewrite <- app_assoc; reflexivity. }
  split; [exact A |].
  rewrite (index_post_chosen T py svc url tr Hid), Hch, A, <- app_assoc.
  reflexivity.
Qed.

Lemma llm_failure_is_rendered_witness :
  let e := OtherException (lit "quota exceeded") in
  let evs := [CalledGenerateContent (analysis_prompt (lit "hello world"));
              Printed (lit "Gemini API error (Analysis): " ++ exn_str e)] in
  (forall tr1,
      analyze_transcript script_interpreter (failing_llm_services e)
        (lit "hello world") tr1
      = (Return (PyDict [(lit "error", PyStr (exn_str e))]), tr1 ++ evs))
  /\ index ascii_tables script_interpreter (failing_llm_services e)
       (post (lit "https://youtu.be/abc")) []
     = (Return (RenderTemplate (lit "result.html")
                  (Some (PyDict [(lit "error", PyStr (exn_str e))]))),
        [] ++ fetches (failing_llm_services e) (lit "abc") ++ evs).
Proof.
  apply (@llm_failure_is_rendered ascii_tables script_interpreter
           (failing_llm_services (OtherException (lit "quota exceeded")))
           (lit "https://youtu.be/abc") (ord "a") (lit "bc")
           (ord "h") (lit "ello world")
           (OtherException (lit "quota exceeded")) []).
  - vm_compute. reflexivity.
  - vm_compute. reflexivity.
  - left. reflexivity.
Defined.

(** The ask handler on a JSON object. *)
Lemma ask_question_route_object
  (py : interpreter) (svc : services) (data : list (str * pyvalue))
  (tr : trace) :
  let field key :=
    match dict_get data key with Some v => v | None => PyNone end in
  ask_question_route py svc {| get_json := Return (PyDict data) |} tr =
  if truthy (field (lit "question")) && truthy (field (lit "transcript")) then
    match format_value py (field (lit "transcript")) with
    | Raise e => (Raise e, tr)
    | Return transcript_text =>
        match format_value py (field (lit "question")) with
        | Raise e => (Raise e, tr)
        | Return question_text =>
            match answer_question svc question_text transcript_text tr with
            | (Return answer, tr') =>
                (Return (Jsonify (PyDict [(lit "answer", PyStr answer)]) 200),
                 tr')
            | (Raise e, tr') => (Raise e, tr')
            end
        end
    end
  else (Return missing_fields, tr).
Proof.
  cbv zeta. unfold ask_question_route, value_get. cbn [get_json].
  unfold bind at 1, lift at 1.
  unfold bind at 1, lift at 1. unfold bind at 1, lift at 1.
  destruct (truthy _); [| reflexivity].
  destruct (truthy _); [| reflexivity].
  cbn [negb orb andb]. unfold answer_question_of.
  unfold bind at 1. unfold bind at 1, lift at 1.
  destruct (format_value py _) as [t|e]; [| reflexivity].
  unfold bind at 1, lift at 1.
  destruct (format_value py _) as [q|e]; [| reflexivity].
  destruct (answer_question svc q t tr) as [[a|e] tr']; reflexivity.
Qed.

(** X5.  The ask handler, on every request.  When [request.get_json()]
    raises, the handler raises that exception; when the body is not a JSON
    object ([null], a list, a string, a number, a boolean), [data.get]
    raises [AttributeError]; in both cases nothing is printed or called.  On
    a JSON object the handler answers 400 with the record
    [{"error": "Missing question or transcript."}] exactly when the question
    or the transcript is absent or falsy ([null], [false], zero, the empty
    string, list or object), and then it does not call the LLM.  Otherwise
    the two values go into the prompt, a string as it is and another value
    through [str]: the handler calls the LLM once, with the answer prompt of
    the two texts, and answers 200 with an [answer] payload; it raises only
    if [str] does, before anything is called, which cannot happen when the
    question and the transcript are strings. *)
Theorem ask_question_route_validates
  (py : interpreter) (svc : services) (request : ask_request) (tr : trace) :
  match get_json request with
  | Raise e => ask_question_route py svc request tr = (Raise e, tr)
  | Return (PyDict data) =>
      let field key :=
        match dict_get data key with Some v => v | None => PyNone end in
      let question := field (lit "question") in
      let transcript := field (lit "transcript") in
      if truthy question && truthy transcript then
        match format_value py transcript, format_value py question with
        | Return transcript_text, Return question_text =>
            exists answer evs,
              ask_question_route py svc request tr
              = (Return (Jsonify (PyDict [(lit "answer", PyStr answer)]) 200),
                 tr ++ evs)
              /\ llm_calls evs = [answer_prompt question_text transcript_text]
        | Return _, Raise e =>
            ask_question_route py svc request tr = (Raise e, tr)
        | Raise e, _ => ask_question_route py svc request tr = (Raise e, tr)
        end
        /\ (forall q t,
               question = PyStr q -> transcript = PyStr t ->
               exists answer evs,
                 ask_question_route py svc request tr
                 = (Return (Jsonify (PyDict [(lit "answer", PyStr answer)]) 200),
                    tr ++ evs)
                 /\ llm_calls evs = [answer_prompt q t])
      else ask_question_route py svc request tr = (Return missing_fields, tr)
  | Return data =>
      ask_question_route py svc request tr
      = (Raise (AttributeError
                  (lit "'" ++ type_name data
                     ++ lit "' object has no attribute 'get'")),
         tr)
  end.
Proof.
  destruct request as [[data|e]]; cbn [get_json]; [| reflexivity].
  destruct data as [| | | | | |data]; try reflexivity.
  cbv zeta. rewrite ask_question_route_object. cbv zeta.
  set (question := match dict_get data (lit "question") with
                   | Some v => v | None => PyNone end).
  set (transcript := match dict_get data (lit "transcript") with
                     | Some v => v | None => PyNone end).
  destruct (truthy question && truthy transcript); [| reflexivity].
  assert (A : forall q t,
             exists answer evs,
               match answer_question svc q t tr with
               | (Return answer, tr') =>
                   (Return (Jsonify (PyDict [(lit "answer", PyStr answer)]) 200),
                    tr')
               | (Raise e, tr') => (Raise e, tr')
               end
               = (Return (Jsonify (PyDict [(lit "answer", PyStr answer)]) 200),
                  tr ++ evs)
               /\ llm_calls evs = [answer_prompt q t]).
  { intros q t.
    unfold answer_question, try_except. cbv zeta. rewrite bind_perform.
    destruct (generate_content svc (answer_prompt q t)) as [response|e].
    - unfold bind, lift. destruct (response_text response) as [text|e].
      + eexists; eexists. split; reflexivity.
      + unfold is_Exception, print, perform, ret. rewrite <- app_assoc.
        eexists; eexists. split; reflexivity.
    - unfold is_Exception, bind, print, perform, ret. rewrite <- app_assoc.
      eexists; eexists. split; reflexivity. }
  split.
  - destruct (format_value py transcript) as [t|e]; [| reflexivity].
    destruct (format_value py question) as [q|e]; [| reflexivity].
    apply A.
  - intros q t -> ->. cbn [format_value]. apply A.
Qed.

(* ================================================================= *)
(** ** The fetcher and the answerer *)

Lemma space_joined_empty (texts : list str) :
  space_joined texts = [] <-> texts = [] \/ texts = [[]].
Proof.
  split.
  - destruct texts as [|t [|u rest]]; simpl.
    + auto.
    + intros ->. auto.
    + intros H. apply app_eq_nil in H as [_ H]. discriminate H.
  - intros [-> | ->]; reflexivity.
Qed.

(** X6.  [get_transcript] gives a value that counts as absent ([None] or
    the empty string) exactly when the transcript service raises, or
    returns no caption fragment, or returns a single fragment whose text is
    empty; in every other case it gives a non-empty transcript. *)
Theorem get_transcript_is_empty_when
  (svc : services) (video_id lang_code : str) (tr : trace) :
  exists transcript,
    fst (get_transcript svc video_id lang_code tr) = Return transcript
    /\ (truthy_opt transcript = false <->
        match youtube_get_transcript svc video_id [lang_code] with
        | Raise _ => True
        | Return fragments =>
            map text fragments = [] \/ map text fragments = [[]]
        end).
Proof.
  rewrite get_transcript_eq. exists (fetched svc video_id lang_code).
  split; [reflexivity |]. unfold fetched.
  destruct (youtube_get_transcript svc video_id [lang_code]) as [l|e];
    [| split; auto].
  rewrite <- space_joined_empty. unfold truthy_opt.
  destruct (space_joined (map text l)); split; auto; discriminate.
Qed.

(** X7.  The answer of [answer_question] neither begins nor ends with
    whitespace, whatever the LLM returns: it is the trimmed text of the
    LLM, or the fixed apology. *)
Theorem answer_has_no_surrounding_whitespace
  (svc : services) (question transcript : str) (tr : trace) :
  exists answer tr',
    answer_question svc question transcript tr = (Return answer, tr')
    /\ (forall x r, answer = x :: r -> isspace x = false)
    /\ (forall x r, answer = r ++ [x] -> isspace x = false).
Proof.
  unfold answer_question, try_except. cbv zeta. rewrite bind_perform.
  assert (F : (forall x r, fallback_answer = x :: r -> isspace x = false)
              /\ (forall x r, fallback_answer = r ++ [x] -> isspace x = false)).
  { split.
    - intros x r E. inversion E. reflexivity.
    - intros x r E. apply (f_equal (@rev char)) in E.
      rewrite rev_app_distr in E. inversion E. reflexivity. }
  destruct (generate_content svc (answer_prompt question transcript))
    as [response|e].
  - unfold bind, lift. destruct (response_text response) as [text|e].
    + eexists; eexists. split; [reflexivity |].
      destruct (strip_spec text) as (_ & _ & _ & _ & _ & A & B). split; assumption.
    + eexists; eexists. split; [reflexivity | exact F].
  - eexists; eexists. split; [reflexivity | exact F].
Qed.

(* ================================================================= *)
(** ** The URL resolver, on whole URLs *)

(** *** URLs of the form [scheme://host...] with a plain host *)

Lemma contains_false (s : str) (c : char) :
  contains s c = false <-> ~ In c s.
Proof.
  unfold contains. split.
  - intros H Hin.
    assert (E : existsb (chr_eqb c) s = true)
      by (apply existsb_exists; exists c; split; [exact Hin | apply chr_eqb_refl]).
    congruence.
  - intros H. destruct (existsb (chr_eqb c) s) eqn:E; [| reflexivity].
    apply existsb_exists in E as (x & Hx & Ex). apply chr_eqb_eq in Ex. subst x.
    contradiction.
Qed.

(** A string all of whose characters pass [p] holds no character that
    fails it. *)
Lemma forallb_contains (p : char -> bool) (s : str) (c : char) :
  forallb p s = true -> p c = false -> contains s c = false.
Proof.
  intros H Hc. apply contains_false. intros Hin.
  rewrite forallb_forall in H. rewrite (H c Hin) in Hc. discriminate.
Qed.

Lemma forallb_remove_unsafe (p : char -> bool) (s : str) :
  forallb p s = true -> p 9%N = false -> p 10%N = false -> p 13%N = false ->
  remove_unsafe s = s.
Proof.
  intros H H9 H10 H13. unfold remove_unsafe.
  rewrite (@filter_no_char s 9%N) by (eapply forallb_contains; eauto).
  rewrite (@filter_no_char s 13%N) by (eapply forallb_contains; eauto).
  rewrite (@filter_no_char s 10%N) by (eapply forallb_contains; eauto).
  reflexivity.
Qed.

Lemma index_of_none (c : char) (s : str) :
  contains s c = false -> index_of c s = None.
Proof. intros H. apply index_of_not_in, contains_false, H. Qed.

Lemma last_index_of_none (c : char) (s : str) :
  contains s c = false -> last_index_of c s = None.
Proof. intros H. apply last_index_of_not_in, contains_false, H. Qed.

Lemma index_of_skip (c : char) (a b : str) :
  contains a c = false -> index_of c (a ++ c :: b) = Some (length a).
Proof.
  intros H. rewrite index_of_app, (@index_of_none _ _ H). simpl.
  rewrite chr_eqb_refl. simpl. rewrite Nat.add_0_r. reflexivity.
Qed.

Lemma firstn_exact (A : Type) (a b : list A) : firstn (length a) (a ++ b) = a.
Proof. induction a as [|x a IH]; simpl; [reflexivity | rewrite IH; reflexivity]. Qed.

Lemma skipn_exact (A : Type) (a b : list A) : skipn (length a) (a ++ b) = b.
Proof. induction a as [|x a IH]; simpl; [reflexivity | exact IH]. Qed.

Lemma skipn_past (A : Type) (a : list A) (c : A) (b : list A) :
  skipn (S (length a)) (a ++ c :: b) = b.
Proof. induction a as [|x a IH]; simpl; [reflexivity | exact IH]. Qed.

Lemma partition_skip (c : char) (a b : str) :
  contains a c = false -> partition c (a ++ c :: b) = (a, true, b).
Proof.
  intros H. unfold partition. rewrite (@index_of_skip c a b H).
  rewrite firstn_exact, skipn_past. reflexivity.
Qed.

Lemma partition_none (c : char) (a : str) :
  contains a c = false -> partition c a = (a, false, []).
Proof. intros H. unfold partition. rewrite (@index_of_none _ _ H). reflexivity. Qed.

Lemma valid_scheme_inv (s : str) :
  valid_scheme s = true ->
  exists c s', s = c :: s' /\ is_ascii_alpha c = true
               /\ forallb is_scheme_char s = true.
Proof.
  unfold valid_scheme. destruct s as [|c s']; [discriminate |].
  intros H. apply andb_true_iff in H as [H1 H2].
  apply andb_true_iff in H1 as [_ H1]. eauto.
Qed.

Lemma scheme_split_scheme (s rest : str) :
  valid_scheme s = true ->
  scheme_split (s ++ ord ":" :: rest) = (map ascii_lower s, rest).
Proof.
  intros V. pose proof V as V'.
  apply valid_scheme_inv in V' as (c & s' & -> & Ha & Hs).
  unfold scheme_split, find.
  assert (C : contains (c :: s') (ord ":") = false)
    by (eapply forallb_contains; [exact Hs | reflexivity]).
  rewrite (@index_of_skip _ _ rest C).
  assert (P : (0 <? Z.of_nat (length (c :: s')))%Z = true)
    by (apply Z.ltb_lt; simpl; lia).
  rewrite P, Nat2Z.id. unfold slice, slice_from.
  rewrite Nat.sub_0_r. cbn [skipn].
  rewrite firstn_exact.
  unfold valid_scheme in V. apply andb_true_iff in V as [V1 V2].
  change ((c :: s') ++ ord ":" :: rest) with (c :: (s' ++ ord ":" :: rest)).
  cbv iota. rewrite V1, Hs. cbn [andb].
  change (c :: (s' ++ ord ":" :: rest)) with ((c :: s') ++ ord ":" :: rest).
  rewrite Nat.add_comm. change (1 + length (c :: s')) with (S (length (c :: s'))).
  rewrite skipn_past. reflexivity.
Qed.

Lemma find_from_host (H r : str) (c : char) :
  contains H c = false ->
  find_from (lit "//" ++ H ++ r) c 2 =
  match index_of c r with
  | Some i => Z.of_nat (2 + length H + i)
  | None => (-1)%Z
  end.
Proof.
  intros C. unfold find_from.
  change (skipn 2 (lit "//" ++ H ++ r)) with (H ++ r).
  rewrite index_of_app, (@index_of_none _ _ C).
  destruct (index_of c r) as [i|]; [| reflexivity].
  reflexivity.
Qed.

Lemma splitnetloc_host (H r : str) :
  forallb host_char H = true -> starts_component r = true ->
  _splitnetloc (lit "//" ++ H ++ r) 2 = (H, r).
Proof.
  intros HH Hr. unfold _splitnetloc. cbn [fold_left].
  rewrite !find_from_host by (eapply forallb_contains; [exact HH | reflexivity]).
  assert (L : length (lit "//" ++ H ++ r) = 2 + length H + length r).
  { change (lit "//" ++ H ++ r) with (ord "/" :: ord "/" :: H ++ r).
    simpl. rewrite length_app. lia. }
  rewrite L.
  set (d3 := if (0 <=? _)%Z then _ else _).
  assert (D : d3 = 2 + length H).
  { subst d3. destruct r as [|d r'].
    - simpl. lia.
    - unfold starts_component in Hr. cbn [existsb] in Hr.
      cbn [index_of].
      destruct (index_of (ord "/") r') as [i1|];
        destruct (index_of (ord "?") r') as [i2|];
        destruct (index_of (ord "#") r') as [i3|];
        destruct (chr_eqb d (ord "/")) eqn:E1;
        destruct (chr_eqb d (ord "?")) eqn:E2;
        destruct (chr_eqb d (ord "#")) eqn:E3;
        try discriminate Hr; cbn [option_map];
        repeat match goal with
               | |- context [(0 <=? ?z)%Z] => destruct (Z.leb_spec 0 z)
               end; simpl length; lia. }
  rewrite D. unfold slice, slice_from.
  change (skipn 2 (lit "//" ++ H ++ r)) with (H ++ r).
  replace (2 + length H - 2) with (length H) by lia.
  rewrite firstn_exact.
  change (2 + length H) with (S (S (length H))).
  change (lit "//" ++ H ++ r) with (ord "/" :: ord "/" :: H ++ r).
  cbn [skipn]. rewrite skipn_exact. reflexivity.
Qed.

Lemma netloc_split_host (T : tables) (H r : str) :
  forallb host_char H = true -> starts_component r = true ->
  netloc_split T (lit "//" ++ H ++ r) = Return (H, r).
Proof.
  intros HH Hr. unfold netloc_split.
  change (str_eqb (slice (lit "//" ++ H ++ r) 0 2) (lit "//")) with true.
  cbv iota. rewrite splitnetloc_host by assumption.
  rewrite (@forallb_contains host_char H (ord "[") HH eq_refl).
  rewrite (@forallb_contains host_char H (ord "]") HH eq_refl).
  reflexivity.
Qed.

Lemma host_char_isascii (H : str) :
  forallb host_char H = true -> forallb isascii H = true.
Proof.
  intros HH. apply forallb_forall. intros c Hc.
  rewrite forallb_forall in HH. specialize (HH c Hc).
  unfold host_char in HH. apply andb_true_iff in HH as [HH _]. exact HH.
Qed.

Lemma checknetloc_host (T : tables) (H : str) :
  forallb host_char H = true -> _checknetloc T H = Return tt.
Proof.
  intros HH. unfold _checknetloc. rewrite (host_char_isascii H HH).
  destruct H; reflexivity.
Qed.

Lemma scheme_char_plain (s : str) :
  forallb is_scheme_char s = true -> remove_unsafe s = s.
Proof. intros H. apply (forallb_remove_unsafe is_scheme_char); auto. Qed.

Lemma host_char_plain (H : str) :
  forallb host_char H = true -> remove_unsafe H = H.
Proof. intros HH. apply (forallb_remove_unsafe host_char); auto. Qed.

Lemma starts_component_remove_unsafe (r : str) :
  starts_component r = true -> starts_component (remove_unsafe r) = true.
Proof.
  destruct r as [|c r]; [reflexivity |]. intros H.
  change (c :: r) with ([c] ++ r). rewrite remove_unsafe_app.
  assert (E : remove_unsafe [c] = [c]).
  { unfold starts_component in H. cbn [existsb] in H.
    destruct (chr_eqb c (ord "/")) eqn:E1;
      [apply chr_eqb_eq in E1; subst c; reflexivity |].
    destruct (chr_eqb c (ord "?")) eqn:E2;
      [apply chr_eqb_eq in E2; subst c; reflexivity |].
    destruct (chr_eqb c (ord "#")) eqn:E3;
      [apply chr_eqb_eq in E3; subst c; reflexivity | discriminate]. }
  rewrite E. exact H.
Qed.

(** [urlsplit] on [scheme://host] followed by a path, a query or a
    fragment, for a plain host. *)
Lemma urlsplit_host (T : tables) (s H r : str) :
  valid_scheme s = true -> forallb host_char H = true ->
  starts_component r = true ->
  urlsplit T (s ++ lit "://" ++ H ++ r) =
  Return (map ascii_lower s, H, path_of r, query_of r, fragment_of r).
Proof.
  intros V HH Hr. rewrite urlsplit_eq. cbv zeta.
  pose proof V as V'. apply valid_scheme_inv in V' as (c & s' & -> & Ha & Hs).
  assert (D : dropwhile is_c0_control_or_space ((c :: s') ++ lit "://" ++ H ++ r)
              = (c :: s') ++ lit "://" ++ H ++ r).
  { cbn [app dropwhile].
    assert (E : is_c0_control_or_space c = false).
    { unfold is_c0_control_or_space. unfold is_ascii_alpha in Ha.
      apply N.leb_gt.
      apply orb_true_iff in Ha as [Ha|Ha]; apply andb_true_iff in Ha as [Ha _];
        apply N.leb_le in Ha; lia. }
    rewrite E. reflexivity. }
  rewrite D, !remove_unsafe_app, (scheme_char_plain _ Hs), (host_char_plain _ HH).
  change (remove_unsafe (lit "://")) with (lit "://").
  change ((c :: s') ++ lit "://" ++ H ++ remove_unsafe r)
    with ((c :: s') ++ ord ":" :: (lit "//" ++ H ++ remove_unsafe r)).
  rewrite (@scheme_split_scheme _ _ V).
  rewrite netloc_split_host
    by (try assumption; apply starts_component_remove_unsafe; exact Hr).
  unfold path_of, query_of, fragment_of.
  destruct (fragment_split (remove_unsafe r)) as [u f]. cbn [fst snd].
  destruct (query_split u) as [p q]. cbn [fst snd].
  rewrite checknetloc_host by exact HH. reflexivity.
Qed.

(** [urlparse] on such a URL. *)
Lemma urlparse_host (T : tables) (s H r : str) :
  valid_scheme s = true -> forallb host_char H = true ->
  starts_component r = true ->
  urlparse T (s ++ lit "://" ++ H ++ r) =
  Return {| scheme := map ascii_lower s; netloc := H;
            path := fst (params_split (map ascii_lower s) (path_of r));
            params := snd (params_split (map ascii_lower s) (path_of r));
            query := query_of r; fragment := fragment_of r |}.
Proof.
  intros V HH Hr. unfold urlparse. rewrite urlsplit_host by assumption.
  unfold params_split.
  destruct (existsb (str_eqb (map ascii_lower s)) uses_params
            && contains (path_of r) (ord ";")); [| reflexivity].
  destruct (_splitparams (path_of r)); reflexivity.
Qed.

(** The [hostname] of a parsed URL whose netloc is a plain host: the host
    in lower case, absent when the host is empty. *)
Lemma hostname_host (T : tables) (r : ParseResult) :
  forallb host_char (netloc r) = true ->
  hostname T r = match netloc r with
                 | [] => None
                 | _ => Some (map ascii_lower (netloc r))
                 end.
Proof.
  intros HH. unfold hostname, _hostinfo, rpartition.
  rewrite (@last_index_of_none (ord "@") (netloc r))
    by (eapply forallb_contains; [exact HH | reflexivity]).
  rewrite (@partition_none (ord "[") (netloc r))
    by (eapply forallb_contains; [exact HH | reflexivity]).
  rewrite (@partition_none (ord ":") (netloc r))
    by (eapply forallb_contains; [exact HH | reflexivity]).
  destruct (netloc r) as [|c h] eqn:E; [reflexivity |].
  rewrite (@partition_none (ord "%") (c :: h))
    by (eapply forallb_contains; [exact HH | reflexivity]).
  unfold lower. rewrite (host_char_isascii _ HH), !app_nil_r. reflexivity.
Qed.

Lemma letter_host_char (c : char) :
  is_ascii_alpha c = true -> host_char c = true.
Proof.
  unfold is_ascii_alpha. intros U.
  assert (R : (65 <= c <= 122)%N).
  { apply orb_true_iff in U as [U|U]; apply andb_true_iff in U as [U1 U2];
      apply N.leb_le in U1, U2; lia. }
  assert (N91 : c <> 91%N /\ c <> 93%N).
  { split; intros ->; vm_compute in U; discriminate U. }
  unfold host_char, isascii. apply andb_true_iff. split.
  - apply N.ltb_lt. lia.
  - apply negb_true_iff. cbn [existsb]. unfold chr_eqb.
    change (ord "/") with 47%N. change (ord "?") with 63%N.
    change (ord "#") with 35%N. change (ord "[") with 91%N.
    change (ord "]") with 93%N. change (ord "@") with 64%N.
    change (ord ":") with 58%N. change (ord "%") with 37%N.
    repeat (apply orb_false_iff; split); try reflexivity;
      apply N.eqb_neq; lia.
Qed.

Lemma lower_letter (c : char) :
  ((65 <=? c) && (c <=? 90))%N = true ->
  is_ascii_alpha c = true /\ is_ascii_alpha (c + 32)%N = true.
Proof.
  intros U. apply andb_true_iff in U as [U1 U2]. apply N.leb_le in U1, U2.
  unfold is_ascii_alpha. split; apply orb_true_iff; [left | right];
    apply andb_true_iff; split; apply N.leb_le; lia.
Qed.

Lemma host_char_lower_iff (c : char) :
  host_char (ascii_lower c) = host_char c.
Proof.
  unfold ascii_lower.
  destruct ((65 <=? c) && (c <=? 90))%N eqn:U; [| reflexivity].
  destruct (lower_letter c U) as [A B].
  rewrite (letter_host_char _ A), (letter_host_char _ B). reflexivity.
Qed.

Lemma host_char_map_lower (H : str) :
  forallb host_char (map ascii_lower H) = forallb host_char H.
Proof.
  induction H as [|c H IH]; [reflexivity |]. simpl.
  rewrite host_char_lower_iff, IH. reflexivity.
Qed.

Lemma remove_unsafe_cons (c : char) (r : str) :
  existsb (chr_eqb c) [9%N; 10%N; 13%N] = false ->
  remove_unsafe (c :: r) = c :: remove_unsafe r.
Proof.
  intros H. cbn [existsb] in H.
  apply orb_false_iff in H as [H9 H]. apply orb_false_iff in H as [H10 H].
  apply orb_false_iff in H as [H13 _].
  unfold remove_unsafe, remove_char. cbn [filter].
  rewrite H9. cbn [negb filter]. rewrite H13. cbn [negb filter].
  rewrite H10. reflexivity.
Qed.

Lemma path_char_plain (p : str) :
  forallb path_char p = true -> remove_unsafe p = p.
Proof. intros H. apply (forallb_remove_unsafe path_char); auto. Qed.

Lemma fragment_split_none (u : str) :
  contains u (ord "#") = false -> fragment_split u = (u, []).
Proof. intros H. unfold fragment_split. rewrite H. reflexivity. Qed.

Lemma query_split_none (u : str) :
  contains u (ord "?") = false -> query_split u = (u, []).
Proof. intros H. unfold query_split. rewrite H. reflexivity. Qed.

Lemma contains_app (a b : str) (c : char) :
  contains (a ++ b) c = contains a c || contains b c.
Proof. apply existsb_app. Qed.

Lemma fragment_split_at (a b : str) :
  contains a (ord "#") = false ->
  fragment_split (a ++ ord "#" :: b) = (a, b).
Proof.
  intros H. unfold fragment_split, split1.
  rewrite contains_app. cbn [contains existsb].
  rewrite chr_eqb_refl, orb_true_r, (@partition_skip _ _ _ H). reflexivity.
Qed.

Lemma query_split_at (a b : str) :
  contains a (ord "?") = false ->
  query_split (a ++ ord "?" :: b) = (a, b).
Proof.
  intros H. unfold query_split, split1.
  rewrite contains_app. cbn [contains existsb].
  rewrite chr_eqb_refl, orb_true_r, (@partition_skip _ _ _ H). reflexivity.
Qed.

Lemma fragment_split_spec (u : str) :
  fragment_split u = (before_hash u, after_hash u).
Proof.
  unfold fragment_split, split1, partition, before_hash, after_hash.
  rewrite contains_index_of.
  destruct (index_of (ord "#") u); reflexivity.
Qed.

(** The part of the URL that [urlsplit] reads as the path, when it is
    followed by nothing, a query or a fragment. *)
Lemma path_query_of_plain (p tail : str) :
  forallb path_char p = true -> starts_query_or_fragment tail = true ->
  path_of (p ++ tail) = p
  /\ (forall q, tail = ord "?" :: q ->
                query_of (p ++ tail) = before_hash (remove_unsafe q)).
Proof.
  intros Hp Ht. unfold path_of, query_of.
  rewrite remove_unsafe_app, (path_char_plain _ Hp).
  assert (Ch : contains p (ord "#") = false)
    by (eapply forallb_contains; [exact Hp | reflexivity]).
  assert (Cq : contains p (ord "?") = false)
    by (eapply forallb_contains; [exact Hp | reflexivity]).
  destruct tail as [|c t].
  - change (remove_unsafe []) with (@nil char). rewrite app_nil_r.
    rewrite (fragment_split_none _ Ch). cbn [fst].
    rewrite (query_split_none _ Cq). split; [reflexivity | discriminate].
  - unfold starts_query_or_fragment in Ht. cbn [existsb] in Ht.
    destruct (chr_eqb c (ord "?")) eqn:E1.
    + apply chr_eqb_eq in E1. subst c.
      rewrite remove_unsafe_cons by reflexivity.
      rewrite fragment_split_spec. cbn [fst].
      assert (B : before_hash (p ++ ord "?" :: remove_unsafe t)
                  = p ++ ord "?" :: before_hash (remove_unsafe t)).
      { unfold before_hash. rewrite index_of_app, (@index_of_none _ _ Ch).
        cbn [index_of]. change (chr_eqb (ord "?") (ord "#")) with false.
        cbv iota.
        destruct (index_of (ord "#") (remove_unsafe t)) as [i|]; [| reflexivity].
        cbn [option_map].
        rewrite firstn_app.
        replace (length p + S i - length p) with (S i) by lia.
        rewrite firstn_all2 by lia. reflexivity. }
      rewrite B, (@query_split_at _ _ Cq). cbn [fst snd].
      split; [reflexivity |]. intros q Hq. inversion Hq. reflexivity.
    + destruct (chr_eqb c (ord "#")) eqn:E2; [| discriminate].
      apply chr_eqb_eq in E2. subst c.
      rewrite remove_unsafe_cons by reflexivity.
      rewrite (@fragment_split_at _ _ Ch). cbn [fst].
      rewrite (query_split_none _ Cq). split; [reflexivity | discriminate].
Qed.

Lemma params_split_none (sch u : str) :
  contains u (ord ";") = false -> params_split sch u = (u, []).
Proof. intros H. unfold params_split. rewrite H, andb_false_r. reflexivity. Qed.

(** [resolve] on a parsed URL whose netloc is a plain host. *)
Lemma resolve_host (T : tables) (r : ParseResult) :
  forallb host_char (netloc r) = true ->
  resolve T r = resolve_parts (map ascii_lower (netloc r)) (path r) (query r).
Proof.
  intros HH. unfold resolve, resolve_parts. cbv zeta.
  rewrite (hostname_host T r HH).
  destruct (netloc r) as [|c h]; [reflexivity |].
  set (host := map ascii_lower (c :: h)).
  unfold opt_in. cbn [existsb]. rewrite !orb_false_r.
  destruct (str_eqb host (lit "youtu.be")); [reflexivity |].
  destruct (str_eqb host (lit "www.youtube.com") || str_eqb host (lit "youtube.com"));
    [| reflexivity].
  destruct (str_eqb (path r) (lit "/watch")); [| reflexivity].
  rewrite parse_qsl_fields. apply first_v_values.
Qed.

(** [extract_video_id] on [scheme://host] followed by a path, a query or a
    fragment, for a plain host. *)
Lemma extract_video_id_host (T : tables) (s H r : str) :
  valid_scheme s = true -> forallb host_char H = true ->
  starts_component r = true ->
  extract_video_id T (s ++ lit "://" ++ H ++ r) =
  Return (resolve_parts (map ascii_lower H)
            (fst (params_split (map ascii_lower s) (path_of r)))
            (query_of r)).
Proof.
  intros V HH Hr.
  rewrite extract_video_id_eq, urlparse_host by assumption.
  rewrite resolve_host by exact HH. reflexivity.
Qed.

Lemma host_of_lower (H : str) (name : str) :
  map ascii_lower H = name -> forallb host_char name = true ->
  forallb host_char H = true.
Proof. intros <- E. rewrite <- host_char_map_lower. exact E. Qed.

Lemma slash_path_char (p : str) :
  forallb path_char p = true -> forallb path_char (lit "/" ++ p) = true.
Proof. intros H. simpl. exact H. Qed.

(** X8.  Short links.  For every URL [scheme://youtu.be/ID], with any
    scheme, the host in any letter case and the identifier followed by
    nothing, a query or a fragment, [extract_video_id] returns [ID]: all
    that stands between the first [/] after the host and the first [?] or
    [#], as it is written (no percent-decoding, and further slashes are
    kept).  [ID] holds none of [?], [#], [;], tab, line feed and carriage
    return. *)
Theorem short_link_gives_the_path
  (T : tables) (s H id tail : str) :
  valid_scheme s = true ->
  map ascii_lower H = lit "youtu.be" ->
  forallb path_char id = true ->
  starts_query_or_fragment tail = true ->
  extract_video_id T (s ++ lit "://" ++ H ++ lit "/" ++ id ++ tail)
  = Return (Some id).
Proof.
  intros V HL Hid Ht.
  assert (HH : forallb host_char H = true)
    by (apply (@host_of_lower H _ HL); reflexivity).
  rewrite extract_video_id_host by (try assumption; reflexivity).
  rewrite HL.
  change (lit "/" ++ id ++ tail) with ((lit "/" ++ id) ++ tail).
  destruct (@path_query_of_plain (lit "/" ++ id) tail (@slash_path_char id Hid) Ht)
    as [P _].
  rewrite P, params_split_none
    by (eapply forallb_contains; [apply slash_path_char; exact Hid | reflexivity]).
  reflexivity.
Qed.

Lemma short_link_gives_the_path_witness :
  extract_video_id ascii_tables (lit "HTTP://YouTu.Be/dQw4w9WgXcQ/a%20b?t=42#x")
  = Return (Some (lit "dQw4w9WgXcQ/a%20b")).
Proof.
  apply (@short_link_gives_the_path ascii_tables (lit "HTTP") (lit "YouTu.Be")
           (lit "dQw4w9WgXcQ/a%20b") (lit "?t=42#x"));
    vm_compute; reflexivity.
Defined.

Lemma split_segments (prefix id more : str) :
  In prefix [lit "/embed/"; lit "/v/"] ->
  forallb segment_char id = true ->
  starts_segment more = true ->
  nth_error (split (ord "/") (prefix ++ id ++ more)) 2 = Some id.
Proof.
  intros Hp Hid Hm.
  assert (C : contains id (ord "/") = false)
    by (eapply forallb_contains; [exact Hid | reflexivity]).
  assert (S : exists rest, split (ord "/") (id ++ more) = id :: rest).
  { destruct more as [|c m].
    - rewrite app_nil_r, (@split_no_sep _ _ C). eauto.
    - unfold starts_segment in Hm. apply chr_eqb_eq in Hm. subst c.
      rewrite (@split_app_sep _ _ m C). eauto. }
  destruct S as [rest S].
  destruct Hp as [<- | [<- | []]].
  - change (lit "/embed/" ++ id ++ more)
      with ([] ++ ord "/" :: (lit "embed" ++ ord "/" :: (id ++ more))).
    rewrite split_app_sep by reflexivity.
    rewrite split_app_sep by reflexivity.
    rewrite S. reflexivity.
  - change (lit "/v/" ++ id ++ more)
      with ([] ++ ord "/" :: (lit "v" ++ ord "/" :: (id ++ more))).
    rewrite split_app_sep by reflexivity.
    rewrite split_app_sep by reflexivity.
    rewrite S. reflexivity.
Qed.

Lemma segment_path_char (s : str) :
  forallb segment_char s = true -> forallb path_char s = true.
Proof.
  intros H. apply forallb_forall. intros c Hc.
  rewrite forallb_forall in H. specialize (H c Hc).
  unfold segment_char in H. apply andb_true_iff in H as [H _]. exact H.
Qed.

(** X9.  Embed links.  For every URL [scheme://HOST/embed/ID] or
    [scheme://HOST/v/ID], with [HOST] one of [www.youtube.com] and
    [youtube.com] in any letter case, [extract_video_id] returns [ID], the
    third segment of the path: further segments, a query and a fragment
    after it are ignored.  [ID] holds none of [/], [?], [#], [;], tab, line
    feed and carriage return; it may be empty. *)
Theorem embed_link_gives_the_third_segment
  (T : tables) (s H prefix id more tail : str) :
  valid_scheme s = true ->
  In (map ascii_lower H) [lit "www.youtube.com"; lit "youtube.com"] ->
  In prefix [lit "/embed/"; lit "/v/"] ->
  forallb segment_char id = true ->
  starts_segment more = true -> forallb path_char more = true ->
  starts_query_or_fragment tail = true ->
  extract_video_id T (s ++ lit "://" ++ H ++ prefix ++ id ++ more ++ tail)
  = Return (Some id).
Proof.
  intros V HL Hp Hid Hm Hmc Ht.
  assert (HH : forallb host_char H = true).
  { destruct HL as [HL | [HL | []]]; apply (@host_of_lower H _ (eq_sym HL));
      reflexivity. }
  assert (Pc : forallb path_char (prefix ++ id ++ more) = true).
  { rewrite !forallb_app, (@segment_path_char _ Hid), Hmc.
    destruct Hp as [<- | [<- | []]]; reflexivity. }
  assert (Sc : starts_component (prefix ++ id ++ more ++ tail) = true)
    by (destruct Hp as [<- | [<- | []]]; reflexivity).
  rewrite extract_video_id_host by assumption.
  replace (prefix ++ id ++ more ++ tail) with ((prefix ++ id ++ more) ++ tail)
    by (rewrite <- !app_assoc; reflexivity).
  destruct (@path_query_of_plain (prefix ++ id ++ more) tail Pc Ht) as [P _].
  rewrite P, params_split_none
    by (eapply forallb_contains; [exact Pc | reflexivity]).
  cbn [fst]. unfold resolve_parts.
  assert (E : str_eqb (map ascii_lower H) (lit "youtu.be") = false
              /\ str_eqb (map ascii_lower H) (lit "www.youtube.com")
                 || str_eqb (map ascii_lower H) (lit "youtube.com") = true).
  { destruct HL as [<- | [<- | []]]; split; reflexivity. }
  destruct E as [E1 E2]. rewrite E1, E2.
  assert (W : str_eqb (prefix ++ id ++ more) (lit "/watch") = false
              /\ startswith (prefix ++ id ++ more) (lit "/embed/")
                 || startswith (prefix ++ id ++ more) (lit "/v/") = true).
  { destruct Hp as [<- | [<- | []]]; split; reflexivity. }
  destruct W as [W1 W2]. rewrite W1, W2.
  rewrite (@split_segments prefix id more Hp Hid Hm). reflexivity.
Qed.

Lemma embed_link_gives_the_third_segment_witness :
  extract_video_id ascii_tables
    (lit "https://www.YouTube.com/embed/dQw4w9WgXcQ/extra?start=10")
  = Return (Some (lit "dQw4w9WgXcQ")).
Proof.
  apply (@embed_link_gives_the_third_segment ascii_tables (lit "https")
           (lit "www.YouTube.com") (lit "/embed/") (lit "dQw4w9WgXcQ")
           (lit "/extra") (lit "?start=10"));
    try (vm_compute; reflexivity).
  - left. reflexivity.
  - left. reflexivity.
Defined.

Lemma str_eqb_neq (a b : str) : a <> b -> str_eqb a b = false.
Proof.
  intros N. destruct (str_eqb a b) eqn:E; [| reflexivity].
  apply str_eqb_eq in E. contradiction.
Qed.

(** X10.  Other hosts.  For every URL [scheme://HOST...] whose host is a
    plain name (no port, no user, no brackets) other than [youtu.be],
    [www.youtube.com] and [youtube.com] up to letter case,
    [extract_video_id] returns absent, whatever the path and the query:
    the mobile and the music subdomains are not resolved. *)
Theorem other_hosts_are_not_resolved
  (T : tables) (s H r : str) :
  valid_scheme s = true -> forallb host_char H = true ->
  starts_component r = true ->
  ~ In (map ascii_lower H)
       [lit "youtu.be"; lit "www.youtube.com"; lit "youtube.com"] ->
  extract_video_id T (s ++ lit "://" ++ H ++ r) = Return None.
Proof.
  intros V HH Hr N.
  rewrite extract_video_id_host by assumption. unfold resolve_parts.
  rewrite (@str_eqb_neq (map ascii_lower H) (lit "youtu.be"))
    by (intros E; apply N; rewrite E; simpl; auto).
  rewrite (@str_eqb_neq (map ascii_lower H) (lit "www.youtube.com"))
    by (intros E; apply N; rewrite E; simpl; auto).
  rewrite (@str_eqb_neq (map ascii_lower H) (lit "youtube.com"))
    by (intros E; apply N; rewrite E; simpl; auto).
  reflexivity.
Qed.

Lemma other_hosts_are_not_resolved_witness :
  extract_video_id ascii_tables
    (lit "https://m.youtube.com/watch?v=dQw4w9WgXcQ")
  = Return None.
Proof.
  apply (@other_hosts_are_not_resolved ascii_tables (lit "https")
           (lit "m.youtube.com") (lit "/watch?v=dQw4w9WgXcQ"));
    try (vm_compute; reflexivity).
  intros [E | [E | [E | []]]]; vm_compute in E; discriminate E.
Defined.

Lemma scheme_char_lower (c : char) :
  is_scheme_char (ascii_lower c) = true -> is_scheme_char c = true.
Proof.
  unfold ascii_lower.
  destruct ((65 <=? c) && (c <=? 90))%N eqn:U; [| auto].
  intros _. destruct (lower_letter c U) as [A _].
  unfold is_scheme_char. rewrite A. reflexivity.
Qed.

Lemma alpha_lower (c : char) :
  isascii (ascii_lower c) && is_ascii_alpha (ascii_lower c) = true ->
  isascii c && is_ascii_alpha c = true.
Proof.
  unfold ascii_lower.
  destruct ((65 <=? c) && (c <=? 90))%N eqn:U; [| auto].
  intros _. destruct (lower_letter c U) as [A _]. rewrite A, andb_true_r.
  apply andb_true_iff in U as [_ U2]. apply N.leb_le in U2.
  apply N.ltb_lt. lia.
Qed.

(** A scheme is valid in any letter case. *)
Lemma valid_scheme_of_lower (s : str) :
  valid_scheme (map ascii_lower s) = true -> valid_scheme s = true.
Proof.
  unfold valid_scheme. destruct s as [|c s]; [discriminate |].
  intros H. apply andb_true_iff in H as [H1 H2].
  cbn [map] in H1. rewrite (alpha_lower c H1). cbn [andb].
  clear H1. revert H2. generalize (c :: s). intros l.
  induction l as [|x l IH]; [reflexivity |]. simpl.
  intros H. apply andb_true_iff in H as [Hx Hl].
  rewrite (scheme_char_lower x Hx), (IH Hl). reflexivity.
Qed.

Lemma web_scheme (s : str) :
  In (map ascii_lower s) [lit "http"; lit "https"] ->
  valid_scheme s = true
  /\ forall u, params_split (map ascii_lower s) u = params_split (lit "http") u.
Proof.
  intros [E | [E | []]]; (split; [apply valid_scheme_of_lower |]);
    rewrite <- E; reflexivity.
Qed.

(** X11.  The scheme and the letter case of the host do not matter: two
    URLs that differ only by their scheme, [http] or [https] in any letter
    case, and by the letter case of their plain host, resolve to the same
    video identifier. *)
Theorem scheme_and_host_case_do_not_matter
  (T : tables) (s s' H H' r : str) :
  In (map ascii_lower s) [lit "http"; lit "https"] ->
  In (map ascii_lower s') [lit "http"; lit "https"] ->
  forallb host_char H = true ->
  map ascii_lower H' = map ascii_lower H ->
  starts_component r = true ->
  extract_video_id T (s' ++ lit "://" ++ H' ++ r)
  = extract_video_id T (s ++ lit "://" ++ H ++ r).
Proof.
  intros Hs Hs' HH HL Hr.
  destruct (web_scheme s Hs) as [V P]. destruct (web_scheme s' Hs') as [V' P'].
  assert (HH' : forallb host_char H' = true).
  { rewrite <- host_char_map_lower, HL, host_char_map_lower. exact HH. }
  rewrite !extract_video_id_host by assumption.
  rewrite P, P', HL. reflexivity.
Qed.

Lemma scheme_and_host_case_do_not_matter_witness :
  extract_video_id ascii_tables (lit "HTTP://Www.YouTube.Com/watch?v=dQw4w9WgXcQ")
  = extract_video_id ascii_tables (lit "https://www.youtube.com/watch?v=dQw4w9WgXcQ").
Proof.
  apply (@scheme_and_host_case_do_not_matter ascii_tables (lit "https")
           (lit "HTTP") (lit "www.youtube.com") (lit "Www.YouTube.Com")
           (lit "/watch?v=dQw4w9WgXcQ"));
    try (vm_compute; reflexivity).
  - right. left. reflexivity.
  - left. reflexivity.
Defined.

(** *** URLs without [//] *)

Lemma no_double_slash_app (a b : str) :
  no_double_slash (a ++ b) = true -> no_double_slash b = true.
Proof.
  induction a as [|x a IH]; [auto |].
  change ((x :: a) ++ b) with (x :: (a ++ b)).
  destruct (a ++ b) as [|y l] eqn:E.
  - intros _. destruct a; [simpl in E; subst b; reflexivity | discriminate].
  - cbn [no_double_slash]. intros H. apply andb_true_iff in H as [_ H].
    apply IH. exact H.
Qed.

Lemma no_double_slash_skipn (k : nat) (s : str) :
  no_double_slash s = true -> no_double_slash (skipn k s) = true.
Proof.
  intros H. rewrite <- (firstn_skipn k s) in H.
  apply no_double_slash_app in H. exact H.
Qed.

Lemma no_double_slash_head (s : str) :
  no_double_slash s = true -> str_eqb (slice s 0 2) (lit "//") = false.
Proof.
  destruct s as [|a [|b s]]; [reflexivity | |].
  - intros _. unfold slice. simpl. rewrite andb_false_r. reflexivity.
  - cbn [no_double_slash]. intros H. apply andb_true_iff in H as [H _].
    apply negb_true_iff in H. unfold slice. cbn [Nat.sub skipn firstn].
    cbn [str_eqb lit list_ascii_of_string map]. rewrite andb_true_r. exact H.
Qed.

Lemma scheme_split_suffix (url : str) :
  exists k, snd (scheme_split url) = skipn k url.
Proof.
  unfold scheme_split. destruct (_ && _).
  - eexists. reflexivity.
  - exists 0. reflexivity.
Qed.

(** Without [//] after the scheme there is no netloc, and [urlparse]
    accepts the URL. *)
Lemma urlparse_without_netloc (T : tables) (url : str) :
  no_double_slash (remove_unsafe url) = true ->
  exists r, urlparse T url = Return r /\ netloc r = [].
Proof.
  intros N. unfold urlparse. rewrite urlsplit_eq. cbv zeta.
  set (url1 := remove_unsafe (dropwhile is_c0_control_or_space url)).
  assert (N1 : no_double_slash url1 = true).
  { subst url1.
    rewrite (dropwhile_split is_c0_control_or_space url), remove_unsafe_app in N.
    apply no_double_slash_app in N. exact N. }
  destruct (scheme_split_suffix url1) as [k Hk].
  destruct (scheme_split url1) as [sch url2]. cbn [snd] in Hk. subst url2.
  unfold netloc_split.
  rewrite (no_double_slash_head _ (no_double_slash_skipn k _ N1)).
  destruct (fragment_split (skipn k url1)) as [u f].
  destruct (query_split u) as [p q].
  change (_checknetloc T []) with (@Return unit tt). cbv iota.
  destruct (existsb (str_eqb sch) uses_params && contains p (ord ";"));
    [destruct (_splitparams p) |]; eexists; split; reflexivity.
Qed.

(** X12.  A link without [//] is not resolved, whatever else it holds:
    [extract_video_id] returns absent on it, as on [youtu.be/ID] and
    [www.youtube.com/watch?v=ID] written without their scheme, and the
    analyze handler answers 400 "Invalid YouTube URL provided." without
    calling the transcript service or the LLM.  The two slashes are looked
    for after tab, line feed and carriage return are removed. *)
Theorem link_without_slashes_is_invalid
  (T : tables) (py : interpreter) (svc : services) (url : str) (tr : trace) :
  no_double_slash (remove_unsafe url) = true ->
  extract_video_id T url = Return None
  /\ index T py svc (post url) tr
     = (Return (PlainText (lit "Invalid YouTube URL provided.") 400), tr).
Proof.
  intros N.
  assert (E : extract_video_id T url = Return None).
  { rewrite extract_video_id_eq.
    destruct (urlparse_without_netloc T url N) as (r & -> & Hr).
    rewrite resolve_host by (rewrite Hr; reflexivity).
    rewrite Hr. reflexivity. }
  split; [exact E |]. apply index_invalid. left. exact E.
Qed.

Lemma link_without_slashes_is_invalid_witness :
  extract_video_id ascii_tables (lit "youtu.be/dQw4w9WgXcQ") = Return None
  /\ index ascii_tables script_interpreter (constant_services example_raw)
       (post (lit "youtu.be/dQw4w9WgXcQ")) []
     = (Return (PlainText (lit "Invalid YouTube URL provided.") 400), []).
Proof.
  apply (@link_without_slashes_is_invalid ascii_tables script_interpreter
           (constant_services example_raw) (lit "youtu.be/dQw4w9WgXcQ") []).
  vm_compute. reflexivity.
Defined.

(** *** Cleaning *)

Lemma dropwhile_all_app (p : char -> bool) (a b : str) :
  forallb p a = true -> dropwhile p (a ++ b) = dropwhile p b.
Proof.
  induction a as [|x a IH]; [reflexivity |]. simpl.
  intros H. apply andb_true_iff in H as [Hx Ha].
  rewrite Hx. apply IH, Ha.
Qed.

Lemma remove_char_idem (c : char) (s : str) :
  remove_char c (remove_char c s) = remove_char c s.
Proof.
  unfold remove_char. induction s as [|x s IH]; [reflexivity |]. simpl.
  destruct (negb (chr_eqb x c)) eqn:E; simpl; [rewrite E, IH |]; auto.
Qed.

Lemma remove_char_comm (c d : char) (s : str) :
  remove_char c (remove_char d s) = remove_char d (remove_char c s).
Proof.
  unfold remove_char. induction s as [|x s IH]; [reflexivity |]. simpl.
  destruct (negb (chr_eqb x d)) eqn:Ed; destruct (negb (chr_eqb x c)) eqn:Ec;
    simpl; rewrite ?Ed, ?Ec, IH; reflexivity.
Qed.

Lemma remove_unsafe_idem (s : str) :
  remove_unsafe (remove_unsafe s) = remove_unsafe s.
Proof.
  unfold remove_unsafe.
  rewrite (remove_char_comm 9%N 10%N), (remove_char_comm 9%N 13%N),
    remove_char_idem.
  rewrite (remove_char_comm 13%N 10%N (remove_char 13%N _)), remove_char_idem.
  rewrite remove_char_idem. reflexivity.
Qed.

Lemma remove_unsafe_head (s : str) :
  forall x r, dropwhile is_c0_control_or_space s = x :: r ->
              exists r', remove_unsafe (x :: r) = x :: r'.
Proof.
  intros x r H. apply dropwhile_head in H.
  exists (remove_unsafe r). apply remove_unsafe_cons.
  unfold is_c0_control_or_space in H. apply N.leb_gt in H.
  cbn [existsb]. unfold chr_eqb.
  repeat (apply orb_false_iff; split); try reflexivity; apply N.eqb_neq; lia.
Qed.

(** [urlsplit] on a URL and on the same URL cleaned. *)
Lemma urlsplit_cleaned (T : tables) (url : str) :
  urlsplit T (remove_unsafe (dropwhile is_c0_control_or_space url))
  = urlsplit T url.
Proof.
  rewrite !urlsplit_eq. cbv zeta.
  assert (E : remove_unsafe
                (dropwhile is_c0_control_or_space
                   (remove_unsafe (dropwhile is_c0_control_or_space url)))
              = remove_unsafe (dropwhile is_c0_control_or_space url)).
  { destruct (dropwhile is_c0_control_or_space url) as [|x r] eqn:D;
      [reflexivity |].
    destruct (remove_unsafe_head url D) as [r' R]. rewrite R.
    cbn [dropwhile]. rewrite (dropwhile_head _ _ D), <- R.
    apply remove_unsafe_idem. }
  rewrite E. reflexivity.
Qed.

(** X13.  The URL is cleaned before it is resolved: blanks and control
    characters before the link, and tabs, line feeds and carriage returns
    anywhere in it, change neither the identifier [extract_video_id]
    returns nor the exception it raises. *)
Theorem url_is_cleaned_first (T : tables) (url : str) :
  extract_video_id T url
  = extract_video_id T (remove_unsafe (dropwhile is_c0_control_or_space url))
  /\ (forall blanks,
         forallb is_c0_control_or_space blanks = true ->
         extract_video_id T (blanks ++ url) = extract_video_id T url).
Proof.
  assert (A : forall u v, urlsplit T u = urlsplit T v ->
                          extract_video_id T u = extract_video_id T v).
  { intros u v E. unfold extract_video_id, urlparse. rewrite E. reflexivity. }
  split.
  - apply A. symmetry. apply urlsplit_cleaned.
  - intros blanks B. apply A.
    rewrite <- (urlsplit_cleaned T (blanks ++ url)), <- (urlsplit_cleaned T url).
    rewrite (dropwhile_all_app _ _ url B). reflexivity.
Qed.

Lemma url_is_cleaned_first_witness :
  extract_video_id ascii_tables
    (lit " " ++ [newline] ++ lit "https://youtu.be/dQw4w9WgXcQ")
  = extract_video_id ascii_tables (lit "https://youtu.be/dQw4w9WgXcQ").
Proof.
  apply (proj2 (url_is_cleaned_first ascii_tables
                  (lit "https://youtu.be/dQw4w9WgXcQ"))
           (lit " " ++ [newline])).
  vm_compute. reflexivity.
Defined.

(** *** The fragment *)

Lemma dropwhile_app_stop (p : char -> bool) (a : str) (d : char) (b : str) :
  p d = false -> dropwhile p (a ++ d :: b) = dropwhile p a ++ d :: b.
Proof.
  intros Hd. induction a as [|x a IH]; simpl.
  - rewrite Hd. reflexivity.
  - destruct (p x); [exact IH | reflexivity].
Qed.

Lemma contains_filter (q : char -> bool) (s : str) (c : char) :
  contains s c = false -> contains (filter q s) c = false.
Proof.
  intros H. apply contains_false. intros Hin. apply filter_In in Hin as [Hin _].
  apply contains_false in H. contradiction.
Qed.

Lemma contains_remove_unsafe (s : str) (c : char) :
  contains s c = false -> contains (remove_unsafe s) c = false.
Proof.
  intros H. unfold remove_unsafe, remove_char.
  repeat apply contains_filter. exact H.
Qed.

Lemma contains_skipn (k : nat) (s : str) (c : char) :
  contains s c = false -> contains (skipn k s) c = false.
Proof.
  intros H. rewrite <- (firstn_skipn k s), contains_app in H.
  apply orb_false_iff in H as [_ H]. exact H.
Qed.

Lemma contains_dropwhile (p : char -> bool) (s : str) (c : char) :
  contains s c = false -> contains (dropwhile p s) c = false.
Proof.
  intros H. rewrite (dropwhile_split p s), contains_app in H.
  apply orb_false_iff in H as [_ H]. exact H.
Qed.

Lemma skipn_extend (A : Type) (k : nat) (a t : list A) :
  k <= length a -> skipn k (a ++ t) = skipn k a ++ t.
Proof.
  intros H. rewrite skipn_app. replace (k - length a) with 0 by lia.
  reflexivity.
Qed.

(** The scheme is split off the same when a fragment follows. *)
Lemma scheme_split_fragment (u f : str) :
  contains u (ord "#") = false ->
  scheme_split (u ++ ord "#" :: f)
  = (fst (scheme_split u), snd (scheme_split u) ++ ord "#" :: f)
  /\ contains (snd (scheme_split u)) (ord "#") = false.
Proof.
  intros Hu. unfold scheme_split, find.
  rewrite index_of_app.
  destruct (index_of (ord ":") u) as [i|] eqn:Ei.
  - apply index_of_lt in Ei as [Li _].
    destruct u as [|c u']; [simpl in Li; lia |].
    rewrite Nat2Z.id. unfold slice, slice_from. rewrite Nat.sub_0_r.
    cbn [skipn]. rewrite (@firstn_extend _ i (c :: u') (ord "#" :: f)) by lia.
    change ((c :: u') ++ ord "#" :: f) with (c :: (u' ++ ord "#" :: f)).
    cbv iota.
    destruct ((0 <? Z.of_nat i)%Z && (isascii c && is_ascii_alpha c)
              && forallb is_scheme_char (firstn i (c :: u'))).
    + cbn [fst snd].
      change (c :: (u' ++ ord "#" :: f)) with ((c :: u') ++ ord "#" :: f).
      rewrite (@skipn_extend _ (i + 1) (c :: u') (ord "#" :: f)) by lia.
      split; [reflexivity | apply contains_skipn; exact Hu].
    + split; [reflexivity | exact Hu].
  - cbn [index_of]. change (chr_eqb (ord "#") (ord ":")) with false. cbv iota.
    change ((0 <? -1)%Z) with false. cbn [andb fst snd].
    destruct (index_of (ord ":") f) as [k|]; cbn [option_map].
    + assert (F : forallb is_scheme_char
                    (slice (u ++ ord "#" :: f) 0
                       (Z.to_nat (Z.of_nat (length u + S k)))) = false).
      { rewrite Nat2Z.id. unfold slice. rewrite Nat.sub_0_r. cbn [skipn].
        rewrite firstn_app, firstn_all2 by lia.
        replace (length u + S k - length u) with (S k) by lia.
        cbn [firstn]. rewrite forallb_app. cbn [forallb].
        change (is_scheme_char (ord "#")) with false.
        rewrite andb_false_r. reflexivity. }
      rewrite F, andb_false_r. split; [reflexivity | exact Hu].
    + change ((0 <? -1)%Z) with false. cbn [andb].
      split; [reflexivity | exact Hu].
Qed.

Lemma find_from_slashes (X : str) (c : char) :
  find_from (lit "//" ++ X) c 2 =
  match index_of c X with
  | Some i => Z.of_nat (2 + i)
  | None => (-1)%Z
  end.
Proof. reflexivity. Qed.

Lemma index_of_bound (c : char) (s : str) :
  match index_of c s with
  | Some i => i < length s
  | None => True
  end.
Proof.
  destruct (index_of c s) as [i|] eqn:E; [| exact I].
  apply index_of_lt in E as [L _]. exact L.
Qed.

(** The end of the netloc is the same when a fragment follows. *)
Lemma splitnetloc_delim (r f : str) :
  contains r (ord "#") = false ->
  exists delim,
    2 <= delim <= 2 + length r
    /\ (forall X, X = [] \/ X = ord "#" :: f ->
          _splitnetloc (lit "//" ++ r ++ X) 2
          = (slice (lit "//" ++ r ++ X) 2 delim,
             slice_from (lit "//" ++ r ++ X) delim)).
Proof.
  intros Hr.
  pose proof (index_of_bound (ord "/") r) as B1.
  pose proof (index_of_bound (ord "?") r) as B2.
  exists (Nat.min (2 + length r)
            (Nat.min (match index_of (ord "/") r with
                      | Some i => 2 + i | None => 2 + length r end)
               (match index_of (ord "?") r with
                | Some i => 2 + i | None => 2 + length r end))).
  split.
  - destruct (index_of (ord "/") r); destruct (index_of (ord "?") r); lia.
  - intros X HX. unfold _splitnetloc. cbn [fold_left].
    rewrite !find_from_slashes, !index_of_app, (index_of_none _ _ Hr).
    assert (L : length (lit "//" ++ r ++ X) = 2 + length r + length X).
    { change (lit "//" ++ r ++ X) with (ord "/" :: ord "/" :: r ++ X).
      simpl. rewrite length_app. lia. }
    rewrite L.
    match goal with
    | |- (slice _ 2 ?d, _) = (slice _ 2 ?d', _) =>
        assert (D : d = d'); [| rewrite D; reflexivity]
    end.
    destruct HX as [-> | ->].
    + cbn [index_of option_map length].
      destruct (index_of (ord "/") r) as [i1|];
        destruct (index_of (ord "?") r) as [i2|]; cbn [option_map];
        repeat match goal with
               | |- context [(0 <=? ?z)%Z] => destruct (Z.leb_spec 0 z)
               end; lia.
    + cbn [index_of].
      change (chr_eqb (ord "#") (ord "/")) with false.
      change (chr_eqb (ord "#") (ord "?")) with false.
      change (chr_eqb (ord "#") (ord "#")) with true. cbv iota.
      destruct (index_of (ord "/") r) as [i1|];
        destruct (index_of (ord "?") r) as [i2|];
        destruct (index_of (ord "/") f) as [j1|];
        destruct (index_of (ord "?") f) as [j2|]; cbn [option_map];
        repeat match goal with
               | |- context [(0 <=? ?z)%Z] => destruct (Z.leb_spec 0 z)
               end; simpl length; lia.
Qed.

Lemma netloc_split_fragment (T : tables) (r f : str) :
  contains r (ord "#") = false ->
  match netloc_split T r with
  | Raise e => netloc_split T (r ++ ord "#" :: f) = Raise e
  | Return (n, p) =>
      netloc_split T (r ++ ord "#" :: f) = Return (n, p ++ ord "#" :: f)
      /\ contains p (ord "#") = false
  end.
Proof.
  intros Hr. unfold netloc_split.
  assert (E : str_eqb (slice (r ++ ord "#" :: f) 0 2) (lit "//")
              = str_eqb (slice r 0 2) (lit "//")).
  { destruct r as [|a [|b r']]; [reflexivity | | reflexivity].
    unfold slice. simpl. rewrite !andb_false_r. reflexivity. }
  rewrite E. destruct (str_eqb (slice r 0 2) (lit "//")) eqn:S2;
    [| split; [reflexivity | exact Hr]].
  assert (R : exists r', r = lit "//" ++ r').
  { apply str_eqb_eq in S2. unfold slice in S2. simpl in S2.
    destruct r as [|a [|b r']]; try discriminate S2.
    inversion S2. exists r'. reflexivity. }
  destruct R as [r' ->].
  assert (Hr' : contains r' (ord "#") = false) by exact Hr.
  destruct (splitnetloc_delim r' f Hr') as (delim & Hd & SP).
  pose proof (SP [] (or_introl eq_refl)) as S0.
  pose proof (SP (ord "#" :: f) (or_intror eq_refl)) as S1.
  rewrite app_nil_r in S0. rewrite <- app_assoc, S0, S1.
  assert (Ln : length (lit "//" ++ r') = 2 + length r') by reflexivity.
  assert (N : slice (lit "//" ++ r' ++ ord "#" :: f) 2 delim
              = slice (lit "//" ++ r') 2 delim).
  { unfold slice.
    change (skipn 2 (lit "//" ++ r' ++ ord "#" :: f)) with (r' ++ ord "#" :: f).
    change (skipn 2 (lit "//" ++ r')) with r'.
    apply firstn_extend. lia. }
  assert (P : slice_from (lit "//" ++ r' ++ ord "#" :: f) delim
              = slice_from (lit "//" ++ r') delim ++ ord "#" :: f).
  { unfold slice_from.
    change (lit "//" ++ r' ++ ord "#" :: f)
      with ((lit "//" ++ r') ++ ord "#" :: f).
    apply skipn_extend. lia. }
  rewrite N, P.
  set (n := slice (lit "//" ++ r') 2 delim).
  assert (Hp : contains (slice_from (lit "//" ++ r') delim) (ord "#") = false)
    by (apply contains_skipn; exact Hr).
  destruct ((contains n (ord "[") && negb (contains n (ord "]")))
            || (contains n (ord "]") && negb (contains n (ord "["))));
    [reflexivity |].
  destruct (contains n (ord "[") && contains n (ord "]"));
    [| split; [reflexivity | exact Hp]].
  destruct (_check_bracketed_netloc T n);
    [split; [reflexivity | exact Hp] | reflexivity].
Qed.

(** [urlsplit] when a fragment follows: the same, but for the fragment. *)
Lemma urlsplit_fragment (T : tables) (url frag : str) :
  contains url (ord "#") = false ->
  match urlsplit T url with
  | Raise e => urlsplit T (url ++ ord "#" :: frag) = Raise e
  | Return (sch, n, p, q, _) =>
      urlsplit T (url ++ ord "#" :: frag)
      = Return (sch, n, p, q, remove_unsafe frag)
  end.
Proof.
  intros Hu. rewrite !urlsplit_eq. cbv zeta.
  rewrite (dropwhile_app_stop is_c0_control_or_space url (ord "#") frag)
    by reflexivity.
  rewrite remove_unsafe_app, (remove_unsafe_cons (ord "#") frag) by reflexivity.
  set (u := remove_unsafe (dropwhile is_c0_control_or_space url)).
  assert (Cu : contains u (ord "#") = false)
    by (apply contains_remove_unsafe, contains_dropwhile; exact Hu).
  destruct (scheme_split_fragment u (remove_unsafe frag) Cu) as [S Cs].
  rewrite S. destruct (scheme_split u) as [sch r]. cbn [fst snd] in *.
  pose proof (netloc_split_fragment T r (remove_unsafe frag) Cs) as N.
  destruct (netloc_split T r) as [[n p]|e]; [| rewrite N; reflexivity].
  destruct N as [N Cp]. rewrite N.
  rewrite (fragment_split_at _ _ Cp), (fragment_split_none _ Cp).
  destruct (query_split p) as [p' q].
  destruct (_checknetloc T n); reflexivity.
Qed.

(** X14.  The fragment does not matter: a URL without [#] and the same URL
    followed by [#] and any text resolve to the same video identifier, and
    raise the same exception if they raise. *)
Theorem fragment_does_not_matter (T : tables) (url frag : str) :
  contains url (ord "#") = false ->
  extract_video_id T (url ++ ord "#" :: frag) = extract_video_id T url.
Proof.
  intros Hu. rewrite !extract_video_id_eq. unfold urlparse.
  pose proof (urlsplit_fragment T url frag Hu) as U.
  destruct (urlsplit T url) as [[[[[sch n] p] q] f]|e]; rewrite U;
    [| reflexivity].
  destruct (existsb (str_eqb sch) uses_params && contains p (ord ";"));
    [destruct (_splitparams p) |]; reflexivity.
Qed.

Lemma fragment_does_not_matter_witness :
  extract_video_id ascii_tables
    (lit "https://www.youtube.com/watch?v=dQw4w9WgXcQ" ++ ord "#" :: lit "t=1m")
  = extract_video_id ascii_tables
      (lit "https://www.youtube.com/watch?v=dQw4w9WgXcQ").
Proof.
  apply (@fragment_does_not_matter ascii_tables
           (lit "https://www.youtube.com/watch?v=dQw4w9WgXcQ") (lit "t=1m")).
  vm_compute. reflexivity.
Defined.

(* ================================================================= *)
(** ** The recovery of an object wrapped in text *)

Lemma last_index_of_lt (c : char) (s : str) (j : nat) :
  last_index_of c s = Some j -> j < length s.
Proof.
  revert j; induction s as [|x s IH]; simpl; intros j H; [discriminate |].
  destruct (last_index_of c s) as [i|].
  - inversion H; subst. specialize (IH i eq_refl). lia.
  - destruct (chr_eqb x c); inversion H; lia.
Qed.

(** Trimming keeps the candidate. *)
Lemma candidate_strip (raw : str) :
  has_boundaries raw = true -> candidate (strip raw) = candidate raw.
Proof.
  intros B. unfold has_boundaries, candidate, start_index, end_index in *.
  destruct (strip_spec raw) as (ws1 & ws2 & Hs & H1 & H2 & _).
  set (S := strip raw) in *.
  assert (N : forall ws c, forallb isspace ws = true -> isspace c = false ->
                           contains ws c = false)
    by (intros ws c Hw Hc; apply (forallb_contains isspace); assumption).
  assert (Ei : index_of (ord "{") raw
               = option_map (Nat.add (length ws1)) (index_of (ord "{") S)).
  { rewrite Hs at 1.
    rewrite !index_of_app, (index_of_none _ _ (N ws1 (ord "{") H1 eq_refl)),
      (index_of_none _ _ (N ws2 (ord "{") H2 eq_refl)).
    destruct (index_of (ord "{") S); reflexivity. }
  assert (El : last_index_of (ord "}") raw
               = option_map (Nat.add (length ws1)) (last_index_of (ord "}") S)).
  { rewrite Hs at 1.
    rewrite !last_index_of_app,
      (last_index_of_none _ _ (N ws2 (ord "}") H2 eq_refl)).
    destruct (last_index_of (ord "}") S); simpl;
      [reflexivity | apply last_index_of_none, N; auto]. }
  unfold find, rfind in *. rewrite Ei, El in B.
  rewrite Ei, El.
  destruct (index_of (ord "{") S) as [i|] eqn:Fi; [| discriminate B].
  destruct (last_index_of (ord "}") S) as [j|] eqn:Fj;
    [| simpl in B; rewrite andb_false_r in B; discriminate B].
  cbn [option_map] in *.
  apply index_of_lt in Fi as [Li _]. apply last_index_of_lt in Fj.
  rewrite !Nat2Z.id.
  replace (Z.to_nat (Z.of_nat j + 1)) with (Datatypes.S j) by lia.
  replace (Z.to_nat (Z.of_nat (length ws1 + j) + 1))
    with (Datatypes.S (length ws1 + j)) by lia.
  unfold slice. rewrite Hs at 1.
  rewrite (Nat.add_comm (length ws1) i), <- skipn_skipn, skipn_exact.
  rewrite skipn_app. replace (i - length S) with 0 by lia. cbn [skipn].
  replace (Datatypes.S (length ws1 + j) - (i + length ws1))
    with (Datatypes.S j - i) by lia.
  rewrite firstn_extend by (rewrite length_skipn; lia).
  reflexivity.
Qed.

(** The recovery does not depend on [strip]. *)
Lemma json_recovery_strip (py : interpreter) (raw : str) (tr : trace) :
  json_recovery py (strip raw) tr = json_recovery py raw tr.
Proof.
  rewrite !json_recovery_eq.
  assert (B : has_boundaries (strip raw) = has_boundaries raw)
    by apply has_boundaries_strip.
  rewrite B. destruct (has_boundaries raw) eqn:E; [| reflexivity].
  rewrite (candidate_strip raw E). reflexivity.
Qed.

(** The candidate in a text made of a prefix without [{], a text between
    braces and a suffix: the text between braces and the suffix up to its
    last [}]. *)
Lemma candidate_of_wrapped (pre body post : str) :
  contains pre (ord "{") = false ->
  let raw := pre ++ lit "{" ++ body ++ lit "}" ++ post in
  has_boundaries raw = true
  /\ candidate raw = (lit "{" ++ body ++ lit "}") ++ up_to_last (ord "}") post.
Proof.
  intros Hp raw. unfold has_boundaries, candidate, start_index, end_index.
  assert (F : find raw (ord "{") = Z.of_nat (length pre)).
  { unfold find, raw. rewrite index_of_app, (index_of_none _ _ Hp).
    cbn. rewrite Nat.add_0_r. reflexivity. }
  assert (R : rfind raw (ord "}")
              = Z.of_nat (length pre + Datatypes.S (length body)
                          + length (up_to_last (ord "}") post))
              /\ up_to_last (ord "}") post
                 = firstn (length (up_to_last (ord "}") post)) post).
  { unfold rfind, raw, up_to_last.
    replace (pre ++ lit "{" ++ body ++ lit "}" ++ post)
      with ((pre ++ lit "{" ++ body) ++ ord "}" :: post)
      by (rewrite <- !app_assoc; reflexivity).
    rewrite last_index_of_app. cbn [last_index_of].
    rewrite chr_eqb_refl.
    assert (Lp : length (pre ++ lit "{" ++ body)
                 = length pre + Datatypes.S (length body))
      by (rewrite !length_app; reflexivity).
    destruct (last_index_of (ord "}") post) as [i|] eqn:E.
    - apply last_index_of_lt in E.
      rewrite Lp, length_firstn, Nat.min_l by lia.
      split; reflexivity.
    - rewrite Lp. split; reflexivity. }
  destruct R as (R & U). rewrite F, R.
  set (j := length (up_to_last (ord "}") post)) in *. split.
  - apply andb_true_iff. split; [apply andb_true_iff; split |].
    + apply negb_true_iff, Z.eqb_neq. lia.
    + apply negb_true_iff, Z.eqb_neq. lia.
    + apply Z.ltb_lt. lia.
  - rewrite U, Nat2Z.id.
    replace (Z.to_nat (Z.of_nat (length pre + Datatypes.S (length body) + j) + 1))
      with (length pre + (length (lit "{" ++ body ++ lit "}") + j))
      by (rewrite !length_app; simpl; lia).
    unfold slice, raw. rewrite skipn_exact.
    replace (length pre + (length (lit "{" ++ body ++ lit "}") + j) - length pre)
      with (length (lit "{" ++ body ++ lit "}") + j) by lia.
    replace (lit "{" ++ body ++ lit "}" ++ post)
      with ((lit "{" ++ body ++ lit "}") ++ post)
      by (rewrite <- !app_assoc; reflexivity).
    apply firstn_app_2.
Qed.

(** The recovery of a candidate that begins with a valid object: the
    object, after the attempts on the candidate and on its prefixes down
    to the object and the whitespace that follows it. *)
Lemma json_recovery_of_object (py : interpreter) (raw_text obj junk : str)
  (v : pyvalue) (tr : trace) :
  has_boundaries raw_text = true ->
  candidate raw_text = obj ++ junk ->
  json_loads py obj = Return v ->
  json_recovery py raw_text tr =
  (Return v,
   tr ++ CalledJsonLoads (obj ++ junk)
      :: if forallb is_json_ws junk then []
         else map CalledJsonLoads
                (prefixes_down (length (obj ++ junk))
                   (length obj + length (takewhile is_json_ws junk))
                   (obj ++ junk))).
Proof.
  intros B C L.
  assert (Hs : startswith obj (lit "{") = true).
  { pose proof (candidate_itself_starts_with_brace raw_text B) as S.
    rewrite C in S. destruct obj as [|x obj]; [discriminate L | exact S]. }
  assert (Lo : 1 <= length obj)
    by (destruct obj; [discriminate Hs | simpl; lia]).
  rewrite json_recovery_eq, B. cbv zeta. rewrite C.
  rewrite (json_loads_tail py obj junk Hs L).
  destruct (forallb is_json_ws junk) eqn:A; [reflexivity |].
  cbn [is_JSONDecodeError].
  remember (obj ++ junk) as c eqn:Hc.
  set (n := length obj + length (takewhile is_json_ws junk)).
  assert (Lw : length (takewhile is_json_ws junk) <= length junk).
  { rewrite (dropwhile_split is_json_ws junk) at 2. rewrite length_app. lia. }
  assert (Lc : length c = length obj + length junk)
    by (subst c; apply length_app).
  assert (Q : forall m, length obj <= m ->
                        firstn m c = obj ++ firstn (m - length obj) junk).
  { intros m Hm. subst c. rewrite firstn_app, firstn_all2 by lia. reflexivity. }
  assert (R : refine py (length c) c (tr ++ [CalledJsonLoads c])
              = (Return (Some v),
                 (tr ++ [CalledJsonLoads c])
                   ++ map CalledJsonLoads (prefixes_down (length c) n c))).
  { rewrite <- (firstn_all c) at 2.
    apply refine_found; try lia.
    - rewrite Q by lia. subst n.
      replace (length obj + length (takewhile is_json_ws junk) - length obj)
        with (length (takewhile is_json_ws junk)) by lia.
      rewrite firstn_takewhile, (json_loads_tail py obj _ Hs L), takewhile_all.
      reflexivity.
    - intros m Hm. rewrite Q by lia.
      rewrite (json_loads_tail py obj _ Hs L).
      rewrite (firstn_not_all is_json_ws junk) by lia.
      eexists. split; reflexivity. }
  rewrite R, <- app_assoc. reflexivity.
Qed.

(** X15.  [json.loads] on a valid object followed by text.  When [obj] begins
    with [{] and decodes to [v], [obj] followed by JSON whitespace decodes
    to [v] as well, and [obj] followed by anything else raises "Extra data"
    at the first character after the object that is not JSON whitespace:
    the object is read the same whatever follows it. *)
Theorem json_loads_object_then_text
  (py : interpreter) (obj : str) (v : pyvalue) :
  startswith obj (lit "{") = true ->
  json_loads py obj = Return v ->
  (forall ws, forallb is_json_ws ws = true ->
              json_loads py (obj ++ ws) = Return v)
  /\ (forall ws x rest,
         forallb is_json_ws ws = true -> is_json_ws x = false ->
         json_loads py (obj ++ ws ++ x :: rest)
         = Raise (JSONDecodeError (lit "Extra data") (obj ++ ws ++ x :: rest)
                    (length obj + length ws))).
Proof.
  intros Hs H. split.
  - intros ws A. rewrite (json_loads_tail py obj ws Hs H), A. reflexivity.
  - intros ws x rest A Hx.
    rewrite (json_loads_tail py obj (ws ++ x :: rest) Hs H).
    rewrite forallb_app. cbn [forallb]. rewrite Hx, andb_false_r.
    rewrite (takewhile_stop is_json_ws ws x rest Hx), (forallb_takewhile _ _ A).
    reflexivity.
Qed.

Lemma json_loads_object_then_text_witness :
  (forall ws, forallb is_json_ws ws = true ->
              json_loads script_interpreter (example_json ++ ws)
              = Return (PyDict [(lit "summary", PyStr (lit "ok"))]))
  /\ (forall ws x rest,
         forallb is_json_ws ws = true -> is_json_ws x = false ->
         json_loads script_interpreter (example_json ++ ws ++ x :: rest)
         = Raise (JSONDecodeError (lit "Extra data")
                    (example_json ++ ws ++ x :: rest)
                    (length example_json + length ws))).
Proof.
  apply (@json_loads_object_then_text script_interpreter example_json
           (PyDict [(lit "summary", PyStr (lit "ok"))]));
    vm_compute; reflexivity.
Defined.

(** X16.  An object wrapped in text is recovered.  When the answer of the
    LLM is a text without [{], then a valid JSON object from its [{] to its
    [}], then any text (a Markdown fence, a remark, further braces),
    [analyze_transcript] returns the value of that object.  The loop does
    it with one attempt on the candidate and, when the suffix holds a [}],
    one attempt for each prefix of the candidate down to the object and the
    whitespace that follows it. *)
Theorem object_in_text_is_recovered
  (py : interpreter) (svc : services) (transcript pre body post : str)
  (v : pyvalue) (response : llm_response) :
  contains pre (ord "{") = false ->
  json_loads py (lit "{" ++ body ++ lit "}") = Return v ->
  let obj := lit "{" ++ body ++ lit "}" in
  let junk := up_to_last (ord "}") post in
  (forall tr,
      json_recovery py (pre ++ obj ++ post) tr =
      (Return v,
       tr ++ CalledJsonLoads (obj ++ junk)
          :: if forallb is_json_ws junk then []
             else map CalledJsonLoads
                    (prefixes_down (length (obj ++ junk))
                       (length obj + length (takewhile is_json_ws junk))
                       (obj ++ junk))))
  /\ (generate_content svc (analysis_prompt transcript) = Return response ->
      response_text response = Return (pre ++ obj ++ post) ->
      forall tr, fst (analyze_transcript py svc transcript tr) = Return v).
Proof.
  intros Hp L obj junk.
  destruct (candidate_of_wrapped pre body post Hp) as [B C].
  cbv zeta in B, C. fold obj in B, C. fold junk in C.
  assert (R : forall tr,
             json_recovery py (pre ++ obj ++ post) tr =
             (Return v,
              tr ++ CalledJsonLoads (obj ++ junk)
                 :: if forallb is_json_ws junk then []
                    else map CalledJsonLoads
                           (prefixes_down (length (obj ++ junk))
                              (length obj + length (takewhile is_json_ws junk))
                              (obj ++ junk)))).
  { intros tr.
    replace (pre ++ obj ++ post)
      with (pre ++ lit "{" ++ body ++ lit "}" ++ post)
      by (unfold obj; rewrite <- !app_assoc; reflexivity).
    apply json_recovery_of_object; assumption. }
  split; [exact R |].
  intros G T tr. rewrite analyze_transcript_eq. cbv zeta. rewrite G, T.
  rewrite json_recovery_strip, R. reflexivity.
Qed.

Lemma object_in_text_is_recovered_witness :
  let v := PyDict [(lit "summary", PyStr (lit "ok"))] in
  let obj := lit "{" ++ fenced_body ++ lit "}" in
  let junk := up_to_last (ord "}") fenced_post in
  (forall tr,
      json_recovery script_interpreter (fenced_pre ++ obj ++ fenced_post) tr =
      (Return v,
       tr ++ CalledJsonLoads (obj ++ junk)
          :: if forallb is_json_ws junk then []
             else map CalledJsonLoads
                    (prefixes_down (length (obj ++ junk))
                       (length obj + length (takewhile is_json_ws junk))
                       (obj ++ junk))))
  /\ forall tr,
       fst (analyze_transcript script_interpreter
              (constant_services (fenced_pre ++ obj ++ fenced_post))
              (lit "hello world") tr)
       = Return v.
Proof.
  destruct (@object_in_text_is_recovered script_interpreter
              (constant_services
                 (fenced_pre ++ (lit "{" ++ fenced_body ++ lit "}") ++ fenced_post))
              (lit "hello world") fenced_pre fenced_body fenced_post
              (PyDict [(lit "summary", PyStr (lit "ok"))])
              {| response_text :=
                   Return (fenced_pre ++ (lit "{" ++ fenced_body ++ lit "}")
                             ++ fenced_post) |}
              eq_refl eq_refl) as [R A].
  split; [exact R | exact (A eq_refl eq_refl)].
Defined.

(** X17.  Trimming the answer of the LLM changes nothing but the printed
    line: the recovery does the same on the trimmed answer and on the answer
    as the LLM gave it, whitespace included, so the candidate and the
    result are the same with and without [strip].  After the call of the
    LLM and the line that shows the trimmed answer, [analyze_transcript]
    returns what the recovery returns on the answer as given; when the
    recovery raises (a limit error of [json.loads]), it prints the
    exception and returns the error record of it. *)
Theorem analysis_does_not_depend_on_trimming
  (py : interpreter) (svc : services) (transcript text : str)
  (response : llm_response) (tr : trace) :
  generate_content svc (analysis_prompt transcript) = Return response ->
  response_text response = Return text ->
  let tr1 := tr ++ [CalledGenerateContent (analysis_prompt transcript);
                    Printed (lit "Raw Gemini Response (Analysis):" ++ [newline]
                               ++ lit " " ++ strip text)] in
  json_recovery py (strip text) tr1 = json_recovery py text tr1
  /\ analyze_transcript py svc transcript tr =
     match json_recovery py text tr1 with
     | (Return analysis, tr2) => (Return analysis, tr2)
     | (Raise e, tr2) =>
         (Return (error_dict (exn_str e)),
          tr2 ++ [Printed (lit "Gemini API error (Analysis): " ++ exn_str e)])
     end.
Proof.
  intros G T tr1. subst tr1. split; [apply json_recovery_strip |].
  rewrite analyze_transcript_eq. cbv zeta. rewrite G, T.
  rewrite json_recovery_strip, <- app_assoc. reflexivity.
Qed.

(** An answer with whitespace around it; and an answer that makes the
    recovery raise. *)
Lemma analysis_does_not_depend_on_trimming_witness :
  (let text := lit "  " ++ example_raw ++ [newline] in
   let tr1 := [] ++ [CalledGenerateContent (analysis_prompt (lit "hello world"));
                     Printed (lit "Raw Gemini Response (Analysis):" ++ [newline]
                                ++ lit " " ++ strip text)] in
   json_recovery script_interpreter (strip text) tr1
   = json_recovery script_interpreter text tr1
   /\ analyze_transcript script_interpreter (constant_services text)
        (lit "hello world") [] =
      match json_recovery script_interpreter text tr1 with
      | (Return analysis, tr2) => (Return analysis, tr2)
      | (Raise e, tr2) =>
          (Return (error_dict (exn_str e)),
           tr2 ++ [Printed (lit "Gemini API error (Analysis): " ++ exn_str e)])
      end)
  /\ fst (analyze_transcript script_interpreter
            (constant_services long_integer_json) (lit "hello world") [])
     = Return (error_dict (msg_int_limit 4301)).
Proof.
  split.
  - apply (@analysis_does_not_depend_on_trimming script_interpreter
             (constant_services (lit "  " ++ example_raw ++ [newline]))
             (lit "hello world") (lit "  " ++ example_raw ++ [newline])
             {| response_text := Return (lit "  " ++ example_raw ++ [newline]) |}
             []);
      reflexivity.
  - vm_compute. reflexivity.
Defined.

(* ================================================================= *)
(** ** Answers beyond the limits of [json.loads] *)












